(** * GLContextAndroid: the EGL context manager of the OpenGL ES backend

    A shallow embedding of
    [Graphics/GraphicsEngineOpenGL/src/GLContextAndroid.cpp].

    The class [GLContext] is a record of its member fields.  Member
    functions are computations in a state-and-exception monad over a
    machine made of the object, the state of the EGL/GL platform, and the
    chronological trace of platform calls and log lines.  An exception
    keeps the machine it was raised in: members written before a [throw]
    stay written, as in C++.

    The platform (EGL, GLES, the native window) is a parameter: a record of
    transition functions over an arbitrary world type.  [Sim] is one
    executable platform, and [Scenario] a few runs of the manager on it.

    The file has two parts: the definitions (the embedding, the platform,
    the vocabulary of the statements), then the proofs. *)

From Stdlib Require Import ZArith List String Ascii Bool Lia Sorted.
From Stdlib Require DecimalString DecimalZ.
Import ListNotations.
Local Open Scope string_scope.
Local Open Scope list_scope.
Local Open Scope Z_scope.

(** ** Platform types and constants *)

Definition EGLint := Z.
Definition EGLDisplay := Z.
Definition EGLSurface := Z.
Definition EGLContext := Z.
Definition EGLConfig := Z.
Definition ANativeWindow := Z.   (* an ANativeWindow*, as an address *)

Definition nullptr : Z := 0.
Definition NULL : Z := 0.

(* Handles and enumerants of the Khronos EGL and GLES headers. *)
Definition EGL_DEFAULT_DISPLAY : Z := 0.
Definition EGL_NO_DISPLAY : EGLDisplay := 0.
Definition EGL_NO_SURFACE : EGLSurface := 0.
Definition EGL_NO_CONTEXT : EGLContext := 0.

Definition EGL_SUCCESS : EGLint := 0x3000.
Definition EGL_BAD_ALLOC : EGLint := 0x3003.
Definition EGL_BAD_CONTEXT : EGLint := 0x3006.
Definition EGL_BAD_DISPLAY : EGLint := 0x3008.
Definition EGL_BAD_MATCH : EGLint := 0x3009.
Definition EGL_BAD_NATIVE_WINDOW : EGLint := 0x300B.
Definition EGL_BAD_SURFACE : EGLint := 0x300D.
Definition EGL_CONTEXT_LOST : EGLint := 0x300E.

Definition EGL_ALPHA_SIZE : EGLint := 0x3021.
Definition EGL_BLUE_SIZE : EGLint := 0x3022.
Definition EGL_GREEN_SIZE : EGLint := 0x3023.
Definition EGL_RED_SIZE : EGLint := 0x3024.
Definition EGL_DEPTH_SIZE : EGLint := 0x3025.
Definition EGL_NATIVE_VISUAL_ID : EGLint := 0x302E.
Definition EGL_SURFACE_TYPE : EGLint := 0x3033.
Definition EGL_NONE : EGLint := 0x3038.
Definition EGL_MIN_SWAP_INTERVAL : EGLint := 0x303B.
Definition EGL_MAX_SWAP_INTERVAL : EGLint := 0x303C.
Definition EGL_RENDERABLE_TYPE : EGLint := 0x3040.
Definition EGL_HEIGHT : EGLint := 0x3056.
Definition EGL_WIDTH : EGLint := 0x3057.
Definition EGL_CONTEXT_CLIENT_VERSION : EGLint := 0x3098.
Definition EGL_WINDOW_BIT : EGLint := 0x0004.
Definition EGL_OPENGL_ES2_BIT : EGLint := 0x0004.

(* #ifndef EGL_CONTEXT_MINOR_VERSION_KHR ... 0x30FB *)
Definition EGL_CONTEXT_MINOR_VERSION_KHR : EGLint := 0x30FB.
(* #ifndef EGL_CONTEXT_MAJOR_VERSION_KHR ... EGL_CONTEXT_CLIENT_VERSION *)
Definition EGL_CONTEXT_MAJOR_VERSION_KHR : EGLint := EGL_CONTEXT_CLIENT_VERSION.

Definition GL_NO_ERROR : Z := 0.
Definition GL_VERSION : Z := 0x1F02.
Definition GL_MAJOR_VERSION : Z := 0x821B.
Definition GL_MINOR_VERSION : Z := 0x821C.
Definition GL_DEBUG_OUTPUT_SYNCHRONOUS : Z := 0x8242.
Definition GL_FRAMEBUFFER_SRGB : Z := 0x8DB9.

Inductive RENDER_DEVICE_TYPE := RENDER_DEVICE_TYPE_UNDEFINED | RENDER_DEVICE_TYPE_GLES.

Definition LF : string := String (ascii_of_nat 10) EmptyString.

(** ** Observable events

    One event per platform call, with its arguments and what the platform
    answered, and one per log line. *)

Inductive Level := Info | Warning | Error.

Inductive LogPart :=
| Str (s : string)
| Int (z : Z).

Inductive Event :=
| Ev_eglGetDisplay (display_id : Z) (ret : EGLDisplay)
| Ev_eglInitialize (dpy : EGLDisplay) (ret : bool)
| Ev_eglChooseConfig (dpy : EGLDisplay) (attribs : list EGLint) (config_size : Z)
    (ret : option (list EGLConfig))
| Ev_eglCreateWindowSurface (dpy : EGLDisplay) (cfg : EGLConfig) (win : ANativeWindow)
    (ret : EGLSurface)
| Ev_eglQuerySurface (dpy : EGLDisplay) (surf : EGLSurface) (attr : EGLint)
    (ret : option EGLint)
| Ev_eglGetConfigAttrib (dpy : EGLDisplay) (cfg : EGLConfig) (attr : EGLint)
    (ret : option EGLint)
| Ev_ANativeWindow_setBuffersGeometry (win : ANativeWindow) (w h : Z)
    (format : option EGLint) (ret : Z)
| Ev_eglCreateContext (dpy : EGLDisplay) (cfg : EGLConfig) (share : EGLContext)
    (attribs : list EGLint) (ret : EGLContext)
| Ev_eglMakeCurrent (dpy : EGLDisplay) (draw read : EGLSurface) (ctx : EGLContext)
    (ret : bool)
| Ev_eglGetCurrentContext (ret : EGLContext)
| Ev_eglSwapInterval (dpy : EGLDisplay) (interval : EGLint) (ret : bool)
| Ev_eglSwapBuffers (dpy : EGLDisplay) (surf : EGLSurface) (ret : bool)
| Ev_eglGetError (ret : EGLint)
| Ev_eglDestroyContext (dpy : EGLDisplay) (ctx : EGLContext) (ret : bool)
| Ev_eglDestroySurface (dpy : EGLDisplay) (surf : EGLSurface) (ret : bool)
| Ev_eglTerminate (dpy : EGLDisplay) (ret : bool)
| Ev_glGetString (name : Z) (ret : string)
| Ev_glGetIntegerv (pname : Z) (ret : option Z)
| Ev_LoadGLFunctions (ret : unit)
| Ev_glEnable (cap : Z) (ret : unit)
| Ev_glGetError (ret : Z)
| Ev_glDebugMessageCallback (ret : unit)
| Ev_Log (lvl : Level) (parts : list LogPart).

(** ** The platform

    Each field answers one entry point from the current world and moves
    the world on.  Out-parameters are returned: [None] means the call
    failed and left the caller's variable untouched.  [on_eglChooseConfig]
    returns [None] for [EGL_FALSE] and otherwise every matching
    configuration, best match first; the caller's [config_size] truncates
    that list. *)

Record Platform (W : Type) := {
  on_eglGetDisplay : Z -> W -> EGLDisplay * W;
  on_eglInitialize : EGLDisplay -> W -> bool * W;
  on_eglChooseConfig : EGLDisplay -> list EGLint -> W -> option (list EGLConfig) * W;
  on_eglCreateWindowSurface : EGLDisplay -> EGLConfig -> ANativeWindow -> W -> EGLSurface * W;
  on_eglQuerySurface : EGLDisplay -> EGLSurface -> EGLint -> W -> option EGLint * W;
  on_eglGetConfigAttrib : EGLDisplay -> EGLConfig -> EGLint -> W -> option EGLint * W;
  on_ANativeWindow_setBuffersGeometry : ANativeWindow -> Z -> Z -> option EGLint -> W -> Z * W;
  on_eglCreateContext : EGLDisplay -> EGLConfig -> EGLContext -> list EGLint -> W -> EGLContext * W;
  on_eglMakeCurrent : EGLDisplay -> EGLSurface -> EGLSurface -> EGLContext -> W -> bool * W;
  on_eglGetCurrentContext : W -> EGLContext * W;
  on_eglSwapInterval : EGLDisplay -> EGLint -> W -> bool * W;
  on_eglSwapBuffers : EGLDisplay -> EGLSurface -> W -> bool * W;
  on_eglGetError : W -> EGLint * W;
  on_eglDestroyContext : EGLDisplay -> EGLContext -> W -> bool * W;
  on_eglDestroySurface : EGLDisplay -> EGLSurface -> W -> bool * W;
  on_eglTerminate : EGLDisplay -> W -> bool * W;
  on_glGetString : Z -> W -> string * W;
  on_glGetIntegerv : Z -> W -> option Z * W;
  on_LoadGLFunctions : W -> unit * W;
  on_glEnable : Z -> W -> unit * W;
  on_glGetError : W -> Z * W;
  on_glDebugMessageCallback : W -> unit * W;
  (* whether LoadGLFunctions left the glDebugMessageCallback pointer non-null *)
  has_glDebugMessageCallback : W -> bool
}.

Arguments on_eglGetDisplay {W}.
Arguments on_eglInitialize {W}.
Arguments on_eglChooseConfig {W}.
Arguments on_eglCreateWindowSurface {W}.
Arguments on_eglQuerySurface {W}.
Arguments on_eglGetConfigAttrib {W}.
Arguments on_ANativeWindow_setBuffersGeometry {W}.
Arguments on_eglCreateContext {W}.
Arguments on_eglMakeCurrent {W}.
Arguments on_eglGetCurrentContext {W}.
Arguments on_eglSwapInterval {W}.
Arguments on_eglSwapBuffers {W}.
Arguments on_eglGetError {W}.
Arguments on_eglDestroyContext {W}.
Arguments on_eglDestroySurface {W}.
Arguments on_eglTerminate {W}.
Arguments on_glGetString {W}.
Arguments on_glGetIntegerv {W}.
Arguments on_LoadGLFunctions {W}.
Arguments on_glEnable {W}.
Arguments on_glGetError {W}.
Arguments on_glDebugMessageCallback {W}.
Arguments has_glDebugMessageCallback {W}.

(** ** The object

    Modelled from the spec: the class declaration (GLContextAndroid.hpp) is
    not part of the sources; the fields are the members the .cpp file reads
    and writes, with the entities of the data model (display connection,
    configuration, surface, context, swap-interval bounds, screen
    dimensions) and the three flags. *)

Record GLContext := mkGLContext {
  display_ : EGLDisplay;
  surface_ : EGLSurface;
  context_ : EGLContext;
  config_ : EGLConfig;
  window_ : ANativeWindow;
  color_size_ : Z;
  depth_size_ : Z;
  screen_width_ : Z;
  screen_height_ : Z;
  min_swap_interval_ : Z;
  max_swap_interval_ : Z;
  major_version_ : Z;
  minor_version_ : Z;
  gles_initialized_ : bool;
  egl_context_initialized_ : bool;
  context_valid_ : bool
}.

Definition set_display_ (v : EGLDisplay) (g : GLContext) : GLContext :=
  mkGLContext v (surface_ g) (context_ g) (config_ g) (window_ g) (color_size_ g)
    (depth_size_ g) (screen_width_ g) (screen_height_ g) (min_swap_interval_ g)
    (max_swap_interval_ g) (major_version_ g) (minor_version_ g)
    (gles_initialized_ g) (egl_context_initialized_ g) (context_valid_ g).

Definition set_surface_ (v : EGLSurface) (g : GLContext) : GLContext :=
  mkGLContext (display_ g) v (context_ g) (config_ g) (window_ g) (color_size_ g)
    (depth_size_ g) (screen_width_ g) (screen_height_ g) (min_swap_interval_ g)
    (max_swap_interval_ g) (major_version_ g) (minor_version_ g)
    (gles_initialized_ g) (egl_context_initialized_ g) (context_valid_ g).

Definition set_context_ (v : EGLContext) (g : GLContext) : GLContext :=
  mkGLContext (display_ g) (surface_ g) v (config_ g) (window_ g) (color_size_ g)
    (depth_size_ g) (screen_width_ g) (screen_height_ g) (min_swap_interval_ g)
    (max_swap_interval_ g) (major_version_ g) (minor_version_ g)
    (gles_initialized_ g) (egl_context_initialized_ g) (context_valid_ g).

Definition set_config_ (v : EGLConfig) (g : GLContext) : GLContext :=
  mkGLContext (display_ g) (surface_ g) (context_ g) v (window_ g) (color_size_ g)
    (depth_size_ g) (screen_width_ g) (screen_height_ g) (min_swap_interval_ g)
    (max_swap_interval_ g) (major_version_ g) (minor_version_ g)
    (gles_initialized_ g) (egl_context_initialized_ g) (context_valid_ g).

Definition set_window_ (v : ANativeWindow) (g : GLContext) : GLContext :=
  mkGLContext (display_ g) (surface_ g) (context_ g) (config_ g) v (color_size_ g)
    (depth_size_ g) (screen_width_ g) (screen_height_ g) (min_swap_interval_ g)
    (max_swap_interval_ g) (major_version_ g) (minor_version_ g)
    (gles_initialized_ g) (egl_context_initialized_ g) (context_valid_ g).

Definition set_color_size_ (v : Z) (g : GLContext) : GLContext :=
  mkGLContext (display_ g) (surface_ g) (context_ g) (config_ g) (window_ g) v
    (depth_size_ g) (screen_width_ g) (screen_height_ g) (min_swap_interval_ g)
    (max_swap_interval_ g) (major_version_ g) (minor_version_ g)
    (gles_initialized_ g) (egl_context_initialized_ g) (context_valid_ g).

Definition set_depth_size_ (v : Z) (g : GLContext) : GLContext :=
  mkGLContext (display_ g) (surface_ g) (context_ g) (config_ g) (window_ g) (color_size_ g)
    v (screen_width_ g) (screen_height_ g) (min_swap_interval_ g)
    (max_swap_interval_ g) (major_version_ g) (minor_version_ g)
    (gles_initialized_ g) (egl_context_initialized_ g) (context_valid_ g).

Definition set_screen_width_ (v : Z) (g : GLContext) : GLContext :=
  mkGLContext (display_ g) (surface_ g) (context_ g) (config_ g) (window_ g) (color_size_ g)
    (depth_size_ g) v (screen_height_ g) (min_swap_interval_ g)
    (max_swap_interval_ g) (major_version_ g) (minor_version_ g)
    (gles_initialized_ g) (egl_context_initialized_ g) (context_valid_ g).

Definition set_screen_height_ (v : Z) (g : GLContext) : GLContext :=
  mkGLContext (display_ g) (surface_ g) (context_ g) (config_ g) (window_ g) (color_size_ g)
    (depth_size_ g) (screen_width_ g) v (min_swap_interval_ g)
    (max_swap_interval_ g) (major_version_ g) (minor_version_ g)
    (gles_initialized_ g) (egl_context_initialized_ g) (context_valid_ g).

Definition set_min_swap_interval_ (v : Z) (g : GLContext) : GLContext :=
  mkGLContext (display_ g) (surface_ g) (context_ g) (config_ g) (window_ g) (color_size_ g)
    (depth_size_ g) (screen_width_ g) (screen_height_ g) v
    (max_swap_interval_ g) (major_version_ g) (minor_version_ g)
    (gles_initialized_ g) (egl_context_initialized_ g) (context_valid_ g).

Definition set_max_swap_interval_ (v : Z) (g : GLContext) : GLContext :=
  mkGLContext (display_ g) (surface_ g) (context_ g) (config_ g) (window_ g) (color_size_ g)
    (depth_size_ g) (screen_width_ g) (screen_height_ g) (min_swap_interval_ g)
    v (major_version_ g) (minor_version_ g)
    (gles_initialized_ g) (egl_context_initialized_ g) (context_valid_ g).

Definition set_major_version_ (v : Z) (g : GLContext) : GLContext :=
  mkGLContext (display_ g) (surface_ g) (context_ g) (config_ g) (window_ g) (color_size_ g)
    (depth_size_ g) (screen_width_ g) (screen_height_ g) (min_swap_interval_ g)
    (max_swap_interval_ g) v (minor_version_ g)
    (gles_initialized_ g) (egl_context_initialized_ g) (context_valid_ g).

Definition set_minor_version_ (v : Z) (g : GLContext) : GLContext :=
  mkGLContext (display_ g) (surface_ g) (context_ g) (config_ g) (window_ g) (color_size_ g)
    (depth_size_ g) (screen_width_ g) (screen_height_ g) (min_swap_interval_ g)
    (max_swap_interval_ g) (major_version_ g) v
    (gles_initialized_ g) (egl_context_initialized_ g) (context_valid_ g).

Definition set_gles_initialized_ (v : bool) (g : GLContext) : GLContext :=
  mkGLContext (display_ g) (surface_ g) (context_ g) (config_ g) (window_ g) (color_size_ g)
    (depth_size_ g) (screen_width_ g) (screen_height_ g) (min_swap_interval_ g)
    (max_swap_interval_ g) (major_version_ g) (minor_version_ g)
    v (egl_context_initialized_ g) (context_valid_ g).

Definition set_egl_context_initialized_ (v : bool) (g : GLContext) : GLContext :=
  mkGLContext (display_ g) (surface_ g) (context_ g) (config_ g) (window_ g) (color_size_ g)
    (depth_size_ g) (screen_width_ g) (screen_height_ g) (min_swap_interval_ g)
    (max_swap_interval_ g) (major_version_ g) (minor_version_ g)
    (gles_initialized_ g) v (context_valid_ g).

Definition set_context_valid_ (v : bool) (g : GLContext) : GLContext :=
  mkGLContext (display_ g) (surface_ g) (context_ g) (config_ g) (window_ g) (color_size_ g)
    (depth_size_ g) (screen_width_ g) (screen_height_ g) (min_swap_interval_ g)
    (max_swap_interval_ g) (major_version_ g) (minor_version_ g)
    (gles_initialized_ g) (egl_context_initialized_ g) v.

(* An out-parameter is written only when the call delivered a value. *)
Definition store {A : Type} (set : A -> GLContext -> GLContext) (r : option A)
    (g : GLContext) : GLContext :=
  match r with
  | Some v => set v g
  | None => g
  end.

(** ** Machine and monad *)

Inductive outcome (A : Type) :=
| Ok (a : A)
| Throw (what : string).   (* a std::runtime_error *)

Arguments Ok {A}.
Arguments Throw {A}.

Record Machine (W : Type) := mkMachine {
  self : GLContext;
  world : W;
  trace : list Event
}.

Arguments mkMachine {W}.
Arguments self {W}.
Arguments world {W}.
Arguments trace {W}.

Definition M (W A : Type) : Type := Machine W -> outcome A * Machine W.

Definition ret {W A} (a : A) : M W A := fun m => (Ok a, m).

Definition bind {W A B} (c : M W A) (k : A -> M W B) : M W B :=
  fun m =>
    match c m with
    | (Ok a, m') => k a m'
    | (Throw e, m') => (Throw e, m')
    end.

Definition throw {W A} (what : string) : M W A := fun m => (Throw what, m).

(* try { body } catch (std::runtime_error&) { handler } *)
Definition try_catch {W A} (body : M W A) (handler : string -> M W A) : M W A :=
  fun m =>
    match body m with
    | (Ok a, m') => (Ok a, m')
    | (Throw e, m') => handler e m'
    end.

Declare Scope cpp_scope.
Delimit Scope cpp_scope with cpp.
Notation "x <- c ;; k" := (bind c (fun x => k))
  (at level 61, c at next level, right associativity) : cpp_scope.
Notation "c ;; k" := (bind c (fun _ => k))
  (at level 61, right associativity) : cpp_scope.
Local Open Scope cpp_scope.

(* read a member *)
Definition rd {W A} (f : GLContext -> A) : M W A := fun m => (Ok (f (self m)), m).

(* write members *)
Definition wr {W} (f : GLContext -> GLContext) : M W unit :=
  fun m => (Ok tt, mkMachine (f (self m)) (world m) (trace m)).

Definition emit {W} (e : Event) : M W unit :=
  fun m => (Ok tt, mkMachine (self m) (world m) (trace m ++ [e])).

(* a platform call: answered by the platform, recorded with its answer *)
Definition call {W R} (e : R -> Event) (f : W -> R * W) : M W R :=
  fun m =>
    let (r, w') := f (world m) in
    (Ok r, mkMachine (self m) w' (trace m ++ [e r])).

(** Modelled from the spec: the logging macros (Errors.hpp, DebugOutput.h)
    are not part of the sources.  Operations emit leveled log lines to an
    external sink; a fatal condition logs an error and raises a runtime
    error carrying the message. *)
Definition LOG_INFO_MESSAGE {W} (parts : list LogPart) : M W unit := emit (Ev_Log Info parts).
Definition LOG_WARNING_MESSAGE {W} (parts : list LogPart) : M W unit := emit (Ev_Log Warning parts).
Definition LOG_ERROR_MESSAGE {W} (parts : list LogPart) : M W unit := emit (Ev_Log Error parts).
Definition LOG_ERROR_AND_THROW {W A} (what : string) : M W A :=
  emit (Ev_Log Error [Str what]) ;; throw what.

(** ** The member functions of [GLContext] *)

Section Program.

Context {W : Type} (P : Platform W).

Definition eglGetDisplay (id : Z) : M W EGLDisplay :=
  call (Ev_eglGetDisplay id) (on_eglGetDisplay P id).
Definition eglInitialize (d : EGLDisplay) : M W bool :=
  call (Ev_eglInitialize d) (on_eglInitialize P d).
Definition eglChooseConfig (d : EGLDisplay) (attribs : list EGLint) (config_size : Z)
    : M W (option (list EGLConfig)) :=
  call (Ev_eglChooseConfig d attribs config_size) (on_eglChooseConfig P d attribs).
Definition eglCreateWindowSurface (d : EGLDisplay) (c : EGLConfig) (w : ANativeWindow)
    : M W EGLSurface :=
  call (Ev_eglCreateWindowSurface d c w) (on_eglCreateWindowSurface P d c w).
Definition eglQuerySurface (d : EGLDisplay) (s : EGLSurface) (attr : EGLint)
    : M W (option EGLint) :=
  call (Ev_eglQuerySurface d s attr) (on_eglQuerySurface P d s attr).
Definition eglGetConfigAttrib (d : EGLDisplay) (c : EGLConfig) (attr : EGLint)
    : M W (option EGLint) :=
  call (Ev_eglGetConfigAttrib d c attr) (on_eglGetConfigAttrib P d c attr).
Definition ANativeWindow_setBuffersGeometry (w : ANativeWindow) (width height : Z)
    (format : option EGLint) : M W Z :=
  call (Ev_ANativeWindow_setBuffersGeometry w width height format)
       (on_ANativeWindow_setBuffersGeometry P w width height format).
Definition eglCreateContext (d : EGLDisplay) (c : EGLConfig) (share : EGLContext)
    (attribs : list EGLint) : M W EGLContext :=
  call (Ev_eglCreateContext d c share attribs) (on_eglCreateContext P d c share attribs).
Definition eglMakeCurrent (d : EGLDisplay) (draw read : EGLSurface) (c : EGLContext)
    : M W bool :=
  call (Ev_eglMakeCurrent d draw read c) (on_eglMakeCurrent P d draw read c).
Definition eglGetCurrentContext : M W EGLContext :=
  call Ev_eglGetCurrentContext (on_eglGetCurrentContext P).
Definition eglSwapInterval (d : EGLDisplay) (i : EGLint) : M W bool :=
  call (Ev_eglSwapInterval d i) (on_eglSwapInterval P d i).
Definition eglSwapBuffers (d : EGLDisplay) (s : EGLSurface) : M W bool :=
  call (Ev_eglSwapBuffers d s) (on_eglSwapBuffers P d s).
Definition eglGetError : M W EGLint :=
  call Ev_eglGetError (on_eglGetError P).
Definition eglDestroyContext (d : EGLDisplay) (c : EGLContext) : M W bool :=
  call (Ev_eglDestroyContext d c) (on_eglDestroyContext P d c).
Definition eglDestroySurface (d : EGLDisplay) (s : EGLSurface) : M W bool :=
  call (Ev_eglDestroySurface d s) (on_eglDestroySurface P d s).
Definition eglTerminate (d : EGLDisplay) : M W bool :=
  call (Ev_eglTerminate d) (on_eglTerminate P d).
Definition glGetString (name : Z) : M W string :=
  call (Ev_glGetString name) (on_glGetString P name).
Definition glGetIntegerv (pname : Z) : M W (option Z) :=
  call (Ev_glGetIntegerv pname) (on_glGetIntegerv P pname).
Definition LoadGLFunctions : M W unit :=
  call Ev_LoadGLFunctions (on_LoadGLFunctions P).
Definition glEnable (cap : Z) : M W unit :=
  call (Ev_glEnable cap) (on_glEnable P cap).
Definition glGetError : M W Z :=
  call Ev_glGetError (on_glGetError P).
Definition glDebugMessageCallback : M W unit :=
  call Ev_glDebugMessageCallback (on_glDebugMessageCallback P).
(* the test [if (glDebugMessageCallback)] of the function pointer *)
Definition glDebugMessageCallback_loaded : M W bool :=
  fun m => (Ok (has_glDebugMessageCallback P (world m)), m).

(* The attribute array both calls of eglChooseConfig in InitEGLSurface build. *)
Definition config_attribs (color_size depth_size : Z) : list EGLint :=
  [ EGL_RENDERABLE_TYPE; EGL_OPENGL_ES2_BIT;
    EGL_SURFACE_TYPE; EGL_WINDOW_BIT;
    EGL_BLUE_SIZE; color_size;
    EGL_GREEN_SIZE; color_size;
    EGL_RED_SIZE; color_size;
    EGL_ALPHA_SIZE; color_size;
    EGL_DEPTH_SIZE; depth_size;
    EGL_NONE ].

(* eglChooseConfig(display_, attribs, &config_, 1, &num_configs): on success
   config_ receives the first match, if any, and num_configs their number,
   at most config_size = 1.  [None] is EGL_FALSE. *)
Definition choose_into_config_ (depth_size : Z) : M W (option Z) :=
  d <- rd display_ ;;
  cs <- rd color_size_ ;;
  r <- eglChooseConfig d (config_attribs cs depth_size) 1 ;;
  match r with
  | None => ret None
  | Some matching =>
      wr (store set_config_ (hd_error matching)) ;;
      ret (Some (Z.of_nat (List.length (firstn 1 matching))))
  end.

Definition InitEGLSurface : M W bool :=
  d <- eglGetDisplay EGL_DEFAULT_DISPLAY ;;
  wr (set_display_ d) ;;
  if d =? EGL_NO_DISPLAY then LOG_ERROR_AND_THROW "No EGL display found" else
  d <- rd display_ ;;
  success <- eglInitialize d ;;
  if negb success then LOG_ERROR_AND_THROW "Failed to initialise EGL" else
  wr (set_color_size_ 8) ;;
  wr (set_depth_size_ 24) ;;
  r <- choose_into_config_ 24 ;;
  match r with
  | None => LOG_ERROR_AND_THROW "Failed to choose config"
  | Some num_configs =>
  r <- (if num_configs =? 0 then
          (* Fall back to 16bit depth buffer *)
          wr (set_depth_size_ 16) ;;
          r <- choose_into_config_ 16 ;;
          match r with
          | None => LOG_ERROR_AND_THROW "Failed to choose 16-bit depth config"
          | Some n => ret n
          end
        else ret num_configs) ;;
  let num_configs := r in
  if num_configs =? 0 then LOG_ERROR_AND_THROW "Unable to retrieve EGL config" else
  g <- rd id ;;
  LOG_INFO_MESSAGE [Str "Chosen EGL config: "; Int (color_size_ g); Str " bit color, ";
                    Int (depth_size_ g); Str " bit depth"] ;;
  s <- eglCreateWindowSurface (display_ g) (config_ g) (window_ g) ;;
  wr (set_surface_ s) ;;
  if s =? EGL_NO_SURFACE then LOG_ERROR_AND_THROW "Failed to create EGLSurface" else
  g <- rd id ;;
  w <- eglQuerySurface (display_ g) (surface_ g) EGL_WIDTH ;;
  wr (store set_screen_width_ w) ;;
  h <- eglQuerySurface (display_ g) (surface_ g) EGL_HEIGHT ;;
  wr (store set_screen_height_ h) ;;
  (* EGLint format; stays indeterminate when the query fails *)
  format <- eglGetConfigAttrib (display_ g) (config_ g) EGL_NATIVE_VISUAL_ID ;;
  ANativeWindow_setBuffersGeometry (window_ g) 0 0 format ;;
  lo <- eglGetConfigAttrib (display_ g) (config_ g) EGL_MIN_SWAP_INTERVAL ;;
  wr (store set_min_swap_interval_ lo) ;;
  hi <- eglGetConfigAttrib (display_ g) (config_ g) EGL_MAX_SWAP_INTERVAL ;;
  wr (store set_max_swap_interval_ hi) ;;
  ret true
  end.

Definition es_versions : list (Z * Z) := [(3, 2); (3, 1); (3, 0)].

(* for (i = 0; i < _countof(es_versions) && context_ == EGL_NO_CONTEXT; ++i) *)
Fixpoint InitEGLContext_loop (versions : list (Z * Z)) : M W unit :=
  match versions with
  | [] => ret tt
  | version :: rest =>
      c <- rd context_ ;;
      if c =? EGL_NO_CONTEXT then
        wr (set_major_version_ (fst version)) ;;
        wr (set_minor_version_ (snd version)) ;;
        g <- rd id ;;
        c <- eglCreateContext (display_ g) (config_ g) NULL
               [ EGL_CONTEXT_CLIENT_VERSION; major_version_ g;
                 EGL_CONTEXT_MINOR_VERSION_KHR; minor_version_ g;
                 EGL_NONE ] ;;
        wr (set_context_ c) ;;
        InitEGLContext_loop rest
      else ret tt
  end.

Definition InitEGLContext : M W bool :=
  InitEGLContext_loop es_versions ;;
  c <- rd context_ ;;
  if c =? EGL_NO_CONTEXT then LOG_ERROR_AND_THROW "Failed to create EGLContext" else
  g <- rd id ;;
  ok <- eglMakeCurrent (display_ g) (surface_ g) (surface_ g) (context_ g) ;;
  if negb ok then LOG_ERROR_AND_THROW "Unable to eglMakeCurrent" else
  g <- rd id ;;
  LOG_INFO_MESSAGE [Str "Created OpenGLES Context "; Int (major_version_ g); Str ".";
                    Int (minor_version_ g)] ;;
  wr (set_context_valid_ true) ;;
  ret true.

Definition AttachToCurrentEGLContext : M W unit :=
  c <- eglGetCurrentContext ;;
  if c =? EGL_NO_CONTEXT
  then LOG_ERROR_AND_THROW "Failed to attach to EGLContext: no active context" else
  wr (set_context_valid_ true) ;;
  major <- glGetIntegerv GL_MAJOR_VERSION ;;
  wr (store set_major_version_ major) ;;
  minor <- glGetIntegerv GL_MINOR_VERSION ;;
  wr (store set_minor_version_ minor).

Definition GetCurrentNativeGLContext : M W EGLContext := eglGetCurrentContext.

Definition InitGLES : M W unit :=
  done <- rd gles_initialized_ ;;
  if done then ret tt else
  versionStr <- glGetString GL_VERSION ;;
  LOG_INFO_MESSAGE [Str "GL Version: "; Str versionStr; Str LF] ;;
  LoadGLFunctions ;;
  glEnable GL_FRAMEBUFFER_SRGB ;;
  e <- glGetError ;;
  (if negb (e =? GL_NO_ERROR)
   then LOG_ERROR_MESSAGE [Str "Failed to enable SRGB framebuffers"]
   else ret tt) ;;
  wr (set_gles_initialized_ true).

Definition Init (window : ANativeWindow) : M W bool :=
  done <- rd egl_context_initialized_ ;;
  if done then ret true else
  wr (set_window_ window) ;;
  (if negb (window =? nullptr)
   then InitEGLSurface ;; InitEGLContext ;; ret tt
   else AttachToCurrentEGLContext) ;;
  InitGLES ;;
  loaded <- glDebugMessageCallback_loaded ;;
  (if loaded then
     glEnable GL_DEBUG_OUTPUT_SYNCHRONOUS ;;
     glDebugMessageCallback ;;
     e <- glGetError ;;
     if negb (e =? GL_NO_ERROR)
     then LOG_ERROR_MESSAGE [Str "Failed to enable debug messages"]
     else ret tt
   else ret tt) ;;
  wr (set_egl_context_initialized_ true) ;;
  ret true.

Definition FillDeviceCaps : M W (RENDER_DEVICE_TYPE * Z * Z) :=
  g <- rd id ;;
  ret (RENDER_DEVICE_TYPE_GLES, major_version_ g, minor_version_ g).

Definition Terminate : M W unit :=
  d <- rd display_ ;;
  (if negb (d =? EGL_NO_DISPLAY) then
     eglMakeCurrent d EGL_NO_SURFACE EGL_NO_SURFACE EGL_NO_CONTEXT ;;
     g <- rd id ;;
     (if negb (context_ g =? EGL_NO_CONTEXT)
      then eglDestroyContext (display_ g) (context_ g) ;; ret tt
      else ret tt) ;;
     g <- rd id ;;
     (if negb (surface_ g =? EGL_NO_SURFACE)
      then eglDestroySurface (display_ g) (surface_ g) ;; ret tt
      else ret tt) ;;
     d <- rd display_ ;;
     eglTerminate d ;;
     ret tt
   else ret tt) ;;
  wr (set_display_ EGL_NO_DISPLAY) ;;
  wr (set_context_ EGL_NO_CONTEXT) ;;
  wr (set_surface_ EGL_NO_SURFACE) ;;
  wr (set_context_valid_ false).

Definition SwapBuffers (SwapInterval : Z) : M W unit :=
  s <- rd surface_ ;;
  if s =? EGL_NO_SURFACE then
    LOG_WARNING_MESSAGE
      [Str "No EGL surface when swapping buffers. This happens when SwapBuffers() is called after Suspend(). The operation will be ignored."]
  else
  lo <- rd min_swap_interval_ ;;
  let SwapInterval := Z.max SwapInterval lo in
  hi <- rd max_swap_interval_ ;;
  let SwapInterval := Z.min SwapInterval hi in
  d <- rd display_ ;;
  eglSwapInterval d SwapInterval ;;
  g <- rd id ;;
  b <- eglSwapBuffers (display_ g) (surface_ g) ;;
  if negb b then
    err <- eglGetError ;;
    if err =? EGL_BAD_SURFACE then
      LOG_INFO_MESSAGE [Str "EGL surface has been lost. Attempting to recreate"] ;;
      try_catch (InitEGLSurface ;; ret tt)
                (fun _ => LOG_ERROR_MESSAGE [Str "Failed to recreate EGL surface"])
    else if (err =? EGL_CONTEXT_LOST) || (err =? EGL_BAD_CONTEXT) then
      (* Context has been lost!! *)
      wr (set_context_valid_ false) ;;
      Terminate ;;
      InitEGLContext ;;
      ret tt
    else ret tt
  else ret tt.

Definition UpdateScreenSize : M W unit :=
  let new_screen_width := 0 in
  let new_screen_height := 0 in
  g <- rd id ;;
  w <- eglQuerySurface (display_ g) (surface_ g) EGL_WIDTH ;;
  let new_screen_width := match w with Some v => v | None => new_screen_width end in
  h <- eglQuerySurface (display_ g) (surface_ g) EGL_HEIGHT ;;
  let new_screen_height := match h with Some v => v | None => new_screen_height end in
  g <- rd id ;;
  if negb (new_screen_width =? screen_width_ g) || negb (new_screen_height =? screen_height_ g)
  then
    wr (set_screen_width_ new_screen_width) ;;
    wr (set_screen_height_ new_screen_height) ;;
    g <- rd id ;;
    LOG_INFO_MESSAGE [Str "Window size changed to "; Int (screen_width_ g); Str "x";
                      Int (screen_height_ g)]
  else ret tt.

Definition Resume (window : ANativeWindow) : M W EGLint :=
  LOG_INFO_MESSAGE [Str ("Resuming gl context" ++ LF)%string] ;;
  done <- rd egl_context_initialized_ ;;
  if negb done then
    Init window ;;
    ret EGL_SUCCESS
  else
  (* Create surface *)
  wr (set_window_ window) ;;
  g <- rd id ;;
  s <- eglCreateWindowSurface (display_ g) (config_ g) (window_ g) ;;
  wr (set_surface_ s) ;;
  UpdateScreenSize ;;
  g <- rd id ;;
  ok <- eglMakeCurrent (display_ g) (surface_ g) (surface_ g) (context_ g) ;;
  if ok then ret EGL_SUCCESS else
  err <- eglGetError ;;
  LOG_WARNING_MESSAGE [Str "Unable to eglMakeCurrent "; Int err; Str LF] ;;
  (if err =? EGL_CONTEXT_LOST then
     (* Recreate context *)
     LOG_INFO_MESSAGE [Str ("Re-creating egl context" ++ LF)%string] ;;
     InitEGLContext ;;
     ret tt
   else
     (* Recreate surface *)
     LOG_INFO_MESSAGE [Str ("Re-creating egl context and surface" ++ LF)%string] ;;
     Terminate ;;
     InitEGLSurface ;;
     InitEGLContext ;;
     ret tt) ;;
  ret err.

Definition Suspend : M W unit :=
  LOG_INFO_MESSAGE [Str ("Suspending gl context" ++ LF)%string] ;;
  s <- rd surface_ ;;
  if negb (s =? EGL_NO_SURFACE) then
    LOG_INFO_MESSAGE [Str ("Destroying egl surface" ++ LF)%string] ;;
    g <- rd id ;;
    eglDestroySurface (display_ g) (surface_ g) ;;
    wr (set_surface_ EGL_NO_SURFACE)
  else ret tt.

Definition Invalidate : M W bool :=
  LOG_INFO_MESSAGE [Str ("Invalidating gl context" ++ LF)%string] ;;
  Terminate ;;
  wr (set_egl_context_initialized_ false) ;;
  ret true.

(* The member initialisers of the constructor; the members it does not
   list keep whatever the storage held. *)
Definition constructed (storage : GLContext) : GLContext :=
  set_minor_version_ 0
    (set_major_version_ 0
      (set_gles_initialized_ false
        (set_egl_context_initialized_ false
          (set_context_ EGL_NO_CONTEXT
            (set_surface_ EGL_NO_SURFACE
              (set_display_ EGL_NO_DISPLAY storage)))))).

(* GLContext::GLContext: Init(NativeWindow); FillDeviceCaps(deviceCaps) *)
Definition GLContext_ctor (NativeWindow : ANativeWindow) : M W (RENDER_DEVICE_TYPE * Z * Z) :=
  wr constructed ;;
  Init NativeWindow ;;
  FillDeviceCaps.

(* GLContext::~GLContext *)
Definition GLContext_dtor : M W unit := Terminate.

End Program.

Arguments InitEGLContext_loop {W} P versions.

(* The value an attribute array, a list of key/value pairs closed by
   EGL_NONE, gives to a key. *)
Fixpoint attrib_value (key : EGLint) (attribs : list EGLint) : option EGLint :=
  match attribs with
  | k :: v :: rest => if k =? key then Some v else attrib_value key rest
  | _ => None
  end.

(** ** An executable platform

    A small EGL implementation for concrete runs.  The device ([Device]) is
    fixed: whether a display server exists, the ES versions for which
    context creation succeeds, the surface geometry.  The driver state
    ([Driver]) moves: it hands out fresh handles, tracks what is current,
    holds the configurations on offer with their depth-buffer bits, and can
    be scripted with the error codes of coming eglSwapBuffers and
    eglMakeCurrent calls ([EGL_SUCCESS] meaning no fault).  As EGL
    requires, every entry point given a display other than the one
    eglGetDisplay returned fails with [EGL_BAD_DISPLAY]. *)

Module Sim.

Record Device := mkDevice {
  has_display : bool;
  accepts : list (Z * Z);                  (* ES versions the driver can create *)
  width : Z;
  height : Z;
  visual_id : Z;
  min_swap : Z;
  max_swap : Z;
  gl_version : option (Z * Z);             (* None: GL_MAJOR_VERSION is not a valid query *)
  debug_ext : bool
}.

Record Driver := mkDriver {
  initialized : bool;
  next : Z;                                (* next fresh handle *)
  current : EGLContext;
  draw : EGLSurface;
  offered : list (EGLConfig * Z);          (* handle, depth-buffer bits *)
  swap_faults : list EGLint;
  make_current_faults : list EGLint;
  error : EGLint
}.

Definition the_display : EGLDisplay := 1.

Definition fail {A} (a : A) (e : EGLint) (w : Driver) : A * Driver :=
  (a, mkDriver (initialized w) (next w) (current w) (draw w) (offered w)
        (swap_faults w) (make_current_faults w) e).

Definition succeed {A} (a : A) (w : Driver) : A * Driver := fail a EGL_SUCCESS w.

Definition usable (d : EGLDisplay) (w : Driver) : bool :=
  (d =? the_display) && initialized w.

Definition fresh (w : Driver) : Z * Driver :=
  (next w, mkDriver (initialized w) (next w + 1) (current w) (draw w) (offered w)
             (swap_faults w) (make_current_faults w) EGL_SUCCESS).

Definition getDisplay (dev : Device) (id : Z) (w : Driver) : EGLDisplay * Driver :=
  if has_display dev then succeed the_display w else succeed EGL_NO_DISPLAY w.

Definition initialize (d : EGLDisplay) (w : Driver) : bool * Driver :=
  if d =? the_display
  then (true, mkDriver true (next w) (current w) (draw w) (offered w)
                (swap_faults w) (make_current_faults w) EGL_SUCCESS)
  else fail false EGL_BAD_DISPLAY w.

Definition chooseConfig (d : EGLDisplay) (attribs : list EGLint) (w : Driver)
    : option (list EGLConfig) * Driver :=
  if usable d w then
    let depth := match attrib_value EGL_DEPTH_SIZE attribs with Some v => v | None => 0 end in
    succeed (Some (map fst (filter (fun c => depth <=? snd c) (offered w)))) w
  else fail None EGL_BAD_DISPLAY w.

Definition createWindowSurface (d : EGLDisplay) (c : EGLConfig) (win : ANativeWindow)
    (w : Driver) : EGLSurface * Driver :=
  if usable d w then
    if win =? nullptr then fail EGL_NO_SURFACE EGL_BAD_NATIVE_WINDOW w
    else fresh w
  else fail EGL_NO_SURFACE EGL_BAD_DISPLAY w.

Definition querySurface (dev : Device) (d : EGLDisplay) (s : EGLSurface) (attr : EGLint)
    (w : Driver) : option EGLint * Driver :=
  if usable d w then
    if s =? EGL_NO_SURFACE then fail None EGL_BAD_SURFACE w
    else if attr =? EGL_WIDTH then succeed (Some (width dev)) w
    else if attr =? EGL_HEIGHT then succeed (Some (height dev)) w
    else fail None EGL_BAD_MATCH w
  else fail None EGL_BAD_DISPLAY w.

Definition getConfigAttrib (dev : Device) (d : EGLDisplay) (c : EGLConfig) (attr : EGLint)
    (w : Driver) : option EGLint * Driver :=
  if usable d w then
    if attr =? EGL_NATIVE_VISUAL_ID then succeed (Some (visual_id dev)) w
    else if attr =? EGL_MIN_SWAP_INTERVAL then succeed (Some (min_swap dev)) w
    else if attr =? EGL_MAX_SWAP_INTERVAL then succeed (Some (max_swap dev)) w
    else fail None EGL_BAD_MATCH w
  else fail None EGL_BAD_DISPLAY w.

Definition createContext (dev : Device) (d : EGLDisplay) (c : EGLConfig) (share : EGLContext)
    (attribs : list EGLint) (w : Driver) : EGLContext * Driver :=
  if usable d w then
    match attrib_value EGL_CONTEXT_CLIENT_VERSION attribs,
          attrib_value EGL_CONTEXT_MINOR_VERSION_KHR attribs with
    | Some major, Some minor =>
        if existsb (fun v => (fst v =? major) && (snd v =? minor)) (accepts dev)
        then fresh w
        else fail EGL_NO_CONTEXT EGL_BAD_MATCH w
    | _, _ => fail EGL_NO_CONTEXT EGL_BAD_MATCH w
    end
  else fail EGL_NO_CONTEXT EGL_BAD_DISPLAY w.

Definition makeCurrent (d : EGLDisplay) (dr rdsurf : EGLSurface) (c : EGLContext) (w : Driver)
    : bool * Driver :=
  let fault := hd EGL_SUCCESS (make_current_faults w) in
  let w := mkDriver (initialized w) (next w) (current w) (draw w) (offered w)
             (swap_faults w) (tl (make_current_faults w)) (error w) in
  if negb (fault =? EGL_SUCCESS) then fail false fault w
  else if negb (usable d w) then fail false EGL_BAD_DISPLAY w
  else if (c =? EGL_NO_CONTEXT) && negb (dr =? EGL_NO_SURFACE) then fail false EGL_BAD_MATCH w
  else if negb (c =? EGL_NO_CONTEXT) && (dr =? EGL_NO_SURFACE) then fail false EGL_BAD_SURFACE w
  else (true, mkDriver (initialized w) (next w) c dr (offered w)
                (swap_faults w) (make_current_faults w) EGL_SUCCESS).

Definition swapBuffers (d : EGLDisplay) (s : EGLSurface) (w : Driver) : bool * Driver :=
  let fault := hd EGL_SUCCESS (swap_faults w) in
  let w := mkDriver (initialized w) (next w) (current w) (draw w) (offered w)
             (tl (swap_faults w)) (make_current_faults w) (error w) in
  if negb (fault =? EGL_SUCCESS) then fail false fault w
  else if negb (usable d w) then fail false EGL_BAD_DISPLAY w
  else if (s =? EGL_NO_SURFACE) || negb (s =? draw w) then fail false EGL_BAD_SURFACE w
  else succeed true w.

Definition on_display {A} (d : EGLDisplay) (ok bad : A) (w : Driver) : A * Driver :=
  if usable d w then succeed ok w else fail bad EGL_BAD_DISPLAY w.

Definition terminate (d : EGLDisplay) (w : Driver) : bool * Driver :=
  if d =? the_display
  then (true, mkDriver false (next w) EGL_NO_CONTEXT EGL_NO_SURFACE (offered w)
                (swap_faults w) (make_current_faults w) EGL_SUCCESS)
  else fail false EGL_BAD_DISPLAY w.

Definition getError (w : Driver) : EGLint * Driver := fail (error w) EGL_SUCCESS w.

Definition getIntegerv (dev : Device) (pname : Z) (w : Driver) : option Z * Driver :=
  match gl_version dev with
  | Some (major, minor) =>
      if pname =? GL_MAJOR_VERSION then (Some major, w)
      else if pname =? GL_MINOR_VERSION then (Some minor, w)
      else (None, w)
  | None => (None, w)
  end.

Definition platform (dev : Device) : Platform Driver := {|
  on_eglGetDisplay := getDisplay dev;
  on_eglInitialize := initialize;
  on_eglChooseConfig := chooseConfig;
  on_eglCreateWindowSurface := createWindowSurface;
  on_eglQuerySurface := querySurface dev;
  on_eglGetConfigAttrib := getConfigAttrib dev;
  on_ANativeWindow_setBuffersGeometry := fun _ _ _ _ w => (0, w);
  on_eglCreateContext := createContext dev;
  on_eglMakeCurrent := makeCurrent;
  on_eglGetCurrentContext := fun w => (current w, w);
  on_eglSwapInterval := fun d _ => on_display d true false;
  on_eglSwapBuffers := swapBuffers;
  on_eglGetError := getError;
  on_eglDestroyContext := fun d _ => on_display d true false;
  on_eglDestroySurface := fun d _ => on_display d true false;
  on_eglTerminate := terminate;
  on_glGetString := fun _ w => ("OpenGL ES", w);
  on_glGetIntegerv := getIntegerv dev;
  on_LoadGLFunctions := fun w => (tt, w);
  on_glEnable := fun _ w => (tt, w);
  on_glGetError := fun w => (GL_NO_ERROR, w);
  on_glDebugMessageCallback := fun w => (tt, w);
  has_glDebugMessageCallback := fun _ => debug_ext dev
|}.

(* A phone with ES 3.2 and a 1080x1920 window. *)
Definition phone : Device :=
  mkDevice true [(3, 2); (3, 1); (3, 0); (2, 0)] 1080 1920 1 0 4 (Some (3, 2)) true.

(* The same phone with a driver that stops at ES 3.0. *)
Definition es30_phone : Device :=
  mkDevice true [(3, 0); (2, 0)] 1080 1920 1 0 4 (Some (3, 0)) true.

(* An ES 2.0 device: none of the candidate versions can be created. *)
Definition es20_device : Device :=
  mkDevice true [(2, 0)] 480 800 1 1 1 None false.

(* The driver before any EGL call: nothing current, a 24-bit and a 16-bit
   depth configuration on offer. *)
Definition boot : Driver :=
  mkDriver false 2 EGL_NO_CONTEXT EGL_NO_SURFACE [(11, 24); (12, 16)] [] [] EGL_SUCCESS.

(* The same driver with a context of the host's own already current. *)
Definition boot_with_host_context (c : EGLContext) : Driver :=
  mkDriver false 2 c EGL_NO_SURFACE [(11, 24); (12, 16)] [] [] EGL_SUCCESS.

(* Things that happen to the driver between two calls of the host. *)
Definition next_swap_fails (e : EGLint) (w : Driver) : Driver :=
  mkDriver (initialized w) (next w) (current w) (draw w) (offered w)
    [e] (make_current_faults w) (error w).

Definition next_make_current_fails (e : EGLint) (w : Driver) : Driver :=
  mkDriver (initialized w) (next w) (current w) (draw w) (offered w)
    (swap_faults w) [e] (error w).

Definition now_offers (cs : list (EGLConfig * Z)) (w : Driver) : Driver :=
  mkDriver (initialized w) (next w) (current w) (draw w) cs
    (swap_faults w) (make_current_faults w) (error w).

(* Object storage before the constructor runs. *)
Definition storage : GLContext :=
  mkGLContext 0 0 0 0 0 0 0 0 0 0 0 0 0 false false false.

Definition start (w : Driver) : Machine Driver := mkMachine storage w [].

Definition the_window : ANativeWindow := 4096.

End Sim.

(* Running a sequence of host calls, stopping at nothing: the host catches
   a raised error and goes on with the object as it is. *)
Definition after {W A} (c : M W A) (m : Machine W) : Machine W := snd (c m).
Definition result {W A} (c : M W A) (m : Machine W) : outcome A := fst (c m).

(* The platform changes by itself between two calls: [f] is what happened
   to it; the trace is cut so that the next run's events stand alone. *)
Definition meanwhile {W} (f : W -> W) (m : Machine W) : Machine W :=
  mkMachine (self m) (f (world m)) [].

(** ** Frames: what a run leaves alone

    A frame is a reflexive and transitive relation between the machine
    before and the machine after.  Two families are used: [keeps f], a
    member (or any function of the object) is unchanged, and [only Q], the
    trace grew by events that all satisfy [Q]. *)

(* the events a run adds to the trace *)
Definition events {W A} (c : M W A) (m : Machine W) : list Event :=
  skipn (List.length (trace m)) (trace (after c m)).

Class Frame {W} (R : Machine W -> Machine W -> Prop) : Prop := {
  frame_refl : forall m, R m m;
  frame_trans : forall a b c, R a b -> R b c -> R a c
}.

Definition post {W A} (R : Machine W -> Machine W -> Prop) (c : M W A) : Prop :=
  forall m, R m (after c m).

Definition keeps {W B} (f : GLContext -> B) : Machine W -> Machine W -> Prop :=
  fun m m' => f (self m') = f (self m).

Definition only {W} (Q : Event -> Prop) : Machine W -> Machine W -> Prop :=
  fun m m' => exists evs, trace m' = trace m ++ evs /\ Forall Q evs.

(** ** Event vocabularies of the building blocks *)

(* what InitEGLSurface may say to the platform and the log *)
Definition surface_setup_event (e : Event) : Prop :=
  match e with
  | Ev_eglGetDisplay _ _ | Ev_eglInitialize _ _ | Ev_eglChooseConfig _ _ _ _
  | Ev_eglCreateWindowSurface _ _ _ _ | Ev_eglQuerySurface _ _ _ _
  | Ev_eglGetConfigAttrib _ _ _ _ | Ev_ANativeWindow_setBuffersGeometry _ _ _ _ _
  | Ev_Log _ _ => True
  | _ => False
  end.

(* what InitEGLContext may say *)
Definition context_setup_event (e : Event) : Prop :=
  match e with
  | Ev_eglCreateContext _ _ _ _ _ | Ev_eglMakeCurrent _ _ _ _ _ | Ev_Log _ _ => True
  | _ => False
  end.

(* what Terminate may say *)
Definition teardown_event (e : Event) : Prop :=
  match e with
  | Ev_eglMakeCurrent _ _ _ _ _ | Ev_eglDestroyContext _ _ _
  | Ev_eglDestroySurface _ _ _ | Ev_eglTerminate _ _ => True
  | _ => False
  end.

(* what UpdateScreenSize may say *)
Definition screen_size_event (e : Event) : Prop :=
  match e with
  | Ev_eglQuerySurface _ _ _ _ | Ev_Log _ _ => True
  | _ => False
  end.

Definition is_eglSwapInterval (e : Event) : bool :=
  match e with Ev_eglSwapInterval _ _ _ => true | _ => false end.

Definition is_eglChooseConfig (e : Event) : bool :=
  match e with Ev_eglChooseConfig _ _ _ _ => true | _ => false end.

Definition is_eglMakeCurrent (e : Event) : bool :=
  match e with Ev_eglMakeCurrent _ _ _ _ _ => true | _ => false end.

Definition any_event (e : Event) : Prop := True.

(** ** Vocabulary of the specification *)

(* clamp(r, min, max) of a request into a range [min, max] *)
Definition clamp (r lo hi : Z) : Z :=
  if r <? lo then lo else if hi <? r then hi else r.

(* the machine after one more event and nothing else *)
Definition logged {W} (e : Event) (m : Machine W) : Machine W :=
  mkMachine (self m) (world m) (trace m ++ [e]).

Definition no_surface_warning : Event :=
  Ev_Log Warning
    [Str "No EGL surface when swapping buffers. This happens when SwapBuffers() is called after Suspend(). The operation will be ignored."].

(* all three handles at their sentinels, context marked invalid *)
Definition torn_down (g : GLContext) : Prop :=
  display_ g = EGL_NO_DISPLAY /\ context_ g = EGL_NO_CONTEXT /\
  surface_ g = EGL_NO_SURFACE /\ context_valid_ g = false.

(* the resources a run gives back to the platform, in the order it does *)
Inductive Resource :=
| the_context (c : EGLContext)
| the_surface (s : EGLSurface)
| the_display_connection (d : EGLDisplay).

Definition released (e : Event) : list Resource :=
  match e with
  | Ev_eglDestroyContext _ c _ => [the_context c]
  | Ev_eglDestroySurface _ s _ => [the_surface s]
  | Ev_eglTerminate d _ => [the_display_connection d]
  | _ => []
  end.

Definition release_order (evs : list Event) : list Resource := flat_map released evs.

(* the value a query leaves in a local initialised with 0 *)
Definition answered (r : option EGLint) : Z :=
  match r with Some v => v | None => 0 end.

Definition resize_diagnostic (w h : Z) : Event :=
  Ev_Log Info [Str "Window size changed to "; Int w; Str "x"; Int h].

Definition size_differs (w h : Z) (g : GLContext) : bool :=
  negb ((w =? screen_width_ g) && (h =? screen_height_ g)).

(* the attribute array InitEGLContext passes for a version *)
Definition context_attribs (version : Z * Z) : list EGLint :=
  [ EGL_CONTEXT_CLIENT_VERSION; fst version;
    EGL_CONTEXT_MINOR_VERSION_KHR; snd version;
    EGL_NONE ].

(* the creation attempts of a run: the version asked for and the handle
   the platform answered, in the order of the calls *)
Definition attempt (e : Event) : list ((Z * Z) * EGLContext) :=
  match e with
  | Ev_eglCreateContext _ _ _ attribs ret =>
      match attrib_value EGL_CONTEXT_CLIENT_VERSION attribs,
            attrib_value EGL_CONTEXT_MINOR_VERSION_KHR attribs with
      | Some major, Some minor => [((major, minor), ret)]
      | _, _ => []
      end
  | _ => []
  end.

Definition attempts (evs : list Event) : list ((Z * Z) * EGLContext) :=
  flat_map attempt evs.

(* version a is newer than version b *)
Definition newer (a b : Z * Z) : Prop :=
  fst b < fst a \/ (fst a = fst b /\ snd b < snd a).

(* a platform that, as EGL requires, creates no context on EGL_NO_DISPLAY *)
Definition rejects_without_display {W} (P : Platform W) : Prop :=
  forall c share attribs w,
    fst (on_eglCreateContext P EGL_NO_DISPLAY c share attribs w) = EGL_NO_CONTEXT.

(* a platform that, as EGL requires, makes nothing current on EGL_NO_DISPLAY *)
Definition no_make_current_without_display {W} (P : Platform W) : Prop :=
  forall draw read ctx w,
    fst (on_eglMakeCurrent P EGL_NO_DISPLAY draw read ctx w) = false.

(* a platform that never creates a context of this version *)
Definition rejects {W} (P : Platform W) (version : Z * Z) : Prop :=
  forall d c share w,
    fst (on_eglCreateContext P d c share (context_attribs version) w) = EGL_NO_CONTEXT.

(* The branch [if (!b) { EGLint err = eglGetError(); ... }] of SwapBuffers
   from the error code on, as written there; [SwapBuffers_swap_failed]
   proves that this is what SwapBuffers runs. *)
Definition SwapBuffers_on_error {W} (P : Platform W) (err : EGLint) : M W unit :=
  (if err =? EGL_BAD_SURFACE then
     LOG_INFO_MESSAGE [Str "EGL surface has been lost. Attempting to recreate"] ;;
     try_catch (InitEGLSurface P ;; ret tt)
               (fun _ => LOG_ERROR_MESSAGE [Str "Failed to recreate EGL surface"])
   else if (err =? EGL_CONTEXT_LOST) || (err =? EGL_BAD_CONTEXT) then
     wr (set_context_valid_ false) ;;
     Terminate P ;;
     InitEGLContext P ;;
     ret tt
   else ret tt)%cpp.

Definition recreate_failed : Event :=
  Ev_Log Error [Str "Failed to recreate EGL surface"].

(* The part of Resume after a failed eglMakeCurrent, from the warning on,
   as written there; [Resume_unfold] proves that this is what Resume runs. *)
Definition Resume_on_error {W} (P : Platform W) (err : EGLint) : M W EGLint :=
  ((if err =? EGL_CONTEXT_LOST then
      LOG_INFO_MESSAGE [Str ("Re-creating egl context" ++ LF)%string] ;;
      InitEGLContext P ;;
      ret tt
    else
      LOG_INFO_MESSAGE [Str ("Re-creating egl context and surface" ++ LF)%string] ;;
      Terminate P ;;
      InitEGLSurface P ;;
      InitEGLContext P ;;
      ret tt) ;;
   ret err)%cpp.

Definition resuming : Event := Ev_Log Info [Str ("Resuming gl context" ++ LF)%string].

Definition make_current_warning (err : EGLint) : Event :=
  Ev_Log Warning [Str "Unable to eglMakeCurrent "; Int err; Str LF].

(* The answer to the first eglMakeCurrent of a run and, when eglGetError is
   the very next call, the error code it read. *)
Fixpoint first_make_current (evs : list Event) : option (bool * option EGLint) :=
  match evs with
  | [] => None
  | Ev_eglMakeCurrent _ _ _ _ ok :: rest =>
      Some (ok, match rest with
                | Ev_eglGetError err :: _ => Some err
                | _ => None
                end)
  | _ :: rest => first_make_current rest
  end.

(* The end of Init, from InitGLES on, as written there; [Init_unfold]
   proves that this is what Init runs. *)
Definition Init_finish {W} (P : Platform W) : M W bool :=
  (InitGLES P ;;
   loaded <- glDebugMessageCallback_loaded P ;;
   (if loaded then
      glEnable P GL_DEBUG_OUTPUT_SYNCHRONOUS ;;
      glDebugMessageCallback P ;;
      e <- glGetError P ;;
      if negb (e =? GL_NO_ERROR)
      then LOG_ERROR_MESSAGE [Str "Failed to enable debug messages"]
      else ret tt
    else ret tt) ;;
   wr (set_egl_context_initialized_ true) ;;
   ret true)%cpp.

(** ** Concrete runs on the executable platform *)

Module Scenario.

Definition phone := Sim.platform Sim.phone.
Definition es30_phone := Sim.platform Sim.es30_phone.
Definition es20_device := Sim.platform Sim.es20_device.

(* The phone after the constructor ran with the host's window. *)
Definition live : Machine Sim.Driver :=
  meanwhile (fun w => w) (after (GLContext_ctor phone Sim.the_window) (Sim.start Sim.boot)).

(* ... and then the driver loses the context, or the surface, at the next swap. *)
Definition context_lost : Machine Sim.Driver :=
  meanwhile (Sim.next_swap_fails EGL_CONTEXT_LOST) live.

Definition surface_lost : Machine Sim.Driver :=
  meanwhile (Sim.next_swap_fails EGL_BAD_SURFACE) live.

(* A surface loss after which the driver offers another configuration. *)
Definition surface_lost_other_config : Machine Sim.Driver :=
  meanwhile (fun w => Sim.now_offers [(21, 24)] (Sim.next_swap_fails EGL_BAD_SURFACE w)) live.

(* The phone suspended. *)
Definition suspended : Machine Sim.Driver :=
  meanwhile (fun w => w) (after (Suspend phone) live).

(* ... and then the window the host resumes with cannot be made current
   at the first attempt. *)
Definition suspended_bad_window : Machine Sim.Driver :=
  meanwhile (Sim.next_make_current_fails EGL_BAD_NATIVE_WINDOW) suspended.

(* The phone invalidated: Invalidate clears the initialized flag. *)
Definition invalidated : Machine Sim.Driver :=
  meanwhile (fun w => w) (after (Invalidate phone) live).

(* The ES 3.0 phone in the middle of Init: constructed, window stored,
   surface created, no context yet. *)
Definition es30_before_context : Machine Sim.Driver :=
  meanwhile (fun w => w)
    (after (bind (wr constructed)
              (fun _ => bind (wr (set_window_ Sim.the_window))
                          (fun _ => InitEGLSurface es30_phone)))
       (Sim.start Sim.boot)).

(* An ES 2.0 device whose host attached the manager to its own context 7
   (constructor without a window), invalidated it, and then resumed it
   with a window: Init creates the surface and fails to create a context. *)
Definition es20_attached : Machine Sim.Driver :=
  after (GLContext_ctor es20_device nullptr) (Sim.start (Sim.boot_with_host_context 7)).

Definition es20_resumed : Machine Sim.Driver :=
  meanwhile (fun w => w)
    (after (Resume es20_device Sim.the_window) (after (Invalidate es20_device) es20_attached)).

(* What SwapBuffers does after the three calls that reveal a lost surface. *)
Definition surface_lost_rest : list Event :=
  Eval vm_compute in skipn 3 (events (SwapBuffers phone 1) surface_lost).

End Scenario.

(** ** Outcomes of a run *)

(* a computation that returns from every machine: it never raises *)
Definition never_raises {W A} (c : M W A) : Prop :=
  forall m, exists a, result c m = Ok a.

(* every exception that leaves the computation carries one of the messages
   and was written to the log as an error, as the last thing done *)
Definition raises_logged {W A} (messages : list string) (c : M W A) : Prop :=
  forall m what,
    result c m = Throw what ->
    In what messages /\
    exists before, trace (after c m) = before ++ [Ev_Log Error [Str what]].

(* the messages of the LOG_ERROR_AND_THROW sites, by function *)
Definition InitEGLSurface_errors : list string :=
  [ "No EGL display found"; "Failed to initialise EGL"; "Failed to choose config";
    "Failed to choose 16-bit depth config"; "Unable to retrieve EGL config";
    "Failed to create EGLSurface" ].

Definition InitEGLContext_errors : list string :=
  [ "Failed to create EGLContext"; "Unable to eglMakeCurrent" ].

Definition AttachToCurrentEGLContext_errors : list string :=
  [ "Failed to attach to EGLContext: no active context" ].

Definition Init_errors : list string :=
  InitEGLSurface_errors ++ InitEGLContext_errors ++ AttachToCurrentEGLContext_errors.

(** ** The one-time GL set-up *)

(* the calls InitGLES makes: the version string, the function table, the
   sRGB framebuffer toggle *)
Definition is_GLES_setup (e : Event) : bool :=
  match e with
  | Ev_glGetString _ _ | Ev_LoadGLFunctions _ => true
  | Ev_glEnable cap _ => cap =? GL_FRAMEBUFFER_SRGB
  | _ => false
  end.

(* from a machine whose GLES flag is set: the flag is still set afterwards
   and no set-up call was made in between *)
Definition GLES_stays_set_up {W} (m m' : Machine W) : Prop :=
  gles_initialized_ (self m) = true ->
  gles_initialized_ (self m') = true /\
  exists evs, trace m' = trace m ++ evs /\ Forall (fun e => is_GLES_setup e = false) evs.

Definition GLES_left_alone {W A} (c : M W A) (m : Machine W) : Prop :=
  gles_initialized_ (self (after c m)) = true /\
  Forall (fun e => is_GLES_setup e = false) (events c m).

(** ** What InitEGLSurface asks for *)

(* the configuration selections of a run: the depth-buffer bits asked for
   and the answer, in the order of the calls *)
Definition config_choice (e : Event) : list (option EGLint * option (list EGLConfig)) :=
  match e with
  | Ev_eglChooseConfig _ attribs _ ret => [(attrib_value EGL_DEPTH_SIZE attribs, ret)]
  | _ => []
  end.

Definition config_choices (evs : list Event) : list (option EGLint * option (list EGLConfig)) :=
  flat_map config_choice evs.

(* the value of a member an out-parameter points to, after the call *)
Definition written (r : option EGLint) (old : Z) : Z :=
  match r with Some v => v | None => old end.

(** ** Parts of the object *)

(* everything InitGLES and the end of Init leave alone: all members but
   the two initialisation flags *)
Definition EGL_members (g : GLContext) :=
  (display_ g, surface_ g, context_ g, config_ g, window_ g,
   (color_size_ g, depth_size_ g), (screen_width_ g, screen_height_ g),
   (min_swap_interval_ g, max_swap_interval_ g),
   (major_version_ g, minor_version_ g), context_valid_ g).

(* what InitEGLContext leaves alone *)
Definition surface_members (g : GLContext) :=
  (display_ g, surface_ g, config_ g, window_ g,
   (color_size_ g, depth_size_ g), (screen_width_ g, screen_height_ g),
   (min_swap_interval_ g, max_swap_interval_ g),
   (gles_initialized_ g, egl_context_initialized_ g)).

(* the manager can draw: display, surface and context are there and the
   context is marked valid *)
Definition ready (g : GLContext) : Prop :=
  display_ g <> EGL_NO_DISPLAY /\ surface_ g <> EGL_NO_SURFACE /\
  context_ g <> EGL_NO_CONTEXT /\ context_valid_ g = true.

(* a call into EGL or the native window that makes, binds or gives back
   something: every EGL entry point but the two queries eglGetCurrentContext
   and eglGetError *)
Definition changes_EGL (e : Event) : bool :=
  match e with
  | Ev_eglGetDisplay _ _ | Ev_eglInitialize _ _ | Ev_eglChooseConfig _ _ _ _
  | Ev_eglCreateWindowSurface _ _ _ _ | Ev_eglQuerySurface _ _ _ _
  | Ev_eglGetConfigAttrib _ _ _ _ | Ev_ANativeWindow_setBuffersGeometry _ _ _ _ _
  | Ev_eglCreateContext _ _ _ _ _ | Ev_eglMakeCurrent _ _ _ _ _
  | Ev_eglSwapInterval _ _ _ | Ev_eglSwapBuffers _ _ _
  | Ev_eglDestroyContext _ _ _ | Ev_eglDestroySurface _ _ _ | Ev_eglTerminate _ _ => true
  | _ => false
  end.

Definition no_active_context : string :=
  "Failed to attach to EGLContext: no active context".


(** ** Suspending and invalidating *)

Definition suspending : Event := Ev_Log Info [Str ("Suspending gl context" ++ LF)%string].

Definition destroying_surface : Event :=
  Ev_Log Info [Str ("Destroying egl surface" ++ LF)%string].

Definition invalidating : Event :=
  Ev_Log Info [Str ("Invalidating gl context" ++ LF)%string].

(* every member but the surface handle *)
Definition but_surface (g : GLContext) :=
  (display_ g, context_ g, config_ g, window_ g,
   (color_size_ g, depth_size_ g), (screen_width_ g, screen_height_ g),
   (min_swap_interval_ g, max_swap_interval_ g),
   (major_version_ g, minor_version_ g), context_valid_ g,
   (gles_initialized_ g, egl_context_initialized_ g)).

(* every member but the cached screen size *)
Definition but_screen_size (g : GLContext) :=
  (display_ g, surface_ g, context_ g, config_ g, window_ g,
   (color_size_ g, depth_size_ g),
   (min_swap_interval_ g, max_swap_interval_ g),
   (major_version_ g, minor_version_ g), context_valid_ g,
   (gles_initialized_ g, egl_context_initialized_ g)).

(* what Terminate and Invalidate leave alone: the cached configuration,
   sizes, versions and the GLES flag *)
Definition cached_members (g : GLContext) :=
  (config_ g, window_ g, (color_size_ g, depth_size_ g),
   (screen_width_ g, screen_height_ g),
   (min_swap_interval_ g, max_swap_interval_ g),
   (major_version_ g, minor_version_ g), gles_initialized_ g).

(* a platform call of any kind: everything in the trace but a log line *)
Definition is_call (e : Event) : bool :=
  match e with Ev_Log _ _ => false | _ => true end.

(* the platform calls of a teardown of the object [g], given what the
   platform answers to each: unbind, destroy the context, destroy the
   surface, close the display connection; none without a display *)
Definition teardown_calls (g : GLContext) (answers : bool * bool * bool * bool) : list Event :=
  let '(unbound, context_destroyed, surface_destroyed, terminated) := answers in
  if display_ g =? EGL_NO_DISPLAY then [] else
  Ev_eglMakeCurrent (display_ g) EGL_NO_SURFACE EGL_NO_SURFACE EGL_NO_CONTEXT unbound
  :: (if context_ g =? EGL_NO_CONTEXT then []
      else [Ev_eglDestroyContext (display_ g) (context_ g) context_destroyed])
  ++ (if surface_ g =? EGL_NO_SURFACE then []
      else [Ev_eglDestroySurface (display_ g) (surface_ g) surface_destroyed])
  ++ [Ev_eglTerminate (display_ g) terminated].


(** ** The debug-message callback *)

(* Enumerants of the KHR_debug part of the Khronos GLES headers. *)
Definition GL_DEBUG_SOURCE_API : Z := 0x8246.
Definition GL_DEBUG_SOURCE_WINDOW_SYSTEM : Z := 0x8247.
Definition GL_DEBUG_SOURCE_SHADER_COMPILER : Z := 0x8248.
Definition GL_DEBUG_SOURCE_THIRD_PARTY : Z := 0x8249.
Definition GL_DEBUG_SOURCE_APPLICATION : Z := 0x824A.
Definition GL_DEBUG_SOURCE_OTHER : Z := 0x824B.

Definition GL_DEBUG_TYPE_ERROR : Z := 0x824C.
Definition GL_DEBUG_TYPE_DEPRECATED_BEHAVIOR : Z := 0x824D.
Definition GL_DEBUG_TYPE_UNDEFINED_BEHAVIOR : Z := 0x824E.
Definition GL_DEBUG_TYPE_PORTABILITY : Z := 0x824F.
Definition GL_DEBUG_TYPE_PERFORMANCE : Z := 0x8250.
Definition GL_DEBUG_TYPE_OTHER : Z := 0x8251.
Definition GL_DEBUG_TYPE_MARKER : Z := 0x8268.
Definition GL_DEBUG_TYPE_PUSH_GROUP : Z := 0x8269.
Definition GL_DEBUG_TYPE_POP_GROUP : Z := 0x826A.

Definition GL_DEBUG_SEVERITY_HIGH : Z := 0x9146.
Definition GL_DEBUG_SEVERITY_MEDIUM : Z := 0x9147.
Definition GL_DEBUG_SEVERITY_LOW : Z := 0x9148.
Definition GL_DEBUG_SEVERITY_NOTIFICATION : Z := 0x826B.

(* operator<< of an integer: its decimal digits, after a minus sign below
   zero.  GLenum and GLuint are unsigned, so the callback prints no sign. *)
Definition decimal (z : Z) : string :=
  DecimalString.NilEmpty.string_of_int (Z.to_int z).

(* switch (source) *)
Definition source_text (source : Z) : string :=
  if source =? GL_DEBUG_SOURCE_API then "Source: API."
  else if source =? GL_DEBUG_SOURCE_WINDOW_SYSTEM then "Source: Window System."
  else if source =? GL_DEBUG_SOURCE_SHADER_COMPILER then "Source: Shader Compiler."
  else if source =? GL_DEBUG_SOURCE_THIRD_PARTY then "Source: Third Party."
  else if source =? GL_DEBUG_SOURCE_APPLICATION then "Source: Application."
  else if source =? GL_DEBUG_SOURCE_OTHER then "Source: Other."
  else ("Source: Unknown (" ++ decimal source ++ ").")%string.

(* switch (type) *)
Definition type_text (type : Z) : string :=
  if type =? GL_DEBUG_TYPE_ERROR then " Type: ERROR."
  else if type =? GL_DEBUG_TYPE_DEPRECATED_BEHAVIOR then " Type: Deprecated Behaviour."
  else if type =? GL_DEBUG_TYPE_UNDEFINED_BEHAVIOR then " Type: UNDEFINED BEHAVIOUR."
  else if type =? GL_DEBUG_TYPE_PORTABILITY then " Type: Portability."
  else if type =? GL_DEBUG_TYPE_PERFORMANCE then " Type: PERFORMANCE."
  else if type =? GL_DEBUG_TYPE_MARKER then " Type: Marker."
  else if type =? GL_DEBUG_TYPE_PUSH_GROUP then " Type: Push Group."
  else if type =? GL_DEBUG_TYPE_POP_GROUP then " Type: Pop Group."
  else if type =? GL_DEBUG_TYPE_OTHER then " Type: Other."
  else (" Type: Unknown (" ++ decimal type ++ ").")%string.

(* switch (severity) *)
Definition severity_text (severity : Z) : string :=
  if severity =? GL_DEBUG_SEVERITY_HIGH then " Severity: HIGH"
  else if severity =? GL_DEBUG_SEVERITY_MEDIUM then " Severity: Medium"
  else if severity =? GL_DEBUG_SEVERITY_LOW then " Severity: Low"
  else if severity =? GL_DEBUG_SEVERITY_NOTIFICATION then " Severity: Notification"
  else (" Severity: Unknown (" ++ decimal severity ++ ")")%string.

(* openglCallbackFunction, the callback Init hands to
   glDebugMessageCallback; the driver calls it with a message of its own.
   MessageSS is the text of the std::stringstream after each insertion;
   the one argument of LOG_INFO_MESSAGE is MessageSS.str().c_str(). *)
Definition openglCallbackFunction {W} (source type id severity length : Z)
    (message : string) (userParam : Z) : M W unit :=
  let MessageSS := ""%string in
  let MessageSS := (MessageSS ++ "OpenGL debug message " ++ decimal id ++ " (")%string in
  let MessageSS := (MessageSS ++ source_text source)%string in
  let MessageSS := (MessageSS ++ type_text type)%string in
  let MessageSS := (MessageSS ++ severity_text severity)%string in
  let MessageSS := (MessageSS ++ "): " ++ message)%string in
  LOG_INFO_MESSAGE [Str MessageSS].


(* what InitEGLSurface writes last: the cached screen size and swap
   interval bounds *)
Definition surface_cache (g : GLContext) :=
  (screen_width_ g, screen_height_ g, min_swap_interval_ g, max_swap_interval_ g).

Definition no_display_found : string := "No EGL display found".
Definition surface_not_created : string := "Failed to create EGLSurface".

(** ** Further runs on the executable platform *)

(* The ES 3.0 phone after the constructor ran with the host's window and
   the manager was invalidated. *)
Definition es30_invalidated : Machine Sim.Driver :=
  meanwhile (fun w => w)
    (after (Invalidate Scenario.es30_phone)
       (after (GLContext_ctor Scenario.es30_phone Sim.the_window) (Sim.start Sim.boot))).

(* The ES 2.0 device whose host keeps its own context 7 current: the
   object right after the member initialisers of the constructor, and the
   attached manager after Invalidate. *)
Definition es20_fresh : Machine Sim.Driver :=
  after (wr constructed) (Sim.start (Sim.boot_with_host_context 7)).

Definition es20_invalidated : Machine Sim.Driver :=
  meanwhile (fun w => w) (after (Invalidate Scenario.es20_device) Scenario.es20_attached).
(** * Proofs *)

(** ** Frame rules *)

Section Frames.

Context {W : Type}.

#[export] Instance keeps_Frame {B} (f : GLContext -> B) : Frame (@keeps W B f).
Proof.
  split; unfold keeps; intros; congruence.
Qed.

#[export] Instance only_Frame (Q : Event -> Prop) : Frame (@only W Q).
Proof.
  split; unfold only.
  - intros m. exists []. now rewrite app_nil_r.
  - intros a b c [e1 [H1 F1]] [e2 [H2 F2]]. exists (e1 ++ e2). split.
    + now rewrite H2, H1, app_assoc.
    + apply Forall_app. now split.
Qed.

Lemma post_ret (R : Machine W -> Machine W -> Prop) {HR : Frame R} {A} (a : A) : post R (ret a).
Proof. intro m. apply frame_refl. Qed.

Lemma post_throw (R : Machine W -> Machine W -> Prop) {HR : Frame R} {A} (e : string) : post R (@throw W A e).
Proof. intro m. apply frame_refl. Qed.

Lemma post_rd (R : Machine W -> Machine W -> Prop) {HR : Frame R} {A} (f : GLContext -> A) : post R (rd f).
Proof. intro m. apply frame_refl. Qed.

Lemma post_bind (R : Machine W -> Machine W -> Prop) {HR : Frame R} {A B} (c : M W A) (k : A -> M W B) :
  post R c -> (forall a, post R (k a)) -> post R (bind c k).
Proof.
  intros Hc Hk m. unfold after, bind. specialize (Hc m). unfold after in Hc.
  destruct (c m) as [[a | e] m1]; simpl in *.
  - eapply frame_trans; [exact Hc | apply Hk].
  - exact Hc.
Qed.

Lemma post_try_catch (R : Machine W -> Machine W -> Prop) {HR : Frame R} {A} (c : M W A) (h : string -> M W A) :
  post R c -> (forall e, post R (h e)) -> post R (try_catch c h).
Proof.
  intros Hc Hh m. unfold after, try_catch. specialize (Hc m). unfold after in Hc.
  destruct (c m) as [[a | e] m1]; simpl in *.
  - exact Hc.
  - eapply frame_trans; [exact Hc | apply Hh].
Qed.

Lemma post_wr (R : Machine W -> Machine W -> Prop) (f : GLContext -> GLContext) :
  (forall m, R m (mkMachine (f (self m)) (world m) (trace m))) -> post R (wr f).
Proof. intros H m. apply H. Qed.

Lemma post_emit (R : Machine W -> Machine W -> Prop) (e : Event) :
  (forall m : Machine W, R m (mkMachine (self m) (world m) (trace m ++ [e]))) ->
  post R (emit e).
Proof. intros H m. apply H. Qed.

Lemma post_call (R : Machine W -> Machine W -> Prop) {A} (e : A -> Event) (f : W -> A * W) :
  (forall (m : Machine W) r w', R m (mkMachine (self m) w' (trace m ++ [e r]))) ->
  post R (call e f).
Proof.
  intros H m. unfold after, call. destruct (f (world m)) as [r w']. apply H.
Qed.

Lemma keeps_wr {B} (f : GLContext -> B) (g : GLContext -> GLContext) :
  (forall x, f (g x) = f x) -> post (keeps f) (@wr W g).
Proof. intros H. apply post_wr. intro m. apply H. Qed.

Lemma keeps_emit {B} (f : GLContext -> B) e : post (keeps f) (@emit W e).
Proof. apply post_emit. reflexivity. Qed.

Lemma keeps_call {B A} (f : GLContext -> B) (e : A -> Event) (p : W -> A * W) :
  post (keeps f) (call e p).
Proof. apply post_call. reflexivity. Qed.

Lemma only_wr Q (g : GLContext -> GLContext) : post (only Q) (@wr W g).
Proof. apply post_wr. intro m. exists []. simpl. now rewrite app_nil_r. Qed.

Lemma only_emit (Q : Event -> Prop) e : Q e -> post (only Q) (@emit W e).
Proof. intros H. apply post_emit. intro m. exists [e]. simpl. auto. Qed.

Lemma only_call (Q : Event -> Prop) {A} (e : A -> Event) (p : W -> A * W) :
  (forall r, Q (e r)) -> post (only Q) (call e p).
Proof. intros H. apply post_call. intros m r w'. exists [e r]. simpl. auto. Qed.

(* An [only] frame pins the added events down. *)
Lemma only_events Q {A} (c : M W A) (m : Machine W) :
  post (only Q) c ->
  trace (after c m) = trace m ++ events c m /\ Forall Q (events c m).
Proof.
  intros H. destruct (H m) as [evs [E F]]. unfold events. rewrite E.
  rewrite skipn_app, skipn_all, Nat.sub_diag. simpl. auto.
Qed.

Lemma events_eq {A} (c : M W A) (m : Machine W) evs :
  trace (after c m) = trace m ++ evs -> events c m = evs.
Proof.
  intros E. unfold events. rewrite E.
  now rewrite skipn_app, skipn_all, Nat.sub_diag.
Qed.

(* Results and final machines of a sequence. *)
Lemma bind_Ok {A B} (c : M W A) (k : A -> M W B) m b :
  result (bind c k) m = Ok b ->
  exists a, result c m = Ok a /\ result (k a) (after c m) = Ok b
            /\ after (bind c k) m = after (k a) (after c m).
Proof.
  unfold result, after, bind. destruct (c m) as [[a | e] m1]; simpl.
  - intros H. exists a. auto.
  - discriminate.
Qed.

Lemma bind_run {A B} (c : M W A) (k : A -> M W B) m a m1 :
  c m = (Ok a, m1) -> bind c k m = k a m1.
Proof. intros H. unfold bind. now rewrite H. Qed.

Lemma bind_throw {A B} (c : M W A) (k : A -> M W B) m e m1 :
  c m = (Throw e, m1) -> bind c k m = (Throw e, m1).
Proof. intros H. unfold bind. now rewrite H. Qed.

End Frames.

Lemma only_weaken {W} (Q Q' : Event -> Prop) {A} (c : M W A) :
  (forall e, Q e -> Q' e) -> post (only Q) c -> post (only Q') c.
Proof.
  intros HQ H m. destruct (H m) as [evs [E F]]. exists evs. split; [exact E |].
  eapply Forall_impl; eauto.
Qed.

(** ** Frames of the member functions *)

Create HintDb frames.

Create HintDb egl.

#[local] Hint Unfold eglGetDisplay eglInitialize eglChooseConfig eglCreateWindowSurface
  eglQuerySurface eglGetConfigAttrib ANativeWindow_setBuffersGeometry eglCreateContext
  eglMakeCurrent eglGetCurrentContext eglSwapInterval eglSwapBuffers eglGetError
  eglDestroyContext eglDestroySurface eglTerminate glGetString glGetIntegerv
  LoadGLFunctions glEnable glGetError glDebugMessageCallback
  LOG_INFO_MESSAGE LOG_WARNING_MESSAGE LOG_ERROR_MESSAGE LOG_ERROR_AND_THROW
  choose_into_config_ : egl.

Ltac frame_step :=
  match goal with
  | |- post _ _ => solve [auto with frames]
  | |- post _ (bind _ _) => apply post_bind; [ exact _ | | intros ? ]
  | |- post _ (try_catch _ _) => apply post_try_catch; [ exact _ | | intros ? ]
  | |- post _ (ret _) => intro; apply frame_refl
  | |- post _ (throw _) => intro; apply frame_refl
  | |- post _ (rd _) => intro; apply frame_refl
  | |- post _ (glDebugMessageCallback_loaded _) => intro; apply frame_refl
  | |- post (keeps _) (wr (store _ ?r)) =>
      apply keeps_wr; intro; destruct r; reflexivity
  | |- post (keeps _) (wr _) => apply keeps_wr; intro; reflexivity
  | |- post (keeps _) (emit _) => apply keeps_emit
  | |- post (keeps _) (call _ _) => apply keeps_call
  | |- post (only _) (wr _) => apply only_wr
  | |- post (only _) (emit _) => apply only_emit; exact I
  | |- post (only _) (call _ _) => apply only_call; intro; exact I
  | |- post _ (if ?b then _ else _) => destruct b
  | |- post _ (match ?x with _ => _ end) => destruct x
  | |- post _ _ => progress autounfold with egl
  end.

Ltac frame := repeat frame_step.

Section MemberFrames.

Context {W : Type} (P : Platform W).

Lemma InitEGLSurface_says : post (only surface_setup_event) (InitEGLSurface P).
Proof. unfold InitEGLSurface. frame. Qed.

Lemma InitEGLSurface_keeps_context_ : post (keeps context_) (InitEGLSurface P).
Proof. unfold InitEGLSurface. frame. Qed.

Lemma InitEGLSurface_keeps_context_valid_ : post (keeps context_valid_) (InitEGLSurface P).
Proof. unfold InitEGLSurface. frame. Qed.

Lemma InitEGLSurface_keeps_window_ : post (keeps window_) (InitEGLSurface P).
Proof. unfold InitEGLSurface. frame. Qed.

Lemma InitEGLContext_loop_says vs :
  post (only context_setup_event) (InitEGLContext_loop P vs).
Proof. induction vs as [| v vs IH]; simpl; frame. Qed.

Lemma InitEGLContext_loop_keeps_config_ vs :
  post (keeps config_) (InitEGLContext_loop P vs).
Proof. induction vs as [| v vs IH]; simpl; frame. Qed.

Lemma InitEGLContext_loop_keeps_display_ vs :
  post (keeps display_) (InitEGLContext_loop P vs).
Proof. induction vs as [| v vs IH]; simpl; frame. Qed.

Lemma InitEGLContext_loop_keeps_depth_size_ vs :
  post (keeps depth_size_) (InitEGLContext_loop P vs).
Proof. induction vs as [| v vs IH]; simpl; frame. Qed.

#[local] Hint Resolve InitEGLContext_loop_says InitEGLContext_loop_keeps_config_
  InitEGLContext_loop_keeps_display_ InitEGLContext_loop_keeps_depth_size_ : frames.

Lemma InitEGLContext_says : post (only context_setup_event) (InitEGLContext P).
Proof. unfold InitEGLContext. frame. Qed.

Lemma InitEGLContext_keeps_config_ : post (keeps config_) (InitEGLContext P).
Proof. unfold InitEGLContext. frame. Qed.

Lemma InitEGLContext_keeps_display_ : post (keeps display_) (InitEGLContext P).
Proof. unfold InitEGLContext. frame. Qed.

Lemma InitEGLContext_keeps_depth_size_ : post (keeps depth_size_) (InitEGLContext P).
Proof. unfold InitEGLContext. frame. Qed.

Lemma Terminate_says : post (only teardown_event) (Terminate P).
Proof. unfold Terminate. frame. Qed.

Lemma UpdateScreenSize_says : post (only screen_size_event) (UpdateScreenSize P).
Proof. unfold UpdateScreenSize. frame. Qed.

Lemma UpdateScreenSize_keeps_config_ : post (keeps config_) (UpdateScreenSize P).
Proof. unfold UpdateScreenSize. frame. Qed.

Lemma InitGLES_keeps_major_version_ : post (keeps major_version_) (InitGLES P).
Proof. unfold InitGLES. frame. Qed.

Lemma InitGLES_keeps_minor_version_ : post (keeps minor_version_) (InitGLES P).
Proof. unfold InitGLES. frame. Qed.

End MemberFrames.

(** ** Running the code symbolically *)

Ltac unfold_run :=
  unfold events; unfold after, result;
  autounfold with egl;
  unfold bind, try_catch, call, emit, wr, rd, ret, throw, glDebugMessageCallback_loaded.

Ltac split_run :=
  repeat (match goal with
          | |- context [let (_, _) := ?x in _] => destruct x eqn:?
          | |- context [if ?b then _ else _] => destruct b eqn:?
          | |- context [match ?x with Some _ => _ | None => _ end] => destruct x eqn:?
          end; cbn).

Lemma skipn_length_app {A} (l evs : list A) : skipn (List.length l) (l ++ evs) = evs.
Proof. now rewrite skipn_app, skipn_all, Nat.sub_diag. Qed.

Ltac trace_norm :=
  repeat rewrite <- app_assoc; cbn [app]; rewrite ?skipn_length_app.

Arguments InitEGLSurface : simpl never.
Arguments InitEGLContext : simpl never.
Arguments Terminate : simpl never.
Arguments UpdateScreenSize : simpl never.
Arguments InitGLES : simpl never.
Arguments Init : simpl never.
Arguments AttachToCurrentEGLContext : simpl never.

(* Bring the frame [L] of the sub-run [c] at its machine into the context. *)
Ltac use_frame L c E F :=
  match goal with
  | |- context [c ?m0] =>
      let evs := fresh "evs" in
      destruct (L m0) as [evs [E F]]; unfold after in E;
      destruct (c m0) as [[? | ?] ?]; cbn [snd trace self world] in E
  end.

(* No event of the list is of the excluded kind. *)
Ltac quiet F :=
  repeat first
    [ apply Forall_nil
    | apply Forall_cons; [ reflexivity | ]
    | apply Forall_app; split
    | solve [ eapply Forall_impl; [ | exact F ]; intros [] ; cbn; intros ?;
              first [ reflexivity | contradiction ] ] ].

Lemma min_max_clamp r lo hi : lo <= hi -> Z.min (Z.max r lo) hi = clamp r lo hi.
Proof.
  intros H. unfold clamp.
  destruct (r <? lo) eqn:E1; [apply Z.ltb_lt in E1 | apply Z.ltb_ge in E1].
  - lia.
  - destruct (hi <? r) eqn:E2; [apply Z.ltb_lt in E2 | apply Z.ltb_ge in E2]; lia.
Qed.

Section Claims.

Context {W : Type} (P : Platform W).

(** ** Terminate *)

(** C5. Terminate never raises and is idempotent: after one call, and
    again after a second, display, context and surface are at their
    sentinels and the context is marked invalid; the second call changes
    nothing and reaches no platform entry point.  What the first call gives
    back, it gives back in the order context, surface, display connection. *)
Theorem C5_Terminate_idempotent_in_release_order (m : Machine W) :
  let g := self m in
  let m1 := after (Terminate P) m in
  let m2 := after (Terminate P) m1 in
  result (Terminate P) m = Ok tt /\ result (Terminate P) m1 = Ok tt /\
  torn_down (self m1) /\ torn_down (self m2) /\
  m2 = m1 /\ events (Terminate P) m1 = [] /\
  release_order (events (Terminate P) m) =
    if display_ g =? EGL_NO_DISPLAY then []
    else (if context_ g =? EGL_NO_CONTEXT then [] else [the_context (context_ g)])
         ++ (if surface_ g =? EGL_NO_SURFACE then [] else [the_surface (surface_ g)])
         ++ [the_display_connection (display_ g)].
Proof.
  destruct m as [g w t]. cbn [self].
  unfold Terminate, torn_down. unfold_run. cbn.
  destruct (display_ g =? EGL_NO_DISPLAY) eqn:Hd; cbn.
  - rewrite ?app_nil_r, skipn_all. repeat split; reflexivity.
  - destruct (on_eglMakeCurrent P (display_ g) EGL_NO_SURFACE EGL_NO_SURFACE
                EGL_NO_CONTEXT w) as [b0 w0]; cbn.
    destruct (context_ g =? EGL_NO_CONTEXT) eqn:Hc; cbn;
      [ | destruct (on_eglDestroyContext P (display_ g) (context_ g) w0) as [b1 w1]; cbn ];
      (destruct (surface_ g =? EGL_NO_SURFACE) eqn:Hs; cbn;
       [ | match goal with
           | |- context [on_eglDestroySurface P ?d ?s ?x] =>
               destruct (on_eglDestroySurface P d s x) as [b2 w2]; cbn
           end ]);
      match goal with
      | |- context [on_eglTerminate P ?d ?x] =>
          destruct (on_eglTerminate P d x) as [b3 w3]; cbn
      end;
      rewrite ?app_nil_r; trace_norm; rewrite skipn_all;
      repeat split; reflexivity.
Qed.

(** ** UpdateScreenSize *)

(** C9. UpdateScreenSize asks the surface for its width and height (a
    failed query leaves 0).  The cached pair is overwritten and the
    "Window size changed" line is logged exactly when the queried pair
    differs from the cached one; when they are equal the object is left as
    it was and nothing is logged. *)
Theorem C9_UpdateScreenSize_updates_iff_differs (m : Machine W) :
  let g := self m in
  exists w h : option EGLint,
    let nw := answered w in
    let nh := answered h in
    w = fst (on_eglQuerySurface P (display_ g) (surface_ g) EGL_WIDTH (world m)) /\
    (size_differs nw nh g = true <-> (nw, nh) <> (screen_width_ g, screen_height_ g)) /\
    events (UpdateScreenSize P) m =
      Ev_eglQuerySurface (display_ g) (surface_ g) EGL_WIDTH w
      :: Ev_eglQuerySurface (display_ g) (surface_ g) EGL_HEIGHT h
      :: (if size_differs nw nh g then [resize_diagnostic nw nh] else []) /\
    self (after (UpdateScreenSize P) m) =
      (if size_differs nw nh g
       then set_screen_height_ nh (set_screen_width_ nw g)
       else g) /\
    result (UpdateScreenSize P) m = Ok tt.
Proof.
  destruct m as [g wd t]. cbn [self world].
  destruct (on_eglQuerySurface P (display_ g) (surface_ g) EGL_WIDTH wd) as [w w1] eqn:Ew.
  destruct (on_eglQuerySurface P (display_ g) (surface_ g) EGL_HEIGHT w1) as [h w2] eqn:Eh.
  exists w, h. cbn zeta. split; [reflexivity |]. split.
  - unfold size_differs. rewrite negb_true_iff, andb_false_iff, !Z.eqb_neq.
    split.
    + intros [H | H] E; injection E; intros; contradiction.
    + intros H. destruct (Z.eq_dec (answered w) (screen_width_ g)) as [E1 | N1]; [| now left].
      destruct (Z.eq_dec (answered h) (screen_height_ g)) as [E2 | N2]; [| now right].
      exfalso. apply H. now rewrite E1, E2.
  - unfold UpdateScreenSize, size_differs, resize_diagnostic. unfold_run. cbn.
    rewrite Ew. cbn. rewrite Eh. cbn.
    change (match w with Some v => v | None => 0 end) with (answered w).
    change (match h with Some v => v | None => 0 end) with (answered h).
    destruct (answered w =? screen_width_ g) eqn:E1;
      destruct (answered h =? screen_height_ g) eqn:E2; cbn;
      trace_norm; repeat split; reflexivity.
Qed.

(** ** SwapBuffers without a surface *)

(** C3 (amended). With the surface handle at its sentinel, SwapBuffers
    logs the "No EGL surface" warning and returns: no exception, no
    platform call, no member written.  Suspend always leaves the surface
    handle at its sentinel, so SwapBuffers right after Suspend is such a
    no-op. *)
Theorem C3_SwapBuffers_without_surface_is_noop (r : Z) (m : Machine W) :
  (surface_ (self m) = EGL_NO_SURFACE ->
   SwapBuffers P r m = (Ok tt, logged no_surface_warning m)) /\
  surface_ (self (after (Suspend P) m)) = EGL_NO_SURFACE /\
  SwapBuffers P r (after (Suspend P) m)
  = (Ok tt, logged no_surface_warning (after (Suspend P) m)).
Proof.
  assert (noop : forall m' : Machine W, surface_ (self m') = EGL_NO_SURFACE ->
            SwapBuffers P r m' = (Ok tt, logged no_surface_warning m')).
  { intros m' H. unfold SwapBuffers. unfold_run. rewrite H. reflexivity. }
  assert (susp : surface_ (self (after (Suspend P) m)) = EGL_NO_SURFACE).
  { unfold Suspend. unfold_run. cbn.
    destruct (surface_ (self m) =? EGL_NO_SURFACE) eqn:E; cbn.
    - now apply Z.eqb_eq in E.
    - destruct (on_eglDestroySurface P (display_ (self m)) (surface_ (self m)) (world m));
        reflexivity. }
  split; [exact (noop m) |]. split; [exact susp |]. apply noop. exact susp.
Qed.

(** ** SwapBuffers: the swap interval *)

(** C2. With a surface and bounds [min <= max] in the cache, the first
    thing SwapBuffers does is eglSwapInterval with clamp(r, min, max), and
    nothing it does afterwards, recovery included, sets another interval:
    the request never reaches the platform unclamped. *)
Theorem C2_SwapBuffers_applies_clamped_interval (r : Z) (m : Machine W) :
  let g := self m in
  surface_ g <> EGL_NO_SURFACE ->
  min_swap_interval_ g <= max_swap_interval_ g ->
  exists ok rest,
    events (SwapBuffers P r) m
    = Ev_eglSwapInterval (display_ g)
        (clamp r (min_swap_interval_ g) (max_swap_interval_ g)) ok :: rest /\
    Forall (fun e => is_eglSwapInterval e = false) rest.
Proof.
  intros g Hs Hb. subst g. destruct m as [g w t]. cbn [self] in *.
  apply Z.eqb_neq in Hs.
  unfold SwapBuffers. unfold_run. cbn. rewrite Hs. cbn.
  rewrite (min_max_clamp _ _ _ Hb).
  destruct (on_eglSwapInterval P _ _ w) as [ok w1]. cbn.
  destruct (on_eglSwapBuffers P _ _ w1) as [b w2]. cbn.
  exists ok.
  destruct b; cbn.
  - eexists. trace_norm. split; [reflexivity |]. quiet I.
  - destruct (on_eglGetError P w2) as [err w3]. cbn.
    destruct (err =? EGL_BAD_SURFACE); cbn.
    + use_frame (InitEGLSurface_says P) (InitEGLSurface P) E F.
      all: cbn; rewrite E; trace_norm; eexists; (split; [reflexivity |]).
      all: quiet F.
    + destruct ((err =? EGL_CONTEXT_LOST) || (err =? EGL_BAD_CONTEXT)); cbn.
      * use_frame (Terminate_says P) (Terminate P) E F.
        2: { cbn; rewrite E; trace_norm; eexists; (split; [reflexivity |]). quiet F. }
        use_frame (InitEGLContext_says P) (InitEGLContext P) E' F'.
        all: cbn; rewrite E', E; trace_norm; eexists; (split; [reflexivity |]).
        all: quiet F; quiet F'.
      * trace_norm. eexists. split; [reflexivity |]. quiet I.
Qed.

(** ** InitEGLContext: version negotiation *)

(** C4. Entered without a context, InitEGLContext asks for the candidates
    of the fixed list, which is strictly descending, from its head: every
    attempt before the last one failed, and the last one either succeeded
    or was the final candidate.  The version members hold the version of
    the last attempt and the context member its answer; when even the final
    candidate fails the function raises.  On a platform that rejects both
    higher candidates the recorded version is the lowest one, (3, 0). *)
Theorem C4_InitEGLContext_negotiates_descending (m : Machine W) :
  context_ (self m) = EGL_NO_CONTEXT ->
  let m' := after (InitEGLContext P) m in
  StronglySorted newer es_versions /\
  (exists failed last ctx rest,
      es_versions = failed ++ last :: rest /\
      attempts (events (InitEGLContext P) m)
      = map (fun v => (v, EGL_NO_CONTEXT)) failed ++ [(last, ctx)] /\
      (ctx = EGL_NO_CONTEXT ->
       rest = [] /\ result (InitEGLContext P) m = Throw "Failed to create EGLContext") /\
      (major_version_ (self m'), minor_version_ (self m')) = last /\
      context_ (self m') = ctx) /\
  (rejects P (3, 2) -> rejects P (3, 1) ->
   (major_version_ (self m'), minor_version_ (self m')) = (3, 0)).
Proof.
  intros Hc m'. subst m'. destruct m as [g w t]. cbn [self] in Hc.
  split.
  { unfold es_versions, newer. repeat constructor; cbn; lia. }
  unfold InitEGLContext, es_versions, rejects, context_attribs.
  cbn [InitEGLContext_loop]. unfold_run. cbn. rewrite Hc. cbn.
  destruct (on_eglCreateContext P (display_ g) (config_ g) NULL
              [EGL_CONTEXT_CLIENT_VERSION; 3; EGL_CONTEXT_MINOR_VERSION_KHR; 2; EGL_NONE] w)
    as [c1 w1] eqn:E1; cbn.
  destruct (c1 =? EGL_NO_CONTEXT) eqn:H1; cbn.
  2: { rewrite H1. cbn. apply Z.eqb_neq in H1.
       destruct (on_eglMakeCurrent P (display_ g) (surface_ g) (surface_ g) c1 w1)
         as [[|] w2]; cbn; trace_norm.
       all: split;
         [ exists [], (3, 2), c1, [(3, 1); (3, 0)]; repeat split; try reflexivity;
           intros; contradiction
         | intros R32 _; specialize (R32 (display_ g) (config_ g) NULL w);
           cbn in R32; rewrite E1 in R32; cbn in R32; contradiction ]. }
  apply Z.eqb_eq in H1. subst c1.
  destruct (on_eglCreateContext P (display_ g) (config_ g) NULL
              [EGL_CONTEXT_CLIENT_VERSION; 3; EGL_CONTEXT_MINOR_VERSION_KHR; 1; EGL_NONE] w1)
    as [c2 w2] eqn:E2; cbn.
  destruct (c2 =? EGL_NO_CONTEXT) eqn:H2; cbn.
  2: { rewrite H2. cbn. apply Z.eqb_neq in H2.
       destruct (on_eglMakeCurrent P (display_ g) (surface_ g) (surface_ g) c2 w2)
         as [[|] w3]; cbn; trace_norm.
       all: split;
         [ exists [(3, 2)], (3, 1), c2, [(3, 0)]; repeat split; try reflexivity;
           intros; contradiction
         | intros _ R31; specialize (R31 (display_ g) (config_ g) NULL w1);
           cbn in R31; rewrite E2 in R31; cbn in R31; contradiction ]. }
  apply Z.eqb_eq in H2. subst c2.
  destruct (on_eglCreateContext P (display_ g) (config_ g) NULL
              [EGL_CONTEXT_CLIENT_VERSION; 3; EGL_CONTEXT_MINOR_VERSION_KHR; 0; EGL_NONE] w2)
    as [c3 w3] eqn:E3; cbn.
  destruct (c3 =? EGL_NO_CONTEXT) eqn:H3; cbn.
  - apply Z.eqb_eq in H3. subst c3. trace_norm.
    split; [ | reflexivity ].
    exists [(3, 2); (3, 1)], (3, 0), EGL_NO_CONTEXT, []. repeat split; reflexivity.
  - apply Z.eqb_neq in H3.
    destruct (on_eglMakeCurrent P (display_ g) (surface_ g) (surface_ g) c3 w3)
      as [[|] w4]; cbn; trace_norm.
    all: split; [ | reflexivity ].
    all: exists [(3, 2); (3, 1)], (3, 0), c3, []; repeat split; try reflexivity;
      intros; contradiction.
Qed.

(** ** InitEGLSurface when it succeeds *)

Ltac find_in := cbn; repeat first [ solve [ left; reflexivity ] | right ].

Lemma InitEGLSurface_Ok (m : Machine W) (b : bool) :
  result (InitEGLSurface P) m = Ok b ->
  let evs := events (InitEGLSurface P) m in
  let g' := self (after (InitEGLSurface P) m) in
  surface_ g' <> EGL_NO_SURFACE /\
  (exists others,
     In (Ev_eglChooseConfig (display_ g') (config_attribs 8 (depth_size_ g')) 1
           (Some (config_ g' :: others))) evs) /\
  In (Ev_eglCreateWindowSurface (display_ g') (config_ g') (window_ (self m)) (surface_ g'))
     evs /\
  (exists lo hi,
     In (Ev_eglGetConfigAttrib (display_ g') (config_ g') EGL_MIN_SWAP_INTERVAL lo) evs /\
     In (Ev_eglGetConfigAttrib (display_ g') (config_ g') EGL_MAX_SWAP_INTERVAL hi) evs /\
     min_swap_interval_ g' = match lo with Some v => v | None => min_swap_interval_ (self m) end /\
     max_swap_interval_ g' = match hi with Some v => v | None => max_swap_interval_ (self m) end).
Proof.
  destruct m as [g w t]. cbn zeta. cbn [self].
  unfold InitEGLSurface. unfold_run. cbn.
  destruct (on_eglGetDisplay P EGL_DEFAULT_DISPLAY w) as [d w1]; cbn.
  destruct (d =? EGL_NO_DISPLAY) eqn:Hd; cbn; [discriminate |].
  destruct (on_eglInitialize P d w1) as [[|] w2]; cbn; [| discriminate].
  destruct (on_eglChooseConfig P d (config_attribs 8 24) w2) as [[[| c others] |] w3];
    cbn; [ | | discriminate ].
  1: destruct (on_eglChooseConfig P d (config_attribs 8 16) w3) as [[[| c others] |] w3'];
    cbn; [ discriminate | | discriminate ].
  all: match goal with
       | |- context [on_eglCreateWindowSurface P ?a ?b ?c ?x] =>
           destruct (on_eglCreateWindowSurface P a b c x) as [s w4]; cbn
       end;
       (destruct (s =? EGL_NO_SURFACE) eqn:Hs; cbn; [ discriminate | ]);
       apply Z.eqb_neq in Hs;
       match goal with
       | |- context [on_eglQuerySurface P ?a ?b EGL_WIDTH ?x] =>
           destruct (on_eglQuerySurface P a b EGL_WIDTH x) as [qw w5]; cbn
       end;
       match goal with
       | |- context [on_eglQuerySurface P ?a ?b EGL_HEIGHT ?x] =>
           destruct (on_eglQuerySurface P a b EGL_HEIGHT x) as [qh w6]; cbn
       end;
       match goal with
       | |- context [on_eglGetConfigAttrib P ?a ?b EGL_NATIVE_VISUAL_ID ?x] =>
           destruct (on_eglGetConfigAttrib P a b EGL_NATIVE_VISUAL_ID x) as [fmt w7]; cbn
       end;
       match goal with
       | |- context [on_ANativeWindow_setBuffersGeometry P ?a ?b ?c ?d ?x] =>
           destruct (on_ANativeWindow_setBuffersGeometry P a b c d x) as [rc w8]; cbn
       end;
       match goal with
       | |- context [on_eglGetConfigAttrib P ?a ?b EGL_MIN_SWAP_INTERVAL ?x] =>
           destruct (on_eglGetConfigAttrib P a b EGL_MIN_SWAP_INTERVAL x) as [lo w9]; cbn
       end;
       match goal with
       | |- context [on_eglGetConfigAttrib P ?a ?b EGL_MAX_SWAP_INTERVAL ?x] =>
           destruct (on_eglGetConfigAttrib P a b EGL_MAX_SWAP_INTERVAL x) as [hi w10]; cbn
       end;
       intros _; trace_norm.
  all: destruct qw, qh, lo, hi; cbn.
  all: split; [ exact Hs | ].
  all: split; [ exists others; find_in | ].
  all: split; [ find_in | ].
  all: eexists; eexists; split; [ find_in | split; [ find_in | split; reflexivity ] ].
Qed.

(* The loop guard matters: entered with a context handle, InitEGLContext
   asks for no version at all and leaves the version members alone. *)
Lemma InitEGLContext_with_context_makes_no_attempt (m : Machine W) :
  context_ (self m) <> EGL_NO_CONTEXT ->
  let m' := after (InitEGLContext P) m in
  attempts (events (InitEGLContext P) m) = [] /\
  major_version_ (self m') = major_version_ (self m) /\
  minor_version_ (self m') = minor_version_ (self m) /\
  context_ (self m') = context_ (self m).
Proof.
  intros Hc. apply Z.eqb_neq in Hc. destruct m as [g w t]. cbn [self] in Hc. cbn zeta.
  unfold InitEGLContext, es_versions. cbn [InitEGLContext_loop]. unfold_run. cbn.
  rewrite Hc. cbn. rewrite Hc. cbn.
  destruct (on_eglMakeCurrent P (display_ g) (surface_ g) (surface_ g) (context_ g) w)
    as [[|] w1]; cbn; trace_norm; repeat split; reflexivity.
Qed.

(** ** SwapBuffers after a failed swap *)

Lemma SwapBuffers_on_error_says err :
  post (only any_event) (SwapBuffers_on_error P err).
Proof.
  unfold SwapBuffers_on_error.
  pose proof (only_weaken surface_setup_event any_event (InitEGLSurface P)
                (fun _ _ => I) (InitEGLSurface_says P)).
  pose proof (only_weaken context_setup_event any_event (InitEGLContext P)
                (fun _ _ => I) (InitEGLContext_says P)).
  pose proof (only_weaken teardown_event any_event (Terminate P)
                (fun _ _ => I) (Terminate_says P)).
  frame.
Qed.

Lemma SwapBuffers_unfold (r : Z) (m : Machine W) :
  let g := self m in
  SwapBuffers P r m =
  if surface_ g =? EGL_NO_SURFACE then (Ok tt, logged no_surface_warning m) else
  let i := Z.min (Z.max r (min_swap_interval_ g)) (max_swap_interval_ g) in
  let (ok, w1) := on_eglSwapInterval P (display_ g) i (world m) in
  let (b, w2) := on_eglSwapBuffers P (display_ g) (surface_ g) w1 in
  if b then
    (Ok tt, mkMachine g w2 (trace m ++ [Ev_eglSwapInterval (display_ g) i ok;
                                        Ev_eglSwapBuffers (display_ g) (surface_ g) true]))
  else
    let (err, w3) := on_eglGetError P w2 in
    SwapBuffers_on_error P err
      (mkMachine g w3 (trace m ++ [Ev_eglSwapInterval (display_ g) i ok;
                                   Ev_eglSwapBuffers (display_ g) (surface_ g) false;
                                   Ev_eglGetError err])).
Proof.
  destruct m as [g w t]. cbn [self trace world].
  unfold SwapBuffers, SwapBuffers_on_error. unfold_run. cbn.
  destruct (surface_ g =? EGL_NO_SURFACE); cbn; [reflexivity |].
  destruct (on_eglSwapInterval P _ _ w) as [ok w1]. cbn.
  destruct (on_eglSwapBuffers P _ _ w1) as [[|] w2]; cbn.
  { now rewrite <- app_assoc. }
  destruct (on_eglGetError P w2) as [err w3]. cbn.
  rewrite <- !app_assoc. cbn [app].
  destruct (err =? EGL_BAD_SURFACE); cbn; [reflexivity |].
  destruct ((err =? EGL_CONTEXT_LOST) || (err =? EGL_BAD_CONTEXT)); reflexivity.
Qed.

Lemma SwapBuffers_swap_failed (r : Z) (m : Machine W) d i ok s err rest :
  events (SwapBuffers P r) m
  = Ev_eglSwapInterval d i ok :: Ev_eglSwapBuffers d s false :: Ev_eglGetError err :: rest ->
  exists w0,
    let m0 := mkMachine (self m) w0
                (trace m ++ [Ev_eglSwapInterval d i ok; Ev_eglSwapBuffers d s false;
                             Ev_eglGetError err]) in
    SwapBuffers P r m = SwapBuffers_on_error P err m0 /\
    trace (after (SwapBuffers_on_error P err) m0) = trace m0 ++ rest.
Proof.
  unfold events, after. rewrite SwapBuffers_unfold.
  destruct m as [g w t]. cbn [self trace world].
  destruct (surface_ g =? EGL_NO_SURFACE); cbn.
  { rewrite skipn_length_app. discriminate. }
  destruct (on_eglSwapInterval P _ _ w) as [ok' w1].
  destruct (on_eglSwapBuffers P _ _ w1) as [[|] w2]; cbn.
  { rewrite skipn_length_app. discriminate. }
  destruct (on_eglGetError P w2) as [err' w3].
  match goal with
  | |- context [SwapBuffers_on_error P err' ?m0] =>
      destruct (SwapBuffers_on_error_says err' m0) as [evs [E F]]
  end.
  unfold after in E. rewrite E. cbn [trace].
  rewrite <- app_assoc, skipn_length_app. cbn [app].
  intros H. injection H; intros; subst.
  exists w3. cbn zeta. split; [reflexivity |].
  rewrite E. reflexivity.
Qed.

Lemma InitEGLSurface_succeeded (m m' : Machine W) (b : bool) (evs : list Event) :
  InitEGLSurface P m = (Ok b, m') ->
  trace m' = trace m ++ evs ->
  let g' := self m' in
  surface_ g' <> EGL_NO_SURFACE /\
  (exists others,
     In (Ev_eglChooseConfig (display_ g') (config_attribs 8 (depth_size_ g')) 1
           (Some (config_ g' :: others))) evs) /\
  In (Ev_eglCreateWindowSurface (display_ g') (config_ g') (window_ (self m)) (surface_ g'))
     evs.
Proof.
  intros H E. pose proof (InitEGLSurface_Ok m b) as HOk.
  unfold events in HOk. unfold result, after in HOk. rewrite H in HOk.
  cbn [fst snd] in HOk. rewrite E, skipn_length_app in HOk.
  destruct (HOk eq_refl) as (H1 & H2 & H3 & _). auto.
Qed.

(** C7 (amended). When the swap of SwapBuffers fails with EGL_BAD_SURFACE,
    SwapBuffers returns normally whatever InitEGLSurface does: an exception
    of the recreation is caught and ends as the "Failed to recreate EGL
    surface" error line.  Context handle, validity flag and window are the
    ones from before.  Unless that line was logged, the surface handle is
    not the sentinel and was created for the same window with the
    configuration the object holds afterwards. *)
Theorem C7_surface_loss_keeps_context (r : Z) (m : Machine W) d i ok s rest :
  events (SwapBuffers P r) m
  = Ev_eglSwapInterval d i ok :: Ev_eglSwapBuffers d s false
    :: Ev_eglGetError EGL_BAD_SURFACE :: rest ->
  let g := self m in
  let g' := self (after (SwapBuffers P r) m) in
  result (SwapBuffers P r) m = Ok tt /\
  context_ g' = context_ g /\ context_valid_ g' = context_valid_ g /\
  window_ g' = window_ g /\
  ((surface_ g' <> EGL_NO_SURFACE /\
    In (Ev_eglCreateWindowSurface (display_ g') (config_ g') (window_ g) (surface_ g')) rest)
   \/ exists pre, rest = pre ++ [recreate_failed]).
Proof.
  intros H. destruct (SwapBuffers_swap_failed _ _ _ _ _ _ _ _ H) as [w0 [Eq Etr]].
  cbn zeta in *. unfold result, after in *. rewrite Eq. clear Eq H.
  revert Etr. unfold SwapBuffers_on_error.
  change (EGL_BAD_SURFACE =? EGL_BAD_SURFACE) with true. cbv iota.
  unfold_run. cbn.
  match goal with
  | |- context [InitEGLSurface P ?m1] =>
      pose proof (InitEGLSurface_keeps_context_ P m1) as K1;
      pose proof (InitEGLSurface_keeps_context_valid_ P m1) as K2;
      pose proof (InitEGLSurface_keeps_window_ P m1) as K3;
      pose proof (InitEGLSurface_succeeded m1) as HOk;
      destruct (InitEGLSurface_says P m1) as [evs [E F]];
      unfold keeps, after in K1, K2, K3, E;
      cbn [self trace world] in K1, K2, K3, HOk, E;
      destruct (InitEGLSurface P m1) as [[a | e] m2]
  end; cbn [fst snd self trace world] in *.
  - intros Etr. rewrite E, <- !app_assoc in Etr. cbn [app] in Etr.
    apply app_inv_head in Etr. injection Etr as Etr.
    destruct (HOk m2 a evs eq_refl E) as (H1 & _ & H3).
    repeat split; try assumption. left. split; [assumption |].
    subst rest. right. exact H3.
  - intros Etr. rewrite E, <- !app_assoc in Etr. cbn [app] in Etr.
    apply app_inv_head in Etr. injection Etr as Etr.
    repeat split; try assumption. right.
    exists (Ev_Log Info [Str "EGL surface has been lost. Attempting to recreate"] :: evs).
    subst rest. reflexivity.
Qed.

(** ** Resume on an initialized manager *)

Lemma UpdateScreenSize_returns (m : Machine W) : result (UpdateScreenSize P) m = Ok tt.
Proof.
  unfold UpdateScreenSize. unfold_run. cbn.
  destruct (on_eglQuerySurface P _ _ EGL_WIDTH (world m)) as [qw w1]; cbn.
  destruct (on_eglQuerySurface P _ _ EGL_HEIGHT w1) as [qh w2]; cbn.
  match goal with |- context [if ?b then _ else _] => destruct b end; reflexivity.
Qed.

Lemma Resume_unfold (w : ANativeWindow) (m : Machine W) :
  egl_context_initialized_ (self m) = true ->
  let g := self m in
  Resume P w m =
  let (s, w1) := on_eglCreateWindowSurface P (display_ g) (config_ g) w (world m) in
  let m1 := mkMachine (set_surface_ s (set_window_ w g)) w1
              (trace m ++ [resuming; Ev_eglCreateWindowSurface (display_ g) (config_ g) w s]) in
  let m2 := after (UpdateScreenSize P) m1 in
  let g2 := self m2 in
  let (ok, w3) := on_eglMakeCurrent P (display_ g2) (surface_ g2) (surface_ g2) (context_ g2)
                    (world m2) in
  let mc := Ev_eglMakeCurrent (display_ g2) (surface_ g2) (surface_ g2) (context_ g2) ok in
  if ok then (Ok EGL_SUCCESS, mkMachine g2 w3 (trace m2 ++ [mc]))
  else
    let (err, w4) := on_eglGetError P w3 in
    Resume_on_error P err
      (mkMachine g2 w4 (trace m2 ++ [mc; Ev_eglGetError err; make_current_warning err])).
Proof.
  intros Hi. destruct m as [g wd t]. cbn [self trace world] in *.
  unfold Resume, Resume_on_error, resuming, make_current_warning. unfold_run. cbn.
  rewrite Hi. cbn.
  destruct (on_eglCreateWindowSurface P (display_ g) (config_ g) w wd) as [s w1]; cbn.
  rewrite <- !app_assoc. cbn [app].
  match goal with
  | |- context [UpdateScreenSize P ?m1] =>
      pose proof (UpdateScreenSize_returns m1) as R; unfold result in R;
      destruct (UpdateScreenSize P m1) as [[[] | e] m2]; cbn in R; [ | discriminate ]
  end.
  cbn. 
  destruct (on_eglMakeCurrent P _ _ _ _ (world m2)) as [[|] w3]; cbn; [reflexivity |].
  destruct (on_eglGetError P w3) as [err w4]; cbn.
  rewrite <- !app_assoc. cbn [app].
  destruct (err =? EGL_CONTEXT_LOST); cbn; reflexivity.
Qed.


Lemma first_make_current_skip (pre l : list Event) :
  Forall (fun e => is_eglMakeCurrent e = false) pre ->
  first_make_current (pre ++ l) = first_make_current l.
Proof.
  induction 1 as [| e pre He _ IH]; [reflexivity |].
  destruct e; cbn in *; try exact IH. discriminate He.
Qed.

Lemma Resume_run (w : ANativeWindow) (m : Machine W) :
  egl_context_initialized_ (self m) = true ->
  let g := self m in
  exists s evsU g2 d2 s2 c2 ok,
    Forall screen_size_event evsU /\ config_ g2 = config_ g /\
    let pre := resuming :: Ev_eglCreateWindowSurface (display_ g) (config_ g) w s :: evsU in
    let mc := Ev_eglMakeCurrent d2 s2 s2 c2 ok in
    (ok = true /\
     exists m3, Resume P w m = (Ok EGL_SUCCESS, m3) /\
                trace m3 = trace m ++ pre ++ [mc] /\ self m3 = g2)
    \/
    (ok = false /\
     exists err m5, Resume P w m = Resume_on_error P err m5 /\
                    trace m5 = trace m ++ pre ++ [mc; Ev_eglGetError err; make_current_warning err]
                    /\ self m5 = g2).
Proof.
  intros Hi g. rewrite (Resume_unfold w m Hi). cbn zeta. fold g.
  destruct (on_eglCreateWindowSurface P (display_ g) (config_ g) w (world m)) as [s w1].
  match goal with
  | |- context [after (UpdateScreenSize P) ?m1] =>
      destruct (UpdateScreenSize_says P m1) as [evsU [EU FU]];
      pose proof (UpdateScreenSize_keeps_config_ P m1) as KU;
      unfold keeps in KU; cbn [self trace] in EU, KU;
      set (m2 := after (UpdateScreenSize P) m1) in *
  end.
  destruct (on_eglMakeCurrent P _ _ _ _ (world m2)) as [ok w3] eqn:Emc.
  exists s, evsU, (self m2), (display_ (self m2)), (surface_ (self m2)),
         (context_ (self m2)), ok.
  split; [exact FU |]. split; [exact KU |]. cbn zeta.
  destruct ok.
  - left. split; [reflexivity |]. eexists. split; [reflexivity |]. cbn [trace self].
    rewrite EU, <- !app_assoc. split; reflexivity.
  - right. split; [reflexivity |].
    destruct (on_eglGetError P w3) as [err w4].
    eexists err, _. split; [reflexivity |]. cbn [trace self].
    rewrite EU, <- !app_assoc. split; reflexivity.
Qed.

Lemma Resume_on_error_says err : post (only any_event) (Resume_on_error P err).
Proof.
  unfold Resume_on_error.
  pose proof (only_weaken surface_setup_event any_event (InitEGLSurface P)
                (fun _ _ => I) (InitEGLSurface_says P)).
  pose proof (only_weaken context_setup_event any_event (InitEGLContext P)
                (fun _ _ => I) (InitEGLContext_says P)).
  pose proof (only_weaken teardown_event any_event (Terminate P)
                (fun _ _ => I) (Terminate_says P)).
  frame.
Qed.

Lemma Resume_on_error_context_lost_says :
  post (only context_setup_event) (Resume_on_error P EGL_CONTEXT_LOST).
Proof.
  unfold Resume_on_error. change (EGL_CONTEXT_LOST =? EGL_CONTEXT_LOST) with true.
  cbv iota. pose proof (InitEGLContext_says P). frame.
Qed.

Lemma Resume_on_error_context_lost_keeps_config_ :
  post (keeps config_) (Resume_on_error P EGL_CONTEXT_LOST).
Proof.
  unfold Resume_on_error. change (EGL_CONTEXT_LOST =? EGL_CONTEXT_LOST) with true.
  cbv iota. pose proof (InitEGLContext_keeps_config_ P). frame.
Qed.

Lemma result_then_ret {A B} (c : M W A) (b : B) (m : Machine W) :
  result (bind c (fun _ => ret b)) m = Ok b \/
  exists what, result (bind c (fun _ => ret b)) m = Throw what.
Proof.
  unfold result, bind, ret. destruct (c m) as [[a | e] m1]; cbn; eauto.
Qed.

Lemma Resume_on_error_result err (m : Machine W) :
  result (Resume_on_error P err) m = Ok err \/
  exists what, result (Resume_on_error P err) m = Throw what.
Proof. unfold Resume_on_error. apply result_then_ret. Qed.

(** C10. On an initialized manager Resume always reaches its
    eglMakeCurrent.  When that first attempt succeeds Resume returns
    EGL_SUCCESS.  When it fails, eglGetError is the next call, and Resume
    either returns the code read there, also when the recovery that follows
    (InitEGLContext alone, or Terminate, InitEGLSurface and InitEGLContext)
    goes through, or leaves with the exception the recovery raised: it
    never turns a failed first attempt into EGL_SUCCESS unless the platform
    itself reported that code. *)
Theorem C10_Resume_returns_make_current_error (w : ANativeWindow) (m : Machine W) :
  egl_context_initialized_ (self m) = true ->
  let evs := events (Resume P w) m in
  (first_make_current evs = Some (true, None) /\
   result (Resume P w) m = Ok EGL_SUCCESS)
  \/
  (exists err,
      first_make_current evs = Some (false, Some err) /\
      (result (Resume P w) m = Ok err \/
       exists what, result (Resume P w) m = Throw what)).
Proof.
  intros Hi evs. subst evs.
  destruct (Resume_run w m Hi) as (s & evsU & g2 & d2 & s2 & c2 & ok & FU & _ & Hrun).
  cbn zeta in Hrun.
  assert (Hpre : Forall (fun e => is_eglMakeCurrent e = false) evsU).
  { eapply Forall_impl; [| exact FU].
    intros []; cbn; intros ?; first [ reflexivity | contradiction ]. }
  destruct Hrun as [[-> (m3 & Er & Et & _)] | [-> (err & m5 & Er & Et & _)]].
  - left. unfold events, result, after. rewrite Er. cbn [fst snd].
    rewrite Et, skipn_length_app. cbn.
    rewrite (first_make_current_skip _ _ Hpre). auto.
  - right. exists err. unfold events, result, after. rewrite Er.
    destruct (Resume_on_error_says err m5) as [evs' [E' _]]. unfold after in E'.
    rewrite E', Et, <- !app_assoc, skipn_length_app. cbn.
    rewrite (first_make_current_skip _ _ Hpre). cbn. split; [reflexivity |].
    apply Resume_on_error_result.
Qed.

(** ** Init and Resume on a manager that is not initialized *)

Lemma InitEGLContext_version (m : Machine W) :
  context_ (self m) = EGL_NO_CONTEXT ->
  let g' := self (after (InitEGLContext P) m) in
  major_version_ g' = 3 /\ 0 <= minor_version_ g' <= 2.
Proof.
  intros Hc. destruct m as [g w t]. cbn [self] in Hc. cbn zeta.
  unfold InitEGLContext, es_versions. cbn [InitEGLContext_loop]. unfold_run. cbn.
  rewrite Hc. cbn.
  repeat (match goal with
          | |- context [on_eglCreateContext P ?a ?b ?c ?d ?x] =>
              destruct (on_eglCreateContext P a b c d x) as [? ?]; cbn
          | |- context [on_eglMakeCurrent P ?a ?b ?c ?d ?x] =>
              destruct (on_eglMakeCurrent P a b c d x) as [[|] ?]; cbn
          | |- context [if ?b then _ else _] => destruct b eqn:?; cbn
          end); lia.
Qed.

Lemma Init_finish_keeps_major_version_ : post (keeps major_version_) (Init_finish P).
Proof. unfold Init_finish. pose proof (InitGLES_keeps_major_version_ P). frame. Qed.

Lemma Init_finish_keeps_minor_version_ : post (keeps minor_version_) (Init_finish P).
Proof. unfold Init_finish. pose proof (InitGLES_keeps_minor_version_ P). frame. Qed.

Lemma Init_finish_initialized (m m' : Machine W) (b : bool) :
  Init_finish P m = (Ok b, m') -> egl_context_initialized_ (self m') = true.
Proof.
  unfold Init_finish. unfold bind at 1.
  destruct (InitGLES P m) as [[[] | e] m1]; [ | discriminate ].
  unfold_run. cbn.
  destruct (has_glDebugMessageCallback P (world m1)); cbn.
  2: { intros H; injection H as _ <-; reflexivity. }
  destruct (on_glEnable P GL_DEBUG_OUTPUT_SYNCHRONOUS (world m1)) as [u1 w1]; cbn.
  destruct (on_glDebugMessageCallback P w1) as [u2 w2]; cbn.
  destruct (on_glGetError P w2) as [e w3]; cbn.
  destruct (negb (e =? GL_NO_ERROR)); cbn; intros H; injection H as _ <-; reflexivity.
Qed.

Lemma Init_unfold (w : ANativeWindow) (m : Machine W) :
  egl_context_initialized_ (self m) = false ->
  Init P w m =
  ((if negb (w =? nullptr)
    then InitEGLSurface P ;; InitEGLContext P ;; ret tt
    else AttachToCurrentEGLContext P) ;;
   Init_finish P)%cpp (mkMachine (set_window_ w (self m)) (world m) (trace m)).
Proof.
  intros Hi. unfold Init, Init_finish. unfold bind at 1. unfold rd at 1. rewrite Hi.
  reflexivity.
Qed.

Lemma Init_negotiates (w : ANativeWindow) (m m' : Machine W) (b : bool) :
  egl_context_initialized_ (self m) = false ->
  w <> nullptr ->
  context_ (self m) = EGL_NO_CONTEXT ->
  Init P w m = (Ok b, m') ->
  major_version_ (self m') = 3 /\ 0 <= minor_version_ (self m') <= 2 /\
  egl_context_initialized_ (self m') = true.
Proof.
  intros Hi Hw Hc E. apply Z.eqb_neq in Hw.
  rewrite (Init_unfold w m Hi), Hw in E. cbn [negb] in E.
  unfold bind at 1 in E.
  match type of E with
  | context [let (_, _) := ?c ?m1 in _] =>
      destruct (c m1) as [[[] | e] mA] eqn:EA; [ | discriminate ]
  end.
  unfold bind in EA.
  match type of EA with
  | context [InitEGLSurface P ?m1] =>
      pose proof (InitEGLSurface_keeps_context_ P m1) as K1; unfold keeps, after in K1;
      cbn [self] in K1;
      destruct (InitEGLSurface P m1) as [[a | e] m2]; cbn [snd] in K1;
      [ | discriminate ]
  end.
  pose proof (InitEGLContext_version m2 (eq_trans K1 Hc)) as V. cbn zeta in V.
  unfold after in V.
  destruct (InitEGLContext P m2) as [[a' | e] m3]; cbn [snd] in V; [ | discriminate ].
  unfold ret in EA. injection EA as <-.
  pose proof (Init_finish_keeps_major_version_ m3) as Kmaj.
  pose proof (Init_finish_keeps_minor_version_ m3) as Kmin.
  unfold keeps, after in Kmaj, Kmin. rewrite E in Kmaj, Kmin. cbn [snd] in Kmaj, Kmin.
  rewrite Kmaj, Kmin. split; [apply V |]. split; [apply V |].
  exact (Init_finish_initialized _ _ _ E).
Qed.



(** ** SwapBuffers after a context loss *)

Lemma Terminate_run (m : Machine W) :
  exists w' evs,
    Terminate P m
    = (Ok tt,
       mkMachine
         (set_context_valid_ false
            (set_surface_ EGL_NO_SURFACE
               (set_context_ EGL_NO_CONTEXT (set_display_ EGL_NO_DISPLAY (self m)))))
         w' (trace m ++ evs)).
Proof.
  destruct m as [g w t]. unfold Terminate. unfold_run. cbn.
  destruct (display_ g =? EGL_NO_DISPLAY); cbn.
  { exists w, []. now rewrite app_nil_r. }
  destruct (on_eglMakeCurrent P _ _ _ _ w) as [b0 w0]; cbn.
  destruct (context_ g =? EGL_NO_CONTEXT); cbn;
    [ | match goal with
        | |- context [on_eglDestroyContext P ?d ?c ?x] =>
            destruct (on_eglDestroyContext P d c x) as [b1 w1]; cbn
        end ];
    (destruct (surface_ g =? EGL_NO_SURFACE); cbn;
     [ | match goal with
         | |- context [on_eglDestroySurface P ?d ?s ?x] =>
             destruct (on_eglDestroySurface P d s x) as [b2 w2]; cbn
         end ]);
    match goal with
    | |- context [on_eglTerminate P ?d ?x] =>
        destruct (on_eglTerminate P d x) as [b3 w3]; cbn
    end;
    rewrite <- !app_assoc; eexists _, _; reflexivity.
Qed.

Lemma InitEGLContext_without_display (m : Machine W) :
  rejects_without_display P ->
  display_ (self m) = EGL_NO_DISPLAY ->
  context_ (self m) = EGL_NO_CONTEXT ->
  let g' := self (after (InitEGLContext P) m) in
  result (InitEGLContext P) m = Throw "Failed to create EGLContext" /\
  g' = set_minor_version_ 0 (set_major_version_ 3 (self m)).
Proof.
  intros R Hd Hc. destruct m as [g w t]. cbn [self] in *. cbn zeta.
  unfold InitEGLContext, es_versions. cbn [InitEGLContext_loop]. unfold_run. cbn.
  rewrite Hc. cbn.
  repeat (rewrite Hd;
          match goal with
          | |- context [on_eglCreateContext P EGL_NO_DISPLAY ?b ?c ?d ?x] =>
              let E := fresh "E" in
              pose proof (R b c d x) as E;
              destruct (on_eglCreateContext P EGL_NO_DISPLAY b c d x) as [? ?];
              cbn [fst] in E; rewrite E; cbn
          end).
  split; [reflexivity |].
  destruct g; cbn in *; subst; reflexivity.
Qed.

Lemma SwapBuffers_on_error_context_loss (err : EGLint) (m0 : Machine W) :
  rejects_without_display P ->
  err = EGL_CONTEXT_LOST \/ err = EGL_BAD_CONTEXT ->
  exists m3,
    SwapBuffers_on_error P err m0 = (Throw "Failed to create EGLContext", m3) /\
    self m3
    = set_minor_version_ 0
        (set_major_version_ 3
           (set_context_valid_ false
              (set_surface_ EGL_NO_SURFACE
                 (set_context_ EGL_NO_CONTEXT
                    (set_display_ EGL_NO_DISPLAY (set_context_valid_ false (self m0))))))).
Proof.
  intros R Herr. unfold SwapBuffers_on_error.
  assert (B : (err =? EGL_BAD_SURFACE) = false) by (destruct Herr; subst; reflexivity).
  assert (C : ((err =? EGL_CONTEXT_LOST) || (err =? EGL_BAD_CONTEXT)) = true)
    by (destruct Herr; subst; reflexivity).
  rewrite B, C. unfold bind at 1. unfold wr at 1. unfold bind at 1.
  match goal with
  | |- context [Terminate P ?m1] =>
      destruct (Terminate_run m1) as (w' & evs & ET); rewrite ET
  end.
  cbn [self trace]. unfold bind at 1.
  match goal with
  | |- context [InitEGLContext P ?m2] =>
      destruct (InitEGLContext_without_display m2 R eq_refl eq_refl) as [E1 E2];
      unfold result, after in E1, E2;
      destruct (InitEGLContext P m2) as [[a | e] m3]; cbn [fst snd self] in E1, E2;
      [ discriminate | ]
  end.
  injection E1 as ->. exists m3. split; [reflexivity | exact E2].
Qed.

Lemma SwapBuffers_context_loss_raises (r : Z) (m : Machine W) d i ok s err rest :
  rejects_without_display P ->
  events (SwapBuffers P r) m
  = Ev_eglSwapInterval d i ok :: Ev_eglSwapBuffers d s false :: Ev_eglGetError err :: rest ->
  err = EGL_CONTEXT_LOST \/ err = EGL_BAD_CONTEXT ->
  let g' := self (after (SwapBuffers P r) m) in
  result (SwapBuffers P r) m = Throw "Failed to create EGLContext" /\
  torn_down g' /\ (major_version_ g', minor_version_ g') = (3, 0).
Proof.
  intros R H Herr. destruct (SwapBuffers_swap_failed _ _ _ _ _ _ _ _ H) as [w0 [Eq _]].
  cbn zeta in *. unfold result, after. rewrite Eq. clear Eq H.
  match goal with
  | |- context [SwapBuffers_on_error P err ?m0] =>
      destruct (SwapBuffers_on_error_context_loss err m0 R Herr) as (m3 & E & Es)
  end.
  rewrite E. cbn [fst snd]. rewrite Es. unfold torn_down. cbn. repeat split; reflexivity.
Qed.


Lemma InitEGLContext_needs_display (m : Machine W) :
  rejects_without_display P \/ no_make_current_without_display P ->
  display_ (self m) = EGL_NO_DISPLAY ->
  context_ (self m) = EGL_NO_CONTEXT ->
  let g' := self (after (InitEGLContext P) m) in
  (exists what, result (InitEGLContext P) m = Throw what) /\
  context_valid_ g' = context_valid_ (self m) /\
  display_ g' = EGL_NO_DISPLAY /\ surface_ g' = surface_ (self m).
Proof.
  intros [R | R] Hd Hc.
  - destruct (InitEGLContext_without_display m R Hd Hc) as [E1 E2]. cbn zeta in *.
    rewrite E2. split; [eauto |]. cbn. auto.
  - destruct m as [g w t]. cbn [self] in *. cbn zeta.
    unfold InitEGLContext, es_versions. cbn [InitEGLContext_loop]. unfold_run. cbn.
    rewrite Hc. cbn.
    repeat (rewrite ?Hd;
            match goal with
            | |- context [on_eglCreateContext P ?a ?b ?c ?d ?x] =>
                destruct (on_eglCreateContext P a b c d x) as [? ?]; cbn
            | |- context [on_eglMakeCurrent P EGL_NO_DISPLAY ?b ?c ?d ?x] =>
                let E := fresh "E" in
                pose proof (R b c d x) as E;
                destruct (on_eglMakeCurrent P EGL_NO_DISPLAY b c d x) as [? ?];
                cbn [fst] in E; rewrite E; cbn
            | |- context [if ?b then _ else _] => destruct b eqn:?; cbn
            end);
      (split; [eauto |]); auto.
Qed.

Lemma SwapBuffers_on_error_context_loss_stays_lost (err : EGLint) (m0 : Machine W) :
  rejects_without_display P \/ no_make_current_without_display P ->
  err = EGL_CONTEXT_LOST \/ err = EGL_BAD_CONTEXT ->
  exists what m3,
    SwapBuffers_on_error P err m0 = (Throw what, m3) /\
    context_valid_ (self m3) = false /\
    display_ (self m3) = EGL_NO_DISPLAY /\ surface_ (self m3) = EGL_NO_SURFACE.
Proof.
  intros R Herr. unfold SwapBuffers_on_error.
  assert (B : (err =? EGL_BAD_SURFACE) = false) by (destruct Herr; subst; reflexivity).
  assert (C : ((err =? EGL_CONTEXT_LOST) || (err =? EGL_BAD_CONTEXT)) = true)
    by (destruct Herr; subst; reflexivity).
  rewrite B, C. unfold bind at 1. unfold wr at 1. unfold bind at 1.
  match goal with
  | |- context [Terminate P ?m1] =>
      destruct (Terminate_run m1) as (w' & evs & ET); rewrite ET
  end.
  cbn [self trace]. unfold bind at 1.
  match goal with
  | |- context [InitEGLContext P ?m2] =>
      destruct (InitEGLContext_needs_display m2 R eq_refl eq_refl)
        as ([what E1] & E2 & E3 & E4);
      unfold result, after in E1, E2, E3, E4;
      destruct (InitEGLContext P m2) as [[a | e] m3]; cbn [fst snd self] in E1, E2, E3, E4;
      [ discriminate | ]
  end.
  exists e, m3. split; [reflexivity |]. auto.
Qed.

(** C1 (what the code does instead).  On a platform that, as EGL requires,
    creates no context on EGL_NO_DISPLAY, or makes none current there: when
    the swap of SwapBuffers fails with EGL_CONTEXT_LOST or EGL_BAD_CONTEXT,
    SwapBuffers marks the context invalid, runs Terminate, which resets the
    display handle, and then InitEGLContext on that sentinel display.  The
    renegotiation cannot succeed: SwapBuffers leaves with the exception of
    InitEGLContext, and the context is still marked invalid, with display
    and surface at their sentinels. *)
Theorem C1_context_loss_recovery_raises (r : Z) (m : Machine W) d i ok s err rest :
  rejects_without_display P \/ no_make_current_without_display P ->
  events (SwapBuffers P r) m
  = Ev_eglSwapInterval d i ok :: Ev_eglSwapBuffers d s false :: Ev_eglGetError err :: rest ->
  err = EGL_CONTEXT_LOST \/ err = EGL_BAD_CONTEXT ->
  let g' := self (after (SwapBuffers P r) m) in
  (exists what, result (SwapBuffers P r) m = Throw what) /\
  context_valid_ g' = false /\
  display_ g' = EGL_NO_DISPLAY /\ surface_ g' = EGL_NO_SURFACE.
Proof.
  intros R H Herr. destruct (SwapBuffers_swap_failed _ _ _ _ _ _ _ _ H) as [w0 [Eq _]].
  cbn zeta in *. unfold result, after. rewrite Eq. clear Eq H.
  match goal with
  | |- context [SwapBuffers_on_error P err ?m0] =>
      destruct (SwapBuffers_on_error_context_loss_stays_lost err m0 R Herr)
        as (what & m3 & E & Es)
  end.
  rewrite E. cbn [fst snd]. split; [eauto | exact Es].
Qed.
(** ** Where the configuration comes from *)

Lemma Resume_on_error_full_recreation (err v : EGLint) (m5 m' : Machine W) :
  err <> EGL_CONTEXT_LOST ->
  Resume_on_error P err m5 = (Ok v, m') ->
  exists evs others,
    trace m' = trace m5 ++ evs /\
    In (Ev_eglChooseConfig (display_ (self m')) (config_attribs 8 (depth_size_ (self m'))) 1
          (Some (config_ (self m') :: others))) evs.
Proof.
  intros Herr H. apply Z.eqb_neq in Herr.
  unfold Resume_on_error in H. rewrite Herr in H.
  unfold bind at 1 in H.
  match type of H with
  | context [let (_, _) := ?c m5 in _] =>
      destruct (c m5) as [[[] | e] mA] eqn:EA; [ | discriminate ]
  end.
  unfold ret in H. injection H as _ <-.
  unfold bind at 1 in EA. unfold LOG_INFO_MESSAGE, emit in EA.
  unfold bind at 1 in EA.
  match type of EA with
  | context [Terminate P ?m1] =>
      destruct (Terminate_run m1) as (w' & evsT & ET); rewrite ET in EA
  end.
  cbn [self world trace] in EA.
  unfold bind at 1 in EA.
  match type of EA with
  | context [InitEGLSurface P ?m2] =>
      pose proof (InitEGLSurface_succeeded m2) as HOk;
      destruct (InitEGLSurface_says P m2) as [evsS [ES _]];
      unfold after in ES; cbn [self trace world] in HOk, ES;
      destruct (InitEGLSurface P m2) as [[a | e] m3]; [ | discriminate ]
  end.
  cbn [snd] in ES.
  destruct (HOk m3 a evsS eq_refl ES) as (_ & [others H2] & _).
  unfold bind at 1 in EA.
  pose proof (InitEGLContext_keeps_config_ P m3) as K1.
  pose proof (InitEGLContext_keeps_display_ P m3) as K2.
  pose proof (InitEGLContext_keeps_depth_size_ P m3) as K3.
  destruct (InitEGLContext_says P m3) as [evsC [EC _]].
  unfold keeps, after in K1, K2, K3, EC.
  destruct (InitEGLContext P m3) as [[a' | e] m4]; [ | discriminate ].
  cbn [snd] in *. unfold ret in EA. injection EA as <-.
  rewrite K1, K2, K3.
  eexists _, others. split.
  - rewrite EC, ES, <- !app_assoc. reflexivity.
  - apply in_or_app. right. apply in_or_app. right.
    apply in_or_app. left. exact H2.
Qed.

(** C6 (amended). Resume on an initialized manager recreates the surface
    with the stored configuration: its first platform call is
    eglCreateWindowSurface with [config_]; and when its eglMakeCurrent
    succeeds, or fails with EGL_CONTEXT_LOST, the run calls eglChooseConfig
    nowhere and leaves [config_] as it was.  The other recoveries select
    the configuration again.  When Resume's eglMakeCurrent fails with
    another code and Resume returns, and when SwapBuffers recovers from a
    surface loss without the "Failed to recreate EGL surface" line, the
    configuration the object holds afterwards is the first one of an answer
    eglChooseConfig gave during that run. *)
Theorem C6_configuration_reselected_by_InitEGLSurface (m : Machine W) :
  let g := self m in
  (forall w,
      egl_context_initialized_ g = true ->
      let evs := events (Resume P w) m in
      let g' := self (after (Resume P w) m) in
      (exists s rest,
          evs = resuming :: Ev_eglCreateWindowSurface (display_ g) (config_ g) w s :: rest) /\
      (first_make_current evs = Some (true, None) \/
       first_make_current evs = Some (false, Some EGL_CONTEXT_LOST) ->
       Forall (fun e => is_eglChooseConfig e = false) evs /\ config_ g' = config_ g) /\
      (forall err v,
          first_make_current evs = Some (false, Some err) ->
          err <> EGL_CONTEXT_LOST ->
          result (Resume P w) m = Ok v ->
          exists others,
            In (Ev_eglChooseConfig (display_ g') (config_attribs 8 (depth_size_ g')) 1
                  (Some (config_ g' :: others))) evs)) /\
  (forall r d i ok s rest,
      events (SwapBuffers P r) m
      = Ev_eglSwapInterval d i ok :: Ev_eglSwapBuffers d s false
        :: Ev_eglGetError EGL_BAD_SURFACE :: rest ->
      let g' := self (after (SwapBuffers P r) m) in
      (exists others,
          In (Ev_eglChooseConfig (display_ g') (config_attribs 8 (depth_size_ g')) 1
                (Some (config_ g' :: others))) rest)
      \/ exists pre, rest = pre ++ [recreate_failed]).
Proof.
  intros g. split.
  - intros w Hi evs g'. subst evs g'.
    destruct (Resume_run w m Hi) as (s & evsU & g2 & d2 & s2 & c2 & ok & FU & KU & Hrun).
    cbn zeta in Hrun. fold g in Hrun, KU.
    assert (Hpre : Forall (fun e => is_eglMakeCurrent e = false) evsU).
    { eapply Forall_impl; [| exact FU].
      intros []; cbn; intros ?; first [ reflexivity | contradiction ]. }
    destruct Hrun as [[-> (m3 & Er & Et & Es)] | [-> (err & m5 & Er & Et & Es)]].
    + unfold events, result, after. rewrite Er. cbn [fst snd].
      rewrite Et, skipn_length_app. cbn [app].
      split; [eauto |]. split.
      * intros _. rewrite Es. split; [| exact KU]. quiet FU.
      * cbn [first_make_current resuming].
        rewrite (first_make_current_skip _ _ Hpre). cbn. discriminate.
    + unfold events, result, after. rewrite Er.
      destruct (Resume_on_error_says err m5) as [evs' [E' _]]. unfold after in E'.
      rewrite E', Et, <- !app_assoc, skipn_length_app. cbn [app].
      split; [eauto |].
      cbn [first_make_current resuming]. rewrite (first_make_current_skip _ _ Hpre). cbn.
      split.
      * intros [H | H]; [discriminate |]. injection H as ->.
        destruct (Resume_on_error_context_lost_says m5) as [evs'' [E'' F'']].
        pose proof (Resume_on_error_context_lost_keeps_config_ m5) as K''.
        unfold after, keeps in *. rewrite E'' in E'. apply app_inv_head in E'. subst evs''.
        split; [| congruence].
        quiet FU; quiet F''.
      * intros err0 v H Hne. injection H as <-.
        destruct (Resume_on_error P err m5) as [[v' | e] m'] eqn:ER; [ | discriminate ].
        cbn [fst snd] in *. intros _.
        destruct (Resume_on_error_full_recreation err v' m5 m' Hne ER)
          as (evsR & others & ER' & HIn).
        rewrite ER' in E'. apply app_inv_head in E'. subst evs'.
        exists others. right. right. apply in_or_app. right.
        right. right. right. exact HIn.
  - intros r d i ok s rest H g'. subst g'.
    destruct (SwapBuffers_swap_failed _ _ _ _ _ _ _ _ H) as [w0 [Eq Etr]].
    cbn zeta in *. unfold after in *. rewrite Eq. clear Eq H.
    revert Etr. unfold SwapBuffers_on_error.
    change (EGL_BAD_SURFACE =? EGL_BAD_SURFACE) with true. cbv iota.
    unfold_run. cbn.
    match goal with
    | |- context [InitEGLSurface P ?m1] =>
        pose proof (InitEGLSurface_succeeded m1) as HOk;
        destruct (InitEGLSurface_says P m1) as [evs [E F]];
        unfold after in E; cbn [self trace world] in HOk, E;
        destruct (InitEGLSurface P m1) as [[a | e] m2]
    end; cbn [fst snd self trace world] in *;
      intros Etr; rewrite E, <- !app_assoc in Etr; cbn [app] in Etr;
      apply app_inv_head in Etr; injection Etr as Etr; subst rest.
    + destruct (HOk m2 a evs eq_refl E) as (_ & [others H2] & _).
      left. exists others. right. exact H2.
    + right. eexists (_ :: evs). reflexivity.
Qed.

(** * Further properties of the member functions *)

(** ** Which functions raise, and what *)

Create HintDb returns.

Lemma never_raises_bind {A B} (c : M W A) (k : A -> M W B) :
  never_raises c -> (forall a, never_raises (k a)) -> never_raises (bind c k).
Proof.
  intros Hc Hk m. destruct (Hc m) as [a Ha]. unfold result, bind in *.
  destruct (c m) as [[a' | e] m1]; cbn in Ha; [ | discriminate ].
  apply Hk.
Qed.

Lemma never_raises_call {A} (e : A -> Event) (f : W -> A * W) : never_raises (call e f).
Proof. intros m. unfold result, call. destruct (f (world m)) as [r w']. cbn. eauto. Qed.

Lemma never_raises_try_catch {A} (c : M W A) (h : string -> M W A) :
  (forall e, never_raises (h e)) -> never_raises (try_catch c h).
Proof.
  intros Hh m. unfold result, try_catch. destruct (c m) as [[a | e] m1]; cbn; eauto.
  apply Hh.
Qed.

Ltac returns_step :=
  match goal with
  | |- never_raises _ => solve [auto with returns]
  | |- never_raises (bind _ _) => apply never_raises_bind; [ | intros ? ]
  | |- never_raises (try_catch _ _) => apply never_raises_try_catch; intros ?
  | |- never_raises (call _ _) => apply never_raises_call
  | |- never_raises (ret _) => intros ?; eexists; reflexivity
  | |- never_raises (rd _) => intros ?; eexists; reflexivity
  | |- never_raises (wr _) => intros ?; eexists; reflexivity
  | |- never_raises (emit _) => intros ?; eexists; reflexivity
  | |- never_raises (glDebugMessageCallback_loaded _) => intros ?; eexists; reflexivity
  | |- never_raises (if ?b then _ else _) => destruct b
  | |- never_raises (match ?x with _ => _ end) => destruct x
  | |- never_raises _ => progress autounfold with egl
  end.

Ltac returns := repeat returns_step.

Lemma Terminate_never_raises : never_raises (Terminate P).
Proof. unfold Terminate. returns. Qed.

Lemma UpdateScreenSize_never_raises : never_raises (UpdateScreenSize P).
Proof. unfold UpdateScreenSize. returns. Qed.

Lemma InitGLES_never_raises : never_raises (InitGLES P).
Proof. unfold InitGLES. returns. Qed.

Lemma Init_finish_never_raises : never_raises (Init_finish P).
Proof. unfold Init_finish. pose proof InitGLES_never_raises. returns. Qed.

(** X1. Terminate, the destructor, Suspend, Invalidate, UpdateScreenSize,
    InitGLES and FillDeviceCaps return from every state on every platform:
    none of them can raise, whatever the platform answers. *)
Theorem X1_teardown_never_raises :
  never_raises (Terminate P) /\ never_raises (GLContext_dtor P) /\
  never_raises (Suspend P) /\ never_raises (Invalidate P) /\
  never_raises (UpdateScreenSize P) /\ never_raises (InitGLES P) /\
  never_raises (@FillDeviceCaps W).
Proof.
  pose proof Terminate_never_raises as T.
  split; [exact T |]. split; [exact T |].
  split; [unfold Suspend; returns |].
  split; [unfold Invalidate; returns |].
  split; [exact UpdateScreenSize_never_raises |].
  split; [exact InitGLES_never_raises |].
  unfold FillDeviceCaps. returns.
Qed.

Lemma raises_logged_never {A} messages (c : M W A) :
  never_raises c -> raises_logged messages c.
Proof. intros H m what E. destruct (H m) as [a Ha]. congruence. Qed.

Lemma raises_logged_bind {A B} messages (c : M W A) (k : A -> M W B) :
  raises_logged messages c -> (forall a, raises_logged messages (k a)) ->
  raises_logged messages (bind c k).
Proof.
  intros Hc Hk m what. specialize (Hc m what). unfold result, after, bind in *.
  destruct (c m) as [[a | e] m1]; cbn in *.
  - apply Hk.
  - intros E. injection E as ->. apply Hc. reflexivity.
Qed.

Lemma raises_logged_try_catch {A} messages (c : M W A) (h : string -> M W A) :
  (forall e, raises_logged messages (h e)) -> raises_logged messages (try_catch c h).
Proof.
  intros Hh m what. unfold result, after, try_catch.
  destruct (c m) as [[a | e] m1]; cbn; [discriminate |]. apply Hh.
Qed.

Lemma raises_logged_LOG_ERROR_AND_THROW {A} messages (what : string) :
  In what messages -> raises_logged messages (@LOG_ERROR_AND_THROW W A what).
Proof.
  intros Hin m what' E. cbn in E. injection E as <-. split; [exact Hin |].
  exists (trace m). reflexivity.
Qed.

Lemma raises_logged_incl {A} messages messages' (c : M W A) :
  incl messages messages' -> raises_logged messages c -> raises_logged messages' c.
Proof. intros Hi H m what E. destruct (H m what E) as [I T]. split; auto. Qed.

Ltac raises_step :=
  match goal with
  | |- raises_logged _ _ => solve [auto with returns]
  | |- raises_logged _ (bind _ _) => apply raises_logged_bind; [ | intros ? ]
  | |- raises_logged _ (try_catch _ _) => apply raises_logged_try_catch; intros ?
  | |- raises_logged _ (LOG_ERROR_AND_THROW _) =>
      apply raises_logged_LOG_ERROR_AND_THROW; cbn; tauto
  | |- raises_logged _ (if ?b then _ else _) => destruct b
  | |- raises_logged _ (match ?x with _ => _ end) => destruct x
  | |- raises_logged _ _ => apply raises_logged_never; solve [returns]
  | |- raises_logged _ _ => progress unfold choose_into_config_
  end.

Ltac raises := repeat raises_step.

Lemma InitEGLSurface_raises_logged :
  raises_logged InitEGLSurface_errors (InitEGLSurface P).
Proof. unfold InitEGLSurface. raises. Qed.

Lemma InitEGLContext_loop_never_raises vs : never_raises (InitEGLContext_loop P vs).
Proof. induction vs as [| v vs IH]; simpl; returns. Qed.

Lemma InitEGLContext_raises_logged :
  raises_logged InitEGLContext_errors (InitEGLContext P).
Proof.
  unfold InitEGLContext. pose proof (InitEGLContext_loop_never_raises es_versions).
  raises.
Qed.

Lemma AttachToCurrentEGLContext_raises_logged :
  raises_logged AttachToCurrentEGLContext_errors (AttachToCurrentEGLContext P).
Proof. unfold AttachToCurrentEGLContext. raises. Qed.

Lemma Init_raises_logged w : raises_logged Init_errors (Init P w).
Proof.
  unfold Init.
  pose proof InitGLES_never_raises as G.
  assert (S : raises_logged Init_errors (InitEGLSurface P)).
  { eapply raises_logged_incl; [| exact InitEGLSurface_raises_logged].
    unfold Init_errors. apply incl_appl, incl_refl. }
  assert (C : raises_logged Init_errors (InitEGLContext P)).
  { eapply raises_logged_incl; [| exact InitEGLContext_raises_logged].
    unfold Init_errors. apply incl_appr, incl_appl, incl_refl. }
  assert (A : raises_logged Init_errors (AttachToCurrentEGLContext P)).
  { eapply raises_logged_incl; [| exact AttachToCurrentEGLContext_raises_logged].
    unfold Init_errors. apply incl_appr, incl_appr, incl_refl. }
  raises.
Qed.

(** X2. An exception that leaves Init, Resume, the constructor or
    SwapBuffers was written to the log as an error line with the same text
    just before, and its text is one of the messages of the
    LOG_ERROR_AND_THROW sites.  Out of SwapBuffers only the two messages of
    InitEGLContext can come: what InitEGLSurface raises there is caught. *)
Theorem X2_exceptions_are_logged (w : ANativeWindow) (r : Z) :
  raises_logged Init_errors (Init P w) /\
  raises_logged Init_errors (Resume P w) /\
  raises_logged Init_errors (GLContext_ctor P w) /\
  raises_logged InitEGLContext_errors (SwapBuffers P r).
Proof.
  pose proof (Init_raises_logged w) as I.
  pose proof Terminate_never_raises as T.
  pose proof UpdateScreenSize_never_raises as U.
  split; [exact I |]. split; [| split].
  - assert (S : raises_logged Init_errors (InitEGLSurface P)).
    { eapply raises_logged_incl; [| exact InitEGLSurface_raises_logged].
      unfold Init_errors. apply incl_appl, incl_refl. }
    assert (C : raises_logged Init_errors (InitEGLContext P)).
    { eapply raises_logged_incl; [| exact InitEGLContext_raises_logged].
      unfold Init_errors. apply incl_appr, incl_appl, incl_refl. }
    unfold Resume. raises.
  - unfold GLContext_ctor, FillDeviceCaps. raises.
  - pose proof InitEGLContext_raises_logged as C.
    unfold SwapBuffers. raises.
Qed.

(** ** The GL set-up happens once *)

Lemma GLES_stays_set_up_Frame : Frame (@GLES_stays_set_up W).
Proof.
  split; unfold GLES_stays_set_up.
  - intros m H. split; [exact H |]. exists []. now rewrite app_nil_r.
  - intros a b c Hab Hbc Ha. destruct (Hab Ha) as [Hb (e1 & E1 & F1)].
    destruct (Hbc Hb) as [Hc (e2 & E2 & F2)]. split; [exact Hc |].
    exists (e1 ++ e2). split.
    + now rewrite E2, E1, app_assoc.
    + apply Forall_app. now split.
Qed.

Lemma GLES_wr (f : GLContext -> GLContext) :
  (forall g, gles_initialized_ g = true -> gles_initialized_ (f g) = true) ->
  post GLES_stays_set_up (@wr W f).
Proof.
  intros Hf m H. split; [apply Hf, H |]. exists []. cbn. now rewrite app_nil_r.
Qed.

Lemma GLES_emit (e : Event) :
  is_GLES_setup e = false -> post GLES_stays_set_up (@emit W e).
Proof. intros He m H. split; [exact H |]. exists [e]. cbn. auto. Qed.

Lemma GLES_call {A} (e : A -> Event) (f : W -> A * W) :
  (forall r, is_GLES_setup (e r) = false) -> post GLES_stays_set_up (call e f).
Proof.
  intros He m H. unfold after, call. destruct (f (world m)) as [r w'].
  split; [exact H |]. exists [e r]. cbn. auto.
Qed.

Ltac GLES_step :=
  match goal with
  | |- post GLES_stays_set_up _ => solve [auto with frames]
  | |- post _ (bind _ _) =>
      apply post_bind; [ exact GLES_stays_set_up_Frame | | intros ? ]
  | |- post _ (try_catch _ _) =>
      apply post_try_catch; [ exact GLES_stays_set_up_Frame | | intros ? ]
  | |- post _ (ret _) => intro; apply (@frame_refl _ _ GLES_stays_set_up_Frame)
  | |- post _ (throw _) => intro; apply (@frame_refl _ _ GLES_stays_set_up_Frame)
  | |- post _ (rd _) => intro; apply (@frame_refl _ _ GLES_stays_set_up_Frame)
  | |- post _ (glDebugMessageCallback_loaded _) =>
      intro; apply (@frame_refl _ _ GLES_stays_set_up_Frame)
  | |- post _ (wr (store _ ?r)) =>
      apply GLES_wr; intros ? ?; destruct r; assumption
  | |- post _ (wr _) => apply GLES_wr; intros ? ?; first [ assumption | reflexivity ]
  | |- post _ (emit _) => apply GLES_emit; reflexivity
  | |- post _ (call _ _) => apply GLES_call; intro; reflexivity
  | |- post _ (if ?b then _ else _) => destruct b
  | |- post _ (match ?x with _ => _ end) => destruct x
  | |- post _ _ => progress autounfold with egl
  end.

Ltac GLES := repeat GLES_step.

Lemma InitGLES_once : post GLES_stays_set_up (InitGLES P).
Proof.
  intros m H. unfold after, InitGLES, bind, rd. rewrite H. cbn.
  split; [exact H |]. exists []. now rewrite app_nil_r.
Qed.

Lemma InitEGLContext_loop_GLES vs : post GLES_stays_set_up (InitEGLContext_loop P vs).
Proof. induction vs as [| v vs IH]; simpl; GLES. Qed.

Lemma InitEGLSurface_GLES : post GLES_stays_set_up (InitEGLSurface P).
Proof. unfold InitEGLSurface. GLES. Qed.

Lemma InitEGLContext_GLES : post GLES_stays_set_up (InitEGLContext P).
Proof. unfold InitEGLContext. pose proof (InitEGLContext_loop_GLES es_versions). GLES. Qed.

Lemma Terminate_GLES : post GLES_stays_set_up (Terminate P).
Proof. unfold Terminate. GLES. Qed.

Lemma UpdateScreenSize_GLES : post GLES_stays_set_up (UpdateScreenSize P).
Proof. unfold UpdateScreenSize. GLES. Qed.

Lemma Init_GLES w : post GLES_stays_set_up (Init P w).
Proof.
  pose proof InitGLES_once. pose proof InitEGLSurface_GLES. pose proof InitEGLContext_GLES.
  unfold Init, AttachToCurrentEGLContext. GLES.
Qed.

Lemma GLES_left_alone_of_post {A} (c : M W A) (m : Machine W) :
  post GLES_stays_set_up c -> gles_initialized_ (self m) = true -> GLES_left_alone c m.
Proof.
  intros Hc H. destruct (Hc m H) as [H' (evs & E & F)]. split; [exact H' |].
  now rewrite (events_eq c m evs E).
Qed.

(** X3. InitGLES runs its set-up at most once per object.  From a state
    with [gles_initialized_] set, no member function clears the flag, and
    none of Init, Resume, SwapBuffers, Terminate, Suspend, Invalidate and
    UpdateScreenSize reads the GL version string, loads the GL functions or
    enables GL_FRAMEBUFFER_SRGB again: not even an Init that follows an
    Invalidate. *)
Theorem X3_GLES_setup_happens_once (m : Machine W) (w : ANativeWindow) (r : Z) :
  gles_initialized_ (self m) = true ->
  GLES_left_alone (Init P w) m /\ GLES_left_alone (Resume P w) m /\
  GLES_left_alone (SwapBuffers P r) m /\ GLES_left_alone (Terminate P) m /\
  GLES_left_alone (Suspend P) m /\ GLES_left_alone (Invalidate P) m /\
  GLES_left_alone (UpdateScreenSize P) m /\ GLES_left_alone (InitGLES P) m.
Proof.
  intros H.
  pose proof InitGLES_once as G. pose proof InitEGLSurface_GLES as S.
  pose proof InitEGLContext_GLES as C. pose proof Terminate_GLES as T.
  pose proof UpdateScreenSize_GLES as U. pose proof (Init_GLES w) as I.
  assert (R : post GLES_stays_set_up (Resume P w)) by (unfold Resume; GLES).
  assert (B : post GLES_stays_set_up (SwapBuffers P r)) by (unfold SwapBuffers; GLES).
  assert (Su : post GLES_stays_set_up (Suspend P)) by (unfold Suspend; GLES).
  assert (V : post GLES_stays_set_up (Invalidate P)) by (unfold Invalidate; GLES).
  split; [now apply GLES_left_alone_of_post |].
  split; [now apply GLES_left_alone_of_post |].
  split; [now apply GLES_left_alone_of_post |].
  split; [now apply GLES_left_alone_of_post |].
  split; [now apply GLES_left_alone_of_post |].
  split; [now apply GLES_left_alone_of_post |].
  split; now apply GLES_left_alone_of_post.
Qed.

(** ** Running against the platform, answer by answer *)

Ltac answer :=
  match goal with
  | H : (?b =? ?c) = _ |- context [if ?b =? ?c then _ else _] => rewrite H
  | H : (?b =? ?c) = _ |- context [if negb (?b =? ?c) then _ else _] => rewrite H
  | |- context [on_eglGetDisplay P ?a ?w] => destruct (on_eglGetDisplay P a w) as [? ?]
  | |- context [on_eglInitialize P ?a ?w] => destruct (on_eglInitialize P a w) as [[|] ?]
  | |- context [on_eglChooseConfig P ?a ?b ?w] =>
      destruct (on_eglChooseConfig P a b w) as [[[| ? ?] |] ?]
  | |- context [on_eglCreateWindowSurface P ?a ?b ?c ?w] =>
      destruct (on_eglCreateWindowSurface P a b c w) as [? ?]
  | |- context [on_eglQuerySurface P ?a ?b ?c ?w] =>
      destruct (on_eglQuerySurface P a b c w) as [[?|] ?]
  | |- context [on_eglGetConfigAttrib P ?a ?b ?c ?w] =>
      destruct (on_eglGetConfigAttrib P a b c w) as [[?|] ?]
  | |- context [on_ANativeWindow_setBuffersGeometry P ?a ?b ?c ?d ?w] =>
      destruct (on_ANativeWindow_setBuffersGeometry P a b c d w) as [? ?]
  | |- context [on_eglCreateContext P ?a ?b ?c ?d ?w] =>
      destruct (on_eglCreateContext P a b c d w) as [? ?]
  | |- context [on_eglMakeCurrent P ?a ?b ?c ?d ?w] =>
      destruct (on_eglMakeCurrent P a b c d w) as [[|] ?]
  | |- context [on_eglGetCurrentContext P ?w] =>
      destruct (on_eglGetCurrentContext P w) as [? ?]
  | |- context [on_eglSwapInterval P ?a ?b ?w] =>
      destruct (on_eglSwapInterval P a b w) as [? ?]
  | |- context [on_eglSwapBuffers P ?a ?b ?w] =>
      destruct (on_eglSwapBuffers P a b w) as [[|] ?]
  | |- context [on_eglGetError P ?w] => destruct (on_eglGetError P w) as [? ?]
  | |- context [on_eglDestroyContext P ?a ?b ?w] =>
      destruct (on_eglDestroyContext P a b w) as [? ?]
  | |- context [on_eglDestroySurface P ?a ?b ?w] =>
      destruct (on_eglDestroySurface P a b w) as [? ?]
  | |- context [on_eglTerminate P ?a ?w] => destruct (on_eglTerminate P a w) as [? ?]
  | |- context [on_glGetString P ?a ?w] => destruct (on_glGetString P a w) as [? ?]
  | |- context [on_glGetIntegerv P ?a ?w] => destruct (on_glGetIntegerv P a w) as [[?|] ?]
  | |- context [on_LoadGLFunctions P ?w] => destruct (on_LoadGLFunctions P w) as [? ?]
  | |- context [on_glEnable P ?a ?w] => destruct (on_glEnable P a w) as [? ?]
  | |- context [on_glGetError P ?w] => destruct (on_glGetError P w) as [? ?]
  | |- context [on_glDebugMessageCallback P ?w] =>
      destruct (on_glDebugMessageCallback P w) as [? ?]
  | |- context [has_glDebugMessageCallback P ?w] =>
      destruct (has_glDebugMessageCallback P w)
  | |- context [if ?b =? ?c then _ else _] => destruct (b =? c) eqn:?
  | |- context [if negb (?b =? ?c) then _ else _] => destruct (b =? c) eqn:?
  end.

Ltac answers := repeat (answer; cbn).

(** ** InitEGLSurface: outcome *)

Lemma InitEGLSurface_selection (m : Machine W) :
  let evs := events (InitEGLSurface P) m in
  let g' := self (after (InitEGLSurface P) m) in
  release_order evs = [] /\
  (config_choices evs = []
   \/ (exists r, config_choices evs = [(Some 24, r)] /\ r <> Some [])
   \/ (exists r, config_choices evs = [(Some 24, Some []); (Some 16, r)])) /\
  (forall b, result (InitEGLSurface P) m = Ok b ->
     b = true /\ display_ g' <> EGL_NO_DISPLAY /\ color_size_ g' = 8 /\
     exists others,
       (depth_size_ g' = 24 /\
        config_choices evs = [(Some 24, Some (config_ g' :: others))])
       \/ (depth_size_ g' = 16 /\
           config_choices evs = [(Some 24, Some []); (Some 16, Some (config_ g' :: others))])).
Proof.
  destruct m as [g w t]. cbn zeta.
  unfold InitEGLSurface. unfold_run. cbn.
  answers; trace_norm; cbn.
  all: split; [reflexivity |].
  all: split;
    [ first [ left; reflexivity
            | right; left; eexists; split; [reflexivity | discriminate]
            | right; right; eexists; reflexivity ]
    | ].
  all: intros b Hb; try discriminate Hb.
  all: injection Hb as <-.
  all: split; [reflexivity |].
  all: split; [ apply Z.eqb_neq; assumption |].
  all: split; [reflexivity |].
  all: eexists; first [ left; split; reflexivity | right; split; reflexivity ].
Qed.

(** X4. InitEGLSurface asks for a configuration with a 24-bit depth buffer
    first, and for one with 16 bits only after the platform answered the
    first request with success and no configuration; it never selects a
    third time.  When it returns it returns true with a display, a colour
    size of 8, the depth of the request that was answered, and the first
    configuration of that answer. *)
Theorem X4_InitEGLSurface_depth_fallback (m : Machine W) :
  let evs := events (InitEGLSurface P) m in
  let g' := self (after (InitEGLSurface P) m) in
  (config_choices evs = []
   \/ (exists r, config_choices evs = [(Some 24, r)] /\ r <> Some [])
   \/ (exists r, config_choices evs = [(Some 24, Some []); (Some 16, r)])) /\
  (forall b, result (InitEGLSurface P) m = Ok b ->
     b = true /\ display_ g' <> EGL_NO_DISPLAY /\ color_size_ g' = 8 /\
     exists others,
       (depth_size_ g' = 24 /\
        config_choices evs = [(Some 24, Some (config_ g' :: others))])
       \/ (depth_size_ g' = 16 /\
           config_choices evs = [(Some 24, Some []); (Some 16, Some (config_ g' :: others))])).
Proof. exact (proj2 (InitEGLSurface_selection m)). Qed.

(** ** InitEGLContext: outcome *)

Lemma InitEGLContext_outcome (m : Machine W) :
  let g := self m in
  let evs := events (InitEGLContext P) m in
  let g' := self (after (InitEGLContext P) m) in
  release_order evs = [] /\
  match result (InitEGLContext P) m with
  | Ok b =>
      b = true /\ context_valid_ g' = true /\ context_ g' <> EGL_NO_CONTEXT /\
      In (Ev_eglMakeCurrent (display_ g) (surface_ g) (surface_ g) (context_ g') true) evs
  | Throw what =>
      context_valid_ g' = context_valid_ g /\
      ((what = "Failed to create EGLContext" /\ context_ g' = EGL_NO_CONTEXT)
       \/ (what = "Unable to eglMakeCurrent" /\ context_ g' <> EGL_NO_CONTEXT))
  end.
Proof.
  destruct m as [g w t]. cbn zeta. cbn [self].
  unfold InitEGLContext, es_versions. cbn [InitEGLContext_loop]. unfold_run. cbn.
  destruct (context_ g =? EGL_NO_CONTEXT) eqn:Hc; cbn; answers; trace_norm; cbn.
  all: split; [reflexivity |].
  all: repeat match goal with
              | H : (_ =? _) = true |- _ => apply Z.eqb_eq in H
              | H : (_ =? _) = false |- _ => apply Z.eqb_neq in H
              end.
  all: first
    [ split; [reflexivity |]; split; [reflexivity |]; split; [assumption |]; find_in
    | split; [reflexivity |]; left; split; [reflexivity | assumption ]
    | split; [reflexivity |]; right; split; [reflexivity | assumption ] ].
Qed.

(** X5. InitEGLContext either returns true, and then the context handle is
    not the sentinel, it was made current on the object's surface by a
    successful eglMakeCurrent, and [context_valid_] is set; or it raises,
    and then [context_valid_] is as before and nothing was destroyed:
    "Failed to create EGLContext" with the context handle at the sentinel,
    or "Unable to eglMakeCurrent" with the handle that could not be made
    current still in [context_]. *)
Theorem X5_InitEGLContext_outcome (m : Machine W) :
  let g := self m in
  let evs := events (InitEGLContext P) m in
  let g' := self (after (InitEGLContext P) m) in
  release_order evs = [] /\
  match result (InitEGLContext P) m with
  | Ok b =>
      b = true /\ context_valid_ g' = true /\ context_ g' <> EGL_NO_CONTEXT /\
      In (Ev_eglMakeCurrent (display_ g) (surface_ g) (surface_ g) (context_ g') true) evs
  | Throw what =>
      context_valid_ g' = context_valid_ g /\
      ((what = "Failed to create EGLContext" /\ context_ g' = EGL_NO_CONTEXT)
       \/ (what = "Unable to eglMakeCurrent" /\ context_ g' <> EGL_NO_CONTEXT))
  end.
Proof. exact (InitEGLContext_outcome m). Qed.


Lemma InitEGLContext_returned (m m' : Machine W) (b : bool) :
  InitEGLContext P m = (Ok b, m') ->
  b = true /\ context_valid_ (self m') = true /\ context_ (self m') <> EGL_NO_CONTEXT.
Proof.
  intros E. pose proof (InitEGLContext_outcome m) as H. cbn zeta in H.
  unfold result, after in H. rewrite E in H. cbn [fst snd] in H.
  destruct H as (_ & Hb & Hv & Hc & _). auto.
Qed.

(** ** Init *)

Lemma InitGLES_keeps_EGL_members : post (keeps EGL_members) (InitGLES P).
Proof. unfold InitGLES. frame. Qed.

Lemma Init_finish_keeps_EGL_members : post (keeps EGL_members) (Init_finish P).
Proof. unfold Init_finish. pose proof InitGLES_keeps_EGL_members. frame. Qed.

Lemma InitEGLContext_loop_keeps_surface_members vs :
  post (keeps surface_members) (InitEGLContext_loop P vs).
Proof. induction vs as [| v vs IH]; simpl; frame. Qed.

Lemma InitEGLContext_keeps_surface_members :
  post (keeps surface_members) (InitEGLContext P).
Proof.
  unfold InitEGLContext. pose proof (InitEGLContext_loop_keeps_surface_members es_versions).
  frame.
Qed.

Lemma InitGLES_sets_flag (m : Machine W) :
  gles_initialized_ (self (after (InitGLES P) m)) = true.
Proof.
  unfold InitGLES. unfold_run. cbn.
  destruct (gles_initialized_ (self m)) eqn:H; cbn; [exact H |].
  answers; reflexivity.
Qed.

Lemma Init_finish_outcome (m m' : Machine W) (b : bool) :
  Init_finish P m = (Ok b, m') ->
  b = true /\ egl_context_initialized_ (self m') = true /\
  gles_initialized_ (self m') = true /\ EGL_members (self m') = EGL_members (self m).
Proof.
  intros E.
  pose proof (Init_finish_keeps_EGL_members m) as K. unfold keeps, after in K.
  rewrite E in K. cbn [snd] in K.
  split; [| split; [exact (Init_finish_initialized _ _ _ E) | split; [| exact K]]].
  - unfold Init_finish in E. unfold bind at 1 in E.
    destruct (InitGLES P m) as [[[] | e] m1]; [ | discriminate ].
    revert E. unfold_run. cbn. answers; intros E; injection E as <- _; reflexivity.
  - unfold Init_finish in E. unfold bind at 1 in E.
    pose proof (InitGLES_sets_flag m) as G. unfold after in G.
    destruct (InitGLES P m) as [[[] | e] m1]; [ | discriminate ]. cbn [snd] in G.
    revert E. unfold_run. cbn. answers; intros E; injection E as _ <-; exact G.
Qed.

Lemma Init_with_window_ready
    (w : ANativeWindow) (m m' : Machine W) (b : bool) :
  egl_context_initialized_ (self m) = false ->
  w <> nullptr ->
  Init P w m = (Ok b, m') ->
  b = true /\ ready (self m') /\
  egl_context_initialized_ (self m') = true /\ gles_initialized_ (self m') = true /\
  window_ (self m') = w.
Proof.
  intros Hi Hw E. apply Z.eqb_neq in Hw.
  rewrite (Init_unfold w m Hi), Hw in E. cbn [negb] in E.
  unfold bind at 1 in E.
  match type of E with
  | context [let (_, _) := ?c ?m1 in _] =>
      destruct (c m1) as [[[] | e] mA] eqn:EA; [ | discriminate ]
  end.
  unfold bind in EA.
  match type of EA with
  | context [InitEGLSurface P ?m1] =>
      pose proof (InitEGLSurface_keeps_window_ P m1) as K1; unfold keeps, after in K1;
      cbn [self] in K1;
      destruct (InitEGLSurface_says P m1) as [evs [ES _]]; unfold after in ES;
      pose proof (InitEGLSurface_succeeded m1) as S1;
      pose proof (InitEGLSurface_selection m1) as S2;
      unfold result, after in S2; cbn zeta in S2;
      destruct (InitEGLSurface P m1) as [[a | e] m2]; cbn [fst snd] in *;
      [ | discriminate ]
  end.
  destruct (S1 m2 a evs eq_refl ES) as (Hs & _).
  destruct S2 as (_ & _ & S2). destruct (S2 a eq_refl) as (_ & Hd & _).
  pose proof (InitEGLContext_keeps_surface_members m2) as K2. unfold keeps, after in K2.
  pose proof (InitEGLContext_returned m2) as C.
  destruct (InitEGLContext P m2) as [[a' | e] m3]; cbn [snd] in *; [ | discriminate ].
  unfold ret in EA. injection EA as <-.
  destruct (C m3 a' eq_refl) as (_ & Cv & Cc).
  destruct (Init_finish_outcome _ _ _ E) as (Hb & Hi' & Hg & HE).
  unfold EGL_members in HE. unfold surface_members in K2.
  injection HE; injection K2; intros.
  split; [exact Hb |]. split.
  - unfold ready. repeat split; congruence.
  - split; [exact Hi' |]. split; [exact Hg |]. cbn in K1. congruence.
Qed.

(** X6. An Init that was given a window, on a manager that is not
    initialized, and returns, returns true with the manager ready to draw:
    display, surface and context handles are not sentinels, the context is
    marked valid, both initialisation flags are set, and the window is the
    one given. *)
Theorem X6_Init_with_window_makes_ready
    (w : ANativeWindow) (m m' : Machine W) (b : bool) :
  egl_context_initialized_ (self m) = false ->
  w <> nullptr ->
  Init P w m = (Ok b, m') ->
  b = true /\ ready (self m') /\
  egl_context_initialized_ (self m') = true /\ gles_initialized_ (self m') = true /\
  window_ (self m') = w.
Proof. exact (Init_with_window_ready w m m' b). Qed.

(** ** Attaching to the host's context *)

Ltac bframe_step :=
  match goal with
  | |- post _ _ => solve [auto with frames]
  | |- post _ (bind _ _) => apply post_bind; [ exact _ | | intros ? ]
  | |- post _ (try_catch _ _) => apply post_try_catch; [ exact _ | | intros ? ]
  | |- post _ (ret _) => intro; apply frame_refl
  | |- post _ (throw _) => intro; apply frame_refl
  | |- post _ (rd _) => intro; apply frame_refl
  | |- post _ (glDebugMessageCallback_loaded _) => intro; apply frame_refl
  | |- post (only _) (wr _) => apply only_wr
  | |- post (only _) (emit _) => apply only_emit; reflexivity
  | |- post (only _) (call _ _) => apply only_call; intro; reflexivity
  | |- post _ (if ?b then _ else _) => destruct b
  | |- post _ (match ?x with _ => _ end) => destruct x
  | |- post _ _ => progress autounfold with egl
  end.

Ltac bframe := repeat bframe_step.

Lemma InitGLES_leaves_EGL : post (only (fun e => changes_EGL e = false)) (InitGLES P).
Proof. unfold InitGLES. bframe. Qed.

Lemma Init_finish_leaves_EGL : post (only (fun e => changes_EGL e = false)) (Init_finish P).
Proof. unfold Init_finish. pose proof InitGLES_leaves_EGL. bframe. Qed.

Lemma AttachToCurrentEGLContext_run (m : Machine W) :
  let g := self m in
  exists c w1,
    on_eglGetCurrentContext P (world m) = (c, w1) /\
    (c = EGL_NO_CONTEXT ->
     AttachToCurrentEGLContext P m
     = (Throw no_active_context,
        mkMachine g w1 (trace m ++ [Ev_eglGetCurrentContext c;
                                    Ev_Log Error [Str no_active_context]]))) /\
    (c <> EGL_NO_CONTEXT ->
     exists major minor w3,
       AttachToCurrentEGLContext P m
       = (Ok tt,
          mkMachine
            (set_minor_version_ (written minor (minor_version_ g))
               (set_major_version_ (written major (major_version_ g))
                  (set_context_valid_ true g)))
            w3
            (trace m ++ [Ev_eglGetCurrentContext c;
                         Ev_glGetIntegerv GL_MAJOR_VERSION major;
                         Ev_glGetIntegerv GL_MINOR_VERSION minor]))).
Proof.
  destruct m as [g w t]. cbn zeta. cbn [self world trace].
  unfold AttachToCurrentEGLContext, no_active_context. unfold_run. cbn.
  destruct (on_eglGetCurrentContext P w) as [c w1]. exists c, w1.
  split; [reflexivity |]. cbn. split.
  - intros ->. cbn. rewrite <- app_assoc. reflexivity.
  - intros Hc. apply Z.eqb_neq in Hc. rewrite Hc. cbn.
    destruct (on_glGetIntegerv P GL_MAJOR_VERSION w1) as [major w2]. cbn.
    destruct (on_glGetIntegerv P GL_MINOR_VERSION w2) as [minor w3]. cbn.
    exists major, minor, w3. rewrite <- !app_assoc.
    destruct major, minor; reflexivity.
Qed.

Lemma Init_without_window_run (m : Machine W) :
  egl_context_initialized_ (self m) = false ->
  let g := self m in
  let g' := self (after (Init P nullptr) m) in
  exists c rest,
    events (Init P nullptr) m = Ev_eglGetCurrentContext c :: rest /\
    (c = EGL_NO_CONTEXT ->
     result (Init P nullptr) m = Throw no_active_context /\
     g' = set_window_ nullptr g) /\
    (c <> EGL_NO_CONTEXT ->
     result (Init P nullptr) m = Ok true /\
     Forall (fun e => changes_EGL e = false) rest /\
     (display_ g', surface_ g', context_ g') = (display_ g, surface_ g, context_ g) /\
     context_valid_ g' = true /\ egl_context_initialized_ g' = true /\
     exists major minor others,
       rest = Ev_glGetIntegerv GL_MAJOR_VERSION major
              :: Ev_glGetIntegerv GL_MINOR_VERSION minor :: others /\
       major_version_ g' = written major (major_version_ g) /\
       minor_version_ g' = written minor (minor_version_ g)).
Proof.
  intros Hi g g'. subst g g'. unfold events, result, after.
  rewrite (Init_unfold nullptr m Hi). change (negb (nullptr =? nullptr)) with false.
  cbv iota. unfold bind.
  match goal with
  | |- context [AttachToCurrentEGLContext P ?m1] =>
      destruct (AttachToCurrentEGLContext_run m1) as (c & w1 & _ & A0 & A1)
  end.
  cbn [self world trace] in A0, A1.
  exists c. destruct (Z.eq_dec c EGL_NO_CONTEXT) as [Hc | Hc].
  - rewrite (A0 Hc). cbn [fst snd trace self]. rewrite skipn_length_app.
    eexists. split; [reflexivity |]. split; [intros _; split; reflexivity |].
    intros H. contradiction.
  - destruct (A1 Hc) as (major & minor & w3 & A). rewrite A. clear A A0 A1.
    match goal with
    | |- context [Init_finish P ?m2] =>
        destruct (Init_finish_leaves_EGL m2) as [evs [E F]];
        pose proof (Init_finish_outcome m2) as O;
        destruct (Init_finish_never_raises m2) as [b Hb];
        unfold after, result in E, O, Hb;
        destruct (Init_finish P m2) as [[b' | e] m3]; cbn [fst snd self trace] in *;
        [ | discriminate ]
    end.
    destruct (O m3 b' eq_refl) as (-> & Oi & _ & OE).
    rewrite E, <- app_assoc, skipn_length_app. cbn [app].
    eexists. split; [reflexivity |]. split; [intros H; contradiction |]. intros _.
    unfold EGL_members in OE. cbn in OE. injection OE; intros.
    split; [reflexivity |]. split; [ repeat constructor; exact F |].
    split; [ cbn in *; congruence |]. split; [assumption |]. split; [exact Oi |].
    exists major, minor, evs. split; [reflexivity |]. split; assumption.
Qed.

(** X7. Init without a window, on a manager that is not initialized, first
    asks EGL for the current context.  With none current it raises
    "Failed to attach to EGLContext: no active context" and has written
    nothing but the window member: the manager stays uninitialized.  With
    one current it returns true, marks the context valid and the manager
    initialized, makes no EGL call that creates, binds or releases
    anything, and leaves display, surface and context handles as they
    were; the version members hold what glGetIntegerv answered for
    GL_MAJOR_VERSION and GL_MINOR_VERSION, each kept as it was when its
    query failed. *)
Theorem X7_Init_without_window_attaches (m : Machine W) :
  egl_context_initialized_ (self m) = false ->
  let g := self m in
  let g' := self (after (Init P nullptr) m) in
  exists c rest,
    events (Init P nullptr) m = Ev_eglGetCurrentContext c :: rest /\
    (c = EGL_NO_CONTEXT ->
     result (Init P nullptr) m = Throw no_active_context /\
     g' = set_window_ nullptr g) /\
    (c <> EGL_NO_CONTEXT ->
     result (Init P nullptr) m = Ok true /\
     Forall (fun e => changes_EGL e = false) rest /\
     (display_ g', surface_ g', context_ g') = (display_ g, surface_ g, context_ g) /\
     context_valid_ g' = true /\ egl_context_initialized_ g' = true /\
     exists major minor others,
       rest = Ev_glGetIntegerv GL_MAJOR_VERSION major
              :: Ev_glGetIntegerv GL_MINOR_VERSION minor :: others /\
       major_version_ g' = written major (major_version_ g) /\
       minor_version_ g' = written minor (minor_version_ g)).
Proof. exact (Init_without_window_run m). Qed.

(** ** Init, a second time *)

Lemma Init_initialized (w : ANativeWindow) (m : Machine W) :
  egl_context_initialized_ (self m) = true -> Init P w m = (Ok true, m).
Proof. intros H. unfold Init. unfold_run. rewrite H. reflexivity. Qed.

Lemma Init_returned (w : ANativeWindow) (m m' : Machine W) (b : bool) :
  Init P w m = (Ok b, m') ->
  b = true /\ egl_context_initialized_ (self m') = true.
Proof.
  intros E. destruct (egl_context_initialized_ (self m)) eqn:Hi.
  - rewrite (Init_initialized w m Hi) in E. injection E as <- <-. auto.
  - rewrite (Init_unfold w m Hi) in E. unfold bind at 1 in E.
    match type of E with
    | context [let (_, _) := ?c ?m1 in _] =>
        destruct (c m1) as [[[] | e] mA]; [ | discriminate ]
    end.
    destruct (Init_finish_outcome mA m' b E) as (-> & Oi & _). auto.
Qed.

(** X8. Init runs once.  An Init that returns has returned true and left
    the manager marked initialized; from then on Init, with whatever
    window, returns true at once: it makes no platform call, writes no log
    line and no member, the new window included. *)
Theorem X8_Init_runs_once (w w' : ANativeWindow) (m m' : Machine W) (b : bool) :
  Init P w m = (Ok b, m') ->
  b = true /\ egl_context_initialized_ (self m') = true /\
  Init P w' m' = (Ok true, m').
Proof.
  intros E. destruct (Init_returned w m m' b E) as [-> Hi].
  split; [reflexivity |]. split; [exact Hi |]. exact (Init_initialized w' m' Hi).
Qed.

(** ** Suspend *)

Lemma Suspend_run (m : Machine W) :
  let g := self m in
  Suspend P m =
  if surface_ g =? EGL_NO_SURFACE then (Ok tt, logged suspending m) else
  let (ok, w1) := on_eglDestroySurface P (display_ g) (surface_ g) (world m) in
  (Ok tt, mkMachine (set_surface_ EGL_NO_SURFACE g) w1
            (trace m ++ [suspending; destroying_surface;
                         Ev_eglDestroySurface (display_ g) (surface_ g) ok])).
Proof.
  destruct m as [g w t]. cbn zeta. cbn [self world trace].
  unfold Suspend, logged, suspending, destroying_surface. unfold_run. cbn.
  destruct (surface_ g =? EGL_NO_SURFACE); cbn; [reflexivity |].
  destruct (on_eglDestroySurface P (display_ g) (surface_ g) w) as [ok w1].
  rewrite <- !app_assoc. reflexivity.
Qed.

(** X9. Suspend gives back the surface and nothing else.  With a surface
    it makes one platform call, eglDestroySurface on the display and
    surface of the object, without unbinding the surface first and
    whatever that call answers, and sets the surface handle to its
    sentinel; without one it only writes its log line.  Every other member
    is as before, the context and the initialized flag included, and a
    second Suspend makes no platform call. *)
Theorem X9_Suspend_gives_back_the_surface (m : Machine W) :
  let g := self m in
  let m' := after (Suspend P) m in
  result (Suspend P) m = Ok tt /\
  surface_ (self m') = EGL_NO_SURFACE /\
  but_surface (self m') = but_surface g /\
  (exists ok,
     filter is_call (events (Suspend P) m) =
     if surface_ g =? EGL_NO_SURFACE then []
     else [Ev_eglDestroySurface (display_ g) (surface_ g) ok]) /\
  Suspend P m' = (Ok tt, logged suspending m').
Proof.
  cbn zeta.
  assert (S : surface_ (self (after (Suspend P) m)) = EGL_NO_SURFACE).
  { unfold after. rewrite Suspend_run. cbn zeta.
    destruct (surface_ (self m) =? EGL_NO_SURFACE) eqn:E.
    - apply Z.eqb_eq in E. exact E.
    - destruct (on_eglDestroySurface P _ _ _); reflexivity. }
  split; [| split; [exact S | split; [| split]]].
  - unfold result. rewrite Suspend_run. cbn zeta.
    destruct (surface_ (self m) =? EGL_NO_SURFACE); [reflexivity |].
    destruct (on_eglDestroySurface P _ _ _); reflexivity.
  - unfold after. rewrite Suspend_run. cbn zeta.
    destruct (surface_ (self m) =? EGL_NO_SURFACE); [reflexivity |].
    destruct (on_eglDestroySurface P _ _ _); reflexivity.
  - unfold events, after. rewrite Suspend_run. cbn zeta.
    destruct (surface_ (self m) =? EGL_NO_SURFACE).
    + exists true. cbn. rewrite skipn_length_app. reflexivity.
    + destruct (on_eglDestroySurface P _ _ _) as [ok w1]. exists ok.
      cbn. rewrite skipn_length_app. reflexivity.
  - rewrite (Suspend_run (after (Suspend P) m)). cbn zeta. rewrite S. reflexivity.
Qed.

(** ** Invalidate *)

Lemma Terminate_calls (m : Machine W) :
  exists w' answers,
    Terminate P m
    = (Ok tt,
       mkMachine
         (set_context_valid_ false
            (set_surface_ EGL_NO_SURFACE
               (set_context_ EGL_NO_CONTEXT (set_display_ EGL_NO_DISPLAY (self m)))))
         w' (trace m ++ teardown_calls (self m) answers)).
Proof.
  destruct m as [g w t]. unfold Terminate, teardown_calls. unfold_run. cbn.
  destruct (display_ g =? EGL_NO_DISPLAY); cbn.
  { exists w, (true, true, true, true). now rewrite app_nil_r. }
  destruct (on_eglMakeCurrent P _ _ _ _ w) as [b0 w0]; cbn.
  destruct (context_ g =? EGL_NO_CONTEXT); cbn;
    [ | match goal with
        | |- context [on_eglDestroyContext P ?d ?c ?x] =>
            destruct (on_eglDestroyContext P d c x) as [b1 w1]; cbn
        end ];
    (destruct (surface_ g =? EGL_NO_SURFACE); cbn;
     [ | match goal with
         | |- context [on_eglDestroySurface P ?d ?s ?x] =>
             destruct (on_eglDestroySurface P d s x) as [b2 w2]; cbn
         end ]);
    match goal with
    | |- context [on_eglTerminate P ?d ?x] =>
        destruct (on_eglTerminate P d x) as [b3 w3]; cbn
    end;
    rewrite ?app_nil_r; repeat rewrite <- app_assoc; cbn [app].
  - exists w3, (b0, true, true, b3). reflexivity.
  - exists w3, (b0, true, b2, b3). reflexivity.
  - exists w3, (b0, b1, true, b3). reflexivity.
  - exists w3, (b0, b1, b2, b3). reflexivity.
Qed.

Lemma Invalidate_run (m : Machine W) :
  exists w' answers,
    Invalidate P m
    = (Ok true,
       mkMachine
         (set_egl_context_initialized_ false
            (set_context_valid_ false
               (set_surface_ EGL_NO_SURFACE
                  (set_context_ EGL_NO_CONTEXT (set_display_ EGL_NO_DISPLAY (self m))))))
         w' (trace m ++ invalidating :: teardown_calls (self m) answers)).
Proof.
  destruct (Terminate_calls (logged invalidating m)) as (w' & answers & E).
  exists w', answers. unfold Invalidate.
  unfold bind at 1. unfold LOG_INFO_MESSAGE, emit at 1. fold invalidating.
  change (mkMachine (self m) (world m) (trace m ++ [invalidating]))
    with (logged invalidating m).
  unfold bind at 1. rewrite E. unfold_run. cbn. rewrite <- app_assoc. reflexivity.
Qed.

Lemma Invalidate_without_display (m : Machine W) :
  display_ (self m) = EGL_NO_DISPLAY ->
  Invalidate P m
  = (Ok true,
     mkMachine
       (set_egl_context_initialized_ false
          (set_context_valid_ false
             (set_surface_ EGL_NO_SURFACE
                (set_context_ EGL_NO_CONTEXT (set_display_ EGL_NO_DISPLAY (self m))))))
       (world m) (trace m ++ [invalidating])).
Proof.
  intros H. unfold Invalidate, Terminate, invalidating. unfold_run. cbn. rewrite H.
  reflexivity.
Qed.

(** X10. Invalidate returns true and never raises.  It writes its log
    line, then, if the object holds a display, unbinds whatever is current
    on it, destroys the context and the surface it holds, in this order,
    and closes the display connection, whatever the platform answers to
    any of these; without a display it makes no platform call, even when
    the object holds a context or a surface.  Afterwards the three handles
    are at their sentinels, the context is marked invalid and the manager
    is not initialized, while the cached configuration, sizes, versions
    and the GLES flag are as before.  A second Invalidate only writes its
    log line. *)
Theorem X10_Invalidate_tears_down (m : Machine W) :
  let g := self m in
  let m' := after (Invalidate P) m in
  result (Invalidate P) m = Ok true /\
  (exists answers, events (Invalidate P) m = invalidating :: teardown_calls g answers) /\
  torn_down (self m') /\ egl_context_initialized_ (self m') = false /\
  cached_members (self m') = cached_members g /\
  Invalidate P m' = (Ok true, logged invalidating m').
Proof.
  cbn zeta. destruct (Invalidate_run m) as (w' & answers & E).
  unfold result, events. unfold after in *. rewrite E in *. cbn [fst snd self trace] in *.
  split; [reflexivity |]. split; [exists answers; apply skipn_length_app |].
  split; [repeat split |]. split; [reflexivity |]. split; [reflexivity |].
  rewrite Invalidate_without_display by reflexivity. reflexivity.
Qed.

(** ** The constructor and the destructor *)

Lemma GLContext_ctor_unfold (w : ANativeWindow) (m : Machine W) :
  GLContext_ctor P w m =
  let (r, m1) := Init P w (mkMachine (constructed (self m)) (world m) (trace m)) in
  match r with
  | Ok _ => (Ok (RENDER_DEVICE_TYPE_GLES, major_version_ (self m1), minor_version_ (self m1)), m1)
  | Throw what => (Throw what, m1)
  end.
Proof.
  unfold GLContext_ctor. unfold bind at 1. unfold wr at 1. unfold bind at 1.
  destruct (Init P w _) as [[b | what] m1]; reflexivity.
Qed.

Lemma Terminate_without_display (m : Machine W) :
  display_ (self m) = EGL_NO_DISPLAY ->
  Terminate P m
  = (Ok tt,
     mkMachine
       (set_context_valid_ false
          (set_surface_ EGL_NO_SURFACE
             (set_context_ EGL_NO_CONTEXT (set_display_ EGL_NO_DISPLAY (self m)))))
       (world m) (trace m)).
Proof.
  intros H. unfold Terminate. unfold_run. cbn. rewrite H. cbn. rewrite ?app_nil_r. reflexivity.
Qed.

(** X11. A constructor that was given a window and returns leaves a
    manager ready to draw on that window, with both initialisation flags
    set, and reports through FillDeviceCaps the ES backend with the
    version Init negotiated: major version 3 and a minor version between
    0 and 2, the same pair the version members hold. *)
Theorem X11_constructor_with_window
    (w : ANativeWindow) (m m' : Machine W) (caps : RENDER_DEVICE_TYPE * Z * Z) :
  w <> nullptr ->
  GLContext_ctor P w m = (Ok caps, m') ->
  ready (self m') /\ window_ (self m') = w /\
  egl_context_initialized_ (self m') = true /\ gles_initialized_ (self m') = true /\
  caps = (RENDER_DEVICE_TYPE_GLES, major_version_ (self m'), minor_version_ (self m')) /\
  major_version_ (self m') = 3 /\ 0 <= minor_version_ (self m') <= 2.
Proof.
  intros Hw E. rewrite GLContext_ctor_unfold in E.
  destruct (Init P w _) as [[b | what] m1] eqn:EI; [ | discriminate ].
  injection E as <- <-.
  pose (m0 := mkMachine (constructed (self m)) (world m) (trace m)).
  destruct (Init_with_window_ready w m0 m1 b eq_refl Hw EI) as (_ & R & I1 & I2 & Ww).
  destruct (Init_negotiates w m0 m1 b eq_refl Hw eq_refl EI) as (V1 & V2 & _).
  auto 10.
Qed.

(** X12. A constructor that was given no window and returns has attached
    to the context the host made current, and owns nothing: display,
    surface and context handles are at their sentinels, although the
    context is marked valid and the manager initialized.  The versions it
    reports through FillDeviceCaps are what glGetIntegerv answered, 0
    where a query failed.  On such a manager SwapBuffers only writes its
    no-surface warning, and the destructor makes no platform call: the
    host's context is neither unbound nor destroyed. *)
Theorem X12_constructor_without_window
    (m m' : Machine W) (caps : RENDER_DEVICE_TYPE * Z * Z) (r : Z) :
  GLContext_ctor P nullptr m = (Ok caps, m') ->
  (exists c major minor others,
     c <> EGL_NO_CONTEXT /\
     events (GLContext_ctor P nullptr) m
     = Ev_eglGetCurrentContext c :: Ev_glGetIntegerv GL_MAJOR_VERSION major
       :: Ev_glGetIntegerv GL_MINOR_VERSION minor :: others /\
     Forall (fun e => changes_EGL e = false) others /\
     caps = (RENDER_DEVICE_TYPE_GLES, written major 0, written minor 0)) /\
  (display_ (self m'), surface_ (self m'), context_ (self m'))
  = (EGL_NO_DISPLAY, EGL_NO_SURFACE, EGL_NO_CONTEXT) /\
  context_valid_ (self m') = true /\ egl_context_initialized_ (self m') = true /\
  SwapBuffers P r m' = (Ok tt, logged no_surface_warning m') /\
  events (GLContext_dtor P) m' = [].
Proof.
  intros E.
  assert (Ev : events (GLContext_ctor P nullptr) m
               = events (Init P nullptr) (mkMachine (constructed (self m)) (world m) (trace m))).
  { unfold events, after. rewrite GLContext_ctor_unfold.
    destruct (Init P nullptr _) as [[b | what] m1]; reflexivity. }
  rewrite Ev. rewrite GLContext_ctor_unfold in E.
  destruct (Init_without_window_run
              (mkMachine (constructed (self m)) (world m) (trace m)) eq_refl)
    as (c & rest & Hev & H0 & H1).
  cbn zeta in H0, H1. unfold result, after in H0, H1.
  destruct (Init P nullptr _) as [[b | what] m1] eqn:EI; [ | discriminate ].
  injection E as <- <-. cbn [fst snd] in H0, H1.
  destruct (Z.eq_dec c EGL_NO_CONTEXT) as [Hc | Hc];
    [ destruct (H0 Hc) as [? _]; discriminate | ].
  destruct (H1 Hc) as (_ & F & Hh & Hv & Hi & major & minor & others & -> & Hma & Hmi).
  cbn [self constructed] in Hh, Hma, Hmi.
  injection Hh as Hd Hs Hx.
  split; [| split; [| split; [exact Hv | split; [exact Hi | split]]]].
  - exists c, major, minor, others. split; [exact Hc |]. split; [exact Hev |].
    split; [ inversion F as [| ? ? _ F1]; inversion F1; assumption |].
    rewrite Hma, Hmi. reflexivity.
  - cbn in Hd, Hs, Hx. rewrite Hd, Hs, Hx. reflexivity.
  - rewrite SwapBuffers_unfold. cbn zeta. rewrite Hs. reflexivity.
  - unfold GLContext_dtor, events, after.
    rewrite Terminate_without_display by exact Hd. cbn. apply skipn_all.
Qed.

(** ** SwapBuffers: what a failed swap leads to *)

Lemma SwapBuffers_on_error_other (err : EGLint) (m : Machine W) :
  err <> EGL_BAD_SURFACE -> err <> EGL_CONTEXT_LOST -> err <> EGL_BAD_CONTEXT ->
  SwapBuffers_on_error P err m = (Ok tt, m).
Proof.
  intros H1 H2 H3. apply Z.eqb_neq in H1, H2, H3.
  unfold SwapBuffers_on_error. rewrite H1, H2, H3. reflexivity.
Qed.

(** X13. With a surface, SwapBuffers sets the swap interval to the request
    raised to the cached minimum and then lowered to the cached maximum,
    and swaps, whatever eglSwapInterval answered.  After a successful swap
    it returns at once.  After a failed one it reads the error code, and
    a code other than EGL_BAD_SURFACE, EGL_CONTEXT_LOST and
    EGL_BAD_CONTEXT is dropped: nothing is logged, no member is written,
    nothing is raised, and the caller cannot tell the frame was not
    presented. *)
Theorem X13_SwapBuffers_drops_other_errors (r : Z) (m : Machine W) :
  surface_ (self m) <> EGL_NO_SURFACE ->
  let g := self m in
  let i := Z.min (Z.max r (min_swap_interval_ g)) (max_swap_interval_ g) in
  let unchanged := result (SwapBuffers P r) m = Ok tt /\ self (after (SwapBuffers P r) m) = g in
  exists ok b rest,
    events (SwapBuffers P r) m
    = Ev_eglSwapInterval (display_ g) i ok :: Ev_eglSwapBuffers (display_ g) (surface_ g) b
      :: rest /\
    (b = true -> rest = [] /\ unchanged) /\
    (b = false ->
     exists err rest',
       rest = Ev_eglGetError err :: rest' /\
       (err <> EGL_BAD_SURFACE -> err <> EGL_CONTEXT_LOST -> err <> EGL_BAD_CONTEXT ->
        rest' = [] /\ unchanged)).
Proof.
  intros Hs. cbn zeta. apply Z.eqb_neq in Hs.
  unfold events, result, after. rewrite SwapBuffers_unfold. cbn zeta. rewrite Hs.
  destruct (on_eglSwapInterval P _ _ _) as [ok w1].
  destruct (on_eglSwapBuffers P _ _ _) as [b w2].
  exists ok, b. destruct b.
  - exists []. cbn [fst snd self trace]. rewrite skipn_length_app.
    split; [reflexivity |]. split; [auto | discriminate].
  - destruct (on_eglGetError P w2) as [err w3].
    match goal with
    | |- context [SwapBuffers_on_error P err ?m0] =>
        destruct (SwapBuffers_on_error_says err m0) as [evs [E _]];
        pose proof (SwapBuffers_on_error_other err m0) as O;
        unfold after in E;
        destruct (SwapBuffers_on_error P err m0) as [res m'];
        cbn [fst snd self trace] in *
    end.
    rewrite E, <- app_assoc, skipn_length_app. cbn [app].
    exists (Ev_eglGetError err :: evs). split; [reflexivity |].
    split; [discriminate |]. intros _. exists err, evs. split; [reflexivity |].
    intros H1 H2 H3. specialize (O H1 H2 H3). injection O as -> ->.
    cbn [trace self] in *. split; [| auto].
    apply (app_inv_head (trace m ++ [Ev_eglSwapInterval (display_ (self m))
             (Z.min (Z.max r (min_swap_interval_ (self m))) (max_swap_interval_ (self m))) ok;
             Ev_eglSwapBuffers (display_ (self m)) (surface_ (self m)) false;
             Ev_eglGetError err])).
    rewrite app_nil_r. symmetry. exact E.
Qed.

Lemma InitEGLSurface_releases_nothing (m : Machine W) :
  release_order (events (InitEGLSurface P) m) = [].
Proof. exact (proj1 (InitEGLSurface_selection m)). Qed.

(** X14. The recovery from a lost surface gives nothing back.  When the
    swap fails with EGL_BAD_SURFACE, SwapBuffers runs InitEGLSurface again
    and returns whether or not that worked; in the whole run there is no
    eglDestroySurface, eglDestroyContext or eglTerminate: the handle of the
    lost surface is overwritten or kept, never destroyed, and the display
    connection is initialised again without having been closed. *)
Theorem X14_surface_recovery_releases_nothing (r : Z) (m : Machine W) d i ok s rest :
  events (SwapBuffers P r) m
  = Ev_eglSwapInterval d i ok :: Ev_eglSwapBuffers d s false
    :: Ev_eglGetError EGL_BAD_SURFACE :: rest ->
  release_order (events (SwapBuffers P r) m) = [] /\
  (In recreate_failed rest \/
   exists d' cfg s', In (Ev_eglCreateWindowSurface d' cfg (window_ (self m)) s') rest /\
                     surface_ (self (after (SwapBuffers P r) m)) = s' /\ s' <> EGL_NO_SURFACE).
Proof.
  intros H. rewrite H.
  destruct (SwapBuffers_swap_failed _ _ _ _ _ _ _ _ H) as [w0 [Eq Etr]].
  cbn zeta in *. unfold after in *. rewrite Eq. clear Eq H.
  revert Etr. unfold SwapBuffers_on_error.
  change (EGL_BAD_SURFACE =? EGL_BAD_SURFACE) with true. cbv iota.
  unfold bind at 1 2. unfold LOG_INFO_MESSAGE, emit at 1 2. unfold try_catch. unfold bind at 1 2.
  match goal with
  | |- context [InitEGLSurface P ?m1] =>
      pose proof (InitEGLSurface_releases_nothing m1) as R;
      pose proof (InitEGLSurface_Ok m1) as O;
      destruct (InitEGLSurface_says P m1) as [evs [E _]];
      unfold events, result, after in R, O; unfold after in E;
      destruct (InitEGLSurface P m1) as [[b | what] m2]; cbn [fst snd self trace] in *
  end.
  - rewrite E, skipn_length_app in R, O.
    unfold ret. cbn [fst snd trace self]. rewrite E, <- !app_assoc. intros Etr.
    apply app_inv_head in Etr. cbn [app] in Etr. injection Etr as Etr. subst rest.
    split; [ cbn; exact R |]. right.
    destruct (O b eq_refl) as (Hs & _ & Hin & _).
    exists (display_ (self m2)), (config_ (self m2)), (surface_ (self m2)).
    split; [right; exact Hin |]. split; [reflexivity | exact Hs].
  - rewrite E, skipn_length_app in R.
    unfold LOG_ERROR_MESSAGE, emit. cbn [fst snd trace self]. rewrite E, <- !app_assoc.
    intros Etr. apply app_inv_head in Etr. cbn [app] in Etr. injection Etr as Etr.
    subst rest. split.
    + cbn. unfold release_order in *. rewrite flat_map_app, R. reflexivity.
    + left. apply in_cons, in_or_app. right. left. reflexivity.
Qed.

(** ** Resume *)

Lemma UpdateScreenSize_keeps_but_screen_size :
  post (keeps but_screen_size) (UpdateScreenSize P).
Proof. unfold UpdateScreenSize. frame. Qed.

Lemma InitEGLContext_loop_keeps_window_ vs : post (keeps window_) (InitEGLContext_loop P vs).
Proof. induction vs as [| [major minor] vs IH]; cbn [InitEGLContext_loop]; frame. Qed.

Lemma InitEGLContext_keeps_window_ : post (keeps window_) (InitEGLContext P).
Proof. unfold InitEGLContext. pose proof InitEGLContext_loop_keeps_window_. frame. Qed.

Lemma Terminate_keeps_window_ : post (keeps window_) (Terminate P).
Proof. unfold Terminate. frame. Qed.

Lemma AttachToCurrentEGLContext_keeps_window_ :
  post (keeps window_) (AttachToCurrentEGLContext P).
Proof. unfold AttachToCurrentEGLContext. frame. Qed.

Lemma InitGLES_keeps_window_ : post (keeps window_) (InitGLES P).
Proof. unfold InitGLES. frame. Qed.

Lemma Init_finish_keeps_window_ : post (keeps window_) (Init_finish P).
Proof. unfold Init_finish. pose proof InitGLES_keeps_window_. frame. Qed.

Lemma Resume_on_error_keeps_window_ err : post (keeps window_) (Resume_on_error P err).
Proof.
  unfold Resume_on_error.
  pose proof Terminate_keeps_window_. pose proof InitEGLContext_keeps_window_.
  pose proof (InitEGLSurface_keeps_window_ P). frame.
Qed.

Lemma Init_rest_keeps_window_ (w : ANativeWindow) :
  post (keeps window_)
    ((if negb (w =? nullptr)
      then InitEGLSurface P ;; InitEGLContext P ;; ret tt
      else AttachToCurrentEGLContext P) ;;
     Init_finish P)%cpp.
Proof.
  pose proof AttachToCurrentEGLContext_keeps_window_. pose proof InitEGLContext_keeps_window_.
  pose proof (InitEGLSurface_keeps_window_ P). pose proof Init_finish_keeps_window_. frame.
Qed.


(** X15. Resume always stores the window it was given: whatever path it
    takes and whether it returns or raises, the window member afterwards
    is the argument. *)
Theorem X15_Resume_stores_the_window (w : ANativeWindow) (m : Machine W) :
  window_ (self (after (Resume P w) m)) = w.
Proof.
  destruct (egl_context_initialized_ (self m)) eqn:Hi.
  - unfold after. rewrite (Resume_unfold w m Hi). cbn zeta.
    destruct (on_eglCreateWindowSurface P _ _ _ _) as [s w1].
    match goal with
    | |- context [after (UpdateScreenSize P) ?m1] =>
        pose proof (UpdateScreenSize_keeps_but_screen_size m1) as K;
        unfold keeps in K; cbn [self] in K;
        assert (Kw : window_ (self (after (UpdateScreenSize P) m1)) = w)
          by (unfold but_screen_size in K; cbn in K; congruence);
        clear K; generalize dependent (after (UpdateScreenSize P) m1)
    end.
    intros m2 Kw.
    destruct (on_eglMakeCurrent P _ _ _ _ _) as [[] w3]; [exact Kw |].
    destruct (on_eglGetError P w3) as [err w4].
    match goal with
    | |- context [Resume_on_error P err ?m4] =>
        pose proof (Resume_on_error_keeps_window_ err m4) as K4
    end.
    unfold keeps, after in K4. cbn [self] in K4. rewrite K4. exact Kw.
  - unfold after, Resume. unfold bind at 1 2. unfold LOG_INFO_MESSAGE, emit, rd.
    cbn [self]. rewrite Hi. cbn [negb]. unfold bind at 1.
    rewrite Init_unfold by exact Hi.
    cbn [self world trace].
    match goal with
    | |- context [bind ?c ?k ?m1] =>
        pose proof (Init_rest_keeps_window_ w m1) as K;
        unfold keeps, after in K;
        destruct (bind c k m1) as [[b | what] m2]
    end; exact K.
Qed.


(** ** The debug-message callback *)










(** ** Invalidate, then Resume *)

Lemma Resume_uninitialized (w : ANativeWindow) (m : Machine W) :
  egl_context_initialized_ (self m) = false ->
  Resume P w m
  = (match result (Init P w) (logged resuming m) with
     | Ok _ => Ok EGL_SUCCESS
     | Throw what => Throw what
     end,
     after (Init P w) (logged resuming m)).
Proof.
  intros Hi. unfold Resume, result, after. unfold bind at 1 2.
  unfold LOG_INFO_MESSAGE, emit, rd. fold resuming. cbn [self]. rewrite Hi. cbn [negb].
  unfold bind at 1. unfold logged.
  destruct (Init P w _) as [[b | what] m1]; reflexivity.
Qed.

(** X18. Invalidate followed by Resume with a window is a full
    re-initialisation.  Invalidate leaves the manager uninitialized with
    no context, so Resume goes through Init; when it returns, it returns
    EGL_SUCCESS with the manager ready to draw on the new window, marked
    initialized, and holding the version Init negotiated again: major
    version 3, minor version between 0 and 2. *)
Theorem X18_Invalidate_then_Resume_reinitializes
    (w : ANativeWindow) (m m' : Machine W) (v : EGLint) :
  w <> nullptr ->
  Resume P w (after (Invalidate P) m) = (Ok v, m') ->
  v = EGL_SUCCESS /\ ready (self m') /\ window_ (self m') = w /\
  egl_context_initialized_ (self m') = true /\ gles_initialized_ (self m') = true /\
  major_version_ (self m') = 3 /\ 0 <= minor_version_ (self m') <= 2.
Proof.
  intros Hw E.
  destruct (Invalidate_run m) as (w1 & answers & EI).
  unfold after in E. rewrite EI in E. cbn [snd] in E.
  rewrite Resume_uninitialized in E by reflexivity.
  unfold result, after in E.
  match type of E with
  | context [Init P w ?m0] =>
      pose proof (Init_with_window_ready w m0) as R;
      pose proof (Init_negotiates w m0) as N;
      destruct (Init P w m0) as [[b | what] m1]; cbn [fst snd] in E; [ | discriminate ]
  end.
  injection E as <- <-.
  destruct (R m1 b eq_refl Hw eq_refl) as (_ & Rd & I1 & I2 & Ww).
  destruct (N m1 b eq_refl Hw eq_refl eq_refl) as (V1 & V2 & _).
  auto 10.
Qed.

(** ** InitEGLSurface: what a failure leaves behind *)


(** X19. An InitEGLSurface that raises has still written part of the
    object.  The display member holds what eglGetDisplay answered: the
    sentinel exactly when the message is "No EGL display found".  The
    surface member is set to the sentinel when the message is "Failed to
    create EGLSurface", and keeps the handle it had, a lost one included,
    for every other message.  The cached screen size and swap interval
    bounds are as before. *)
Theorem X19_InitEGLSurface_failure_state (m : Machine W) (what : string) :
  result (InitEGLSurface P) m = Throw what ->
  let g := self m in
  let g' := self (after (InitEGLSurface P) m) in
  (what = no_display_found <-> display_ g' = EGL_NO_DISPLAY) /\
  (what = surface_not_created -> surface_ g' = EGL_NO_SURFACE) /\
  (what <> surface_not_created -> surface_ g' = surface_ g) /\
  surface_cache g' = surface_cache g.
Proof.
  destruct m as [g w t]. cbn zeta. revert what.
  unfold InitEGLSurface, no_display_found, surface_not_created, surface_cache.
  unfold_run. cbn.
  answers; intros what H; try discriminate H; injection H as <-.
  all: repeat match goal with
              | H : (_ =? _) = true |- _ => apply Z.eqb_eq in H
              | H : (_ =? _) = false |- _ => apply Z.eqb_neq in H
              end.
  all: split; [ split; intros E; first [ discriminate E | assumption | reflexivity
                                        | contradiction ] |].
  all: split; [ intros E; first [ discriminate E | assumption ] |].
  all: split; [ intros E; first [ reflexivity | exfalso; apply E; reflexivity ] |].
  all: reflexivity.
Qed.


(** ** Resume on a manager that is not initialized *)

Lemma attempts_app (evs evs' : list Event) :
  attempts (evs ++ evs') = attempts evs ++ attempts evs'.
Proof. apply flat_map_app. Qed.

Lemma attempts_surface_setup (evs : list Event) :
  Forall surface_setup_event evs -> attempts evs = [].
Proof.
  induction 1 as [| e evs He _ IH]; [reflexivity |].
  change (attempts (e :: evs)) with (attempt e ++ attempts evs). rewrite IH.
  destruct e; cbn in *; try contradiction; reflexivity.
Qed.

Lemma attempts_quiet (evs : list Event) :
  Forall (fun e => changes_EGL e = false) evs -> attempts evs = [].
Proof.
  induction 1 as [| e evs He _ IH]; [reflexivity |].
  change (attempts (e :: evs)) with (attempt e ++ attempts evs). rewrite IH.
  destruct e; cbn in *; try discriminate He; reflexivity.
Qed.

Lemma InitEGLSurface_keeps_major_version_ : post (keeps major_version_) (InitEGLSurface P).
Proof. unfold InitEGLSurface. frame. Qed.

Lemma InitEGLSurface_keeps_minor_version_ : post (keeps minor_version_) (InitEGLSurface P).
Proof. unfold InitEGLSurface. frame. Qed.

Lemma Init_says (w : ANativeWindow) : post (only any_event) (Init P w).
Proof.
  unfold Init.
  pose proof (only_weaken surface_setup_event any_event (InitEGLSurface P)
                (fun _ _ => I) (InitEGLSurface_says P)).
  pose proof (only_weaken context_setup_event any_event (InitEGLContext P)
                (fun _ _ => I) (InitEGLContext_says P)).
  assert (post (only any_event) (AttachToCurrentEGLContext P))
    by (unfold AttachToCurrentEGLContext; frame).
  assert (post (only any_event) (InitGLES P)) by (unfold InitGLES; frame).
  frame.
Qed.

(* Entered without a context, InitEGLContext leaves in the version members
   the version of its last creation attempt and in the context member the
   answer to it; every attempt before the last one failed. *)
Lemma InitEGLContext_negotiation (m : Machine W) :
  context_ (self m) = EGL_NO_CONTEXT ->
  let g' := self (after (InitEGLContext P) m) in
  exists failed,
    attempts (events (InitEGLContext P) m)
    = map (fun v => (v, EGL_NO_CONTEXT)) failed
      ++ [((major_version_ g', minor_version_ g'), context_ g')].
Proof.
  intros Hc. destruct m as [g w t]. cbn [self] in Hc. cbn zeta.
  unfold InitEGLContext, es_versions. cbn [InitEGLContext_loop]. unfold_run. cbn.
  rewrite Hc. cbn.
  answers; trace_norm; cbn;
    repeat match goal with
           | H : (_ =? _) = true |- _ => apply Z.eqb_eq in H; subst
           end.
  all: first [ exists []; reflexivity
             | exists [(3, 2)]; reflexivity
             | exists [(3, 2); (3, 1)]; reflexivity ].
Qed.

(* What an Init with a window negotiates. *)
Lemma Init_with_window_attempts (w : ANativeWindow) (m m' : Machine W) (b : bool) :
  egl_context_initialized_ (self m) = false ->
  w <> nullptr ->
  Init P w m = (Ok b, m') ->
  (context_ (self m) = EGL_NO_CONTEXT ->
   exists failed,
     attempts (events (Init P w) m)
     = map (fun v => (v, EGL_NO_CONTEXT)) failed
       ++ [((major_version_ (self m'), minor_version_ (self m')), context_ (self m'))]) /\
  (context_ (self m) <> EGL_NO_CONTEXT ->
   attempts (events (Init P w) m) = [] /\
   major_version_ (self m') = major_version_ (self m) /\
   minor_version_ (self m') = minor_version_ (self m)).
Proof.
  intros Hi Hw E. unfold events, after. rewrite E. cbn [snd].
  apply Z.eqb_neq in Hw.
  rewrite (Init_unfold w m Hi), Hw in E. cbn [negb] in E.
  unfold bind at 1 in E.
  match type of E with
  | context [let (_, _) := ?c ?m1 in _] =>
      destruct (c m1) as [[[] | e] mA] eqn:EA; [ | discriminate ]
  end.
  unfold bind in EA.
  match type of EA with
  | context [InitEGLSurface P ?m1] =>
      pose proof (InitEGLSurface_keeps_context_ P m1) as Kc;
      pose proof (InitEGLSurface_keeps_major_version_ m1) as Kma;
      pose proof (InitEGLSurface_keeps_minor_version_ m1) as Kmi;
      unfold keeps, after in Kc, Kma, Kmi; cbn [self] in Kc, Kma, Kmi;
      destruct (InitEGLSurface_says P m1) as [evsS [ES FS]]; unfold after in ES;
      destruct (InitEGLSurface P m1) as [[a | e] m2]; cbn [fst snd trace] in *;
      [ | discriminate ]
  end.
  cbn in Kc, Kma, Kmi.
  pose proof (InitEGLContext_negotiation m2) as N.
  pose proof (InitEGLContext_with_context_makes_no_attempt m2) as S.
  destruct (only_events context_setup_event (InitEGLContext P) m2 (InitEGLContext_says P))
    as [EC _].
  cbn zeta in N, S. unfold after in N, S, EC.
  destruct (InitEGLContext P m2) as [[a' | e] m3] eqn:E3; cbn [snd] in *; [ | discriminate ].
  unfold ret in EA. injection EA as <-.
  destruct (Init_finish_leaves_EGL m3) as [evsF [EF FF]]. unfold after in EF.
  destruct (Init_finish_outcome _ _ _ E) as (_ & _ & _ & HE).
  rewrite E in EF. cbn [snd] in EF.
  unfold EGL_members in HE. injection HE; intros.
  assert (A : attempts (skipn (List.length (trace m)) (trace m'))
              = attempts (events (InitEGLContext P) m2)).
  { rewrite EF, EC, ES, <- !app_assoc, skipn_length_app, !attempts_app.
    rewrite (attempts_surface_setup _ FS), (attempts_quiet _ FF), app_nil_r. reflexivity. }
  rewrite A. split.
  - intros Hc. destruct N as [failed N]; [congruence |]. exists failed.
    assert (Xma : major_version_ (self m') = major_version_ (self m3)) by congruence.
    assert (Xmi : minor_version_ (self m') = minor_version_ (self m3)) by congruence.
    assert (Xc : context_ (self m') = context_ (self m3)) by congruence.
    rewrite N, Xma, Xmi, Xc. reflexivity.
  - intros Hc. destruct S as (S0 & S1 & S2 & _); [congruence |].
    split; [exact S0 |]. split; congruence.
Qed.

(** C8. On a manager that is not initialized, Resume is its log line
    followed by Init: same final machine, EGL_SUCCESS where Init returns,
    Init's exception where Init raises.  The capability query that follows
    reports the ES backend with the version the version members hold.
    With a window, entered without a context (as the constructor and
    Invalidate leave the object), a Resume that returns has negotiated that
    version: it is the version of the last creation attempt of the run,
    whose answer is the context now held, and every earlier attempt
    failed; it is 3.2, 3.1 or 3.0.  With a window and a context already
    held no creation is attempted and the version members are as before.
    Without a window nothing is negotiated either: Init attaches to the
    current context, and the version is what glGetIntegerv wrote, as it
    was before where the query failed. *)
Theorem C8_Resume_uninitialized_is_Init (w : ANativeWindow) (m : Machine W) :
  egl_context_initialized_ (self m) = false ->
  let g := self m in
  let m0 := logged resuming m in
  let m' := after (Resume P w) m in
  let g' := self m' in
  let evs := events (Resume P w) m in
  Resume P w m
  = (match result (Init P w) m0 with
     | Ok _ => Ok EGL_SUCCESS
     | Throw what => Throw what
     end,
     after (Init P w) m0) /\
  evs = resuming :: events (Init P w) m0 /\
  result FillDeviceCaps m'
  = Ok (RENDER_DEVICE_TYPE_GLES, major_version_ g', minor_version_ g') /\
  (forall v, result (Resume P w) m = Ok v ->
     v = EGL_SUCCESS /\ egl_context_initialized_ g' = true /\
     (w <> nullptr -> context_ g = EGL_NO_CONTEXT ->
      (exists failed,
         attempts evs
         = map (fun v => (v, EGL_NO_CONTEXT)) failed
           ++ [((major_version_ g', minor_version_ g'), context_ g')]) /\
      context_ g' <> EGL_NO_CONTEXT /\
      major_version_ g' = 3 /\ 0 <= minor_version_ g' <= 2) /\
     (w <> nullptr -> context_ g <> EGL_NO_CONTEXT ->
      attempts evs = [] /\
      (major_version_ g', minor_version_ g') = (major_version_ g, minor_version_ g)) /\
     (w = nullptr ->
      attempts evs = [] /\
      exists c major minor others,
        evs = resuming :: Ev_eglGetCurrentContext c
              :: Ev_glGetIntegerv GL_MAJOR_VERSION major
              :: Ev_glGetIntegerv GL_MINOR_VERSION minor :: others /\
        (major_version_ g', minor_version_ g')
        = (written major (major_version_ g), written minor (minor_version_ g)))).
Proof.
  intros Hi. cbn zeta.
  pose proof (Resume_uninitialized w m Hi) as Eq.
  assert (Hi0 : egl_context_initialized_ (self (logged resuming m)) = false) by exact Hi.
  assert (Ea : after (Resume P w) m = after (Init P w) (logged resuming m))
    by (unfold after at 1; rewrite Eq; reflexivity).
  assert (Ev : events (Resume P w) m = resuming :: events (Init P w) (logged resuming m)).
  { destruct (only_events any_event (Init P w) (logged resuming m) (Init_says w)) as [Et _].
    unfold events at 1. rewrite Ea, Et. cbn [logged trace].
    rewrite <- app_assoc. apply skipn_length_app. }
  split; [exact Eq |]. split; [exact Ev |]. split; [reflexivity |].
  intros v Hv. unfold result in Hv. rewrite Eq in Hv. cbn [fst] in Hv.
  rewrite Ev, Ea. clear Eq Ev Ea.
  change (attempts (resuming :: ?l)) with (attempts l).
  pose proof (Init_without_window_run (logged resuming m) Hi0) as A.
  pose proof (Init_with_window_ready w (logged resuming m)) as R.
  pose proof (Init_with_window_attempts w (logged resuming m)) as N.
  pose proof (Init_negotiates w (logged resuming m)) as V.
  pose proof (Init_returned w (logged resuming m)) as I.
  cbn zeta in A. unfold result, after in *.
  destruct (Init P w (logged resuming m)) as [[b | what] m1] eqn:E; [ | discriminate ].
  cbn [fst snd] in *. injection Hv as <-.
  destruct (I m1 b eq_refl) as [_ Ii].
  split; [reflexivity |]. split; [exact Ii |]. split; [| split].
  - intros Hw Hc. destruct (N m1 b Hi0 Hw eq_refl) as [N1 _].
    destruct (R m1 b Hi0 Hw eq_refl) as (_ & (_ & _ & Rc & _) & _).
    destruct (V m1 b Hi0 Hw Hc eq_refl) as (V1 & V2 & _).
    split; [exact (N1 Hc) |]. split; [exact Rc |]. split; [exact V1 | exact V2].
  - intros Hw Hc. destruct (N m1 b Hi0 Hw eq_refl) as [_ N2].
    destruct (N2 Hc) as (N0 & Nma & Nmi). split; [exact N0 |].
    cbn [logged self] in Nma, Nmi. rewrite Nma, Nmi. reflexivity.
  - intros ->. rewrite E in A. cbn [fst snd] in A.
    destruct A as (c & rest & Ae & A0 & A1).
    destruct (Z.eq_dec c EGL_NO_CONTEXT) as [Hc | Hc];
      [ destruct (A0 Hc) as [? _]; discriminate |].
    destruct (A1 Hc) as (_ & F & _ & _ & _ & major & minor & others & -> & Hma & Hmi).
    rewrite Ae. split.
    + change (attempts (Ev_eglGetCurrentContext c :: ?l)) with (attempts l).
      exact (attempts_quiet _ F).
    + exists c, major, minor, others. split; [reflexivity |].
      cbn [logged self] in Hma, Hmi. rewrite Hma, Hmi. reflexivity.
Qed.

End Claims.

(** * Concrete runs *)

Import Scenario.

Lemma Sim_rejects_without_display (dev : Sim.Device) :
  rejects_without_display (Sim.platform dev).
Proof. intros c share attribs w. reflexivity. Qed.

Lemma es30_phone_rejects_3_2 : rejects es30_phone (3, 2).
Proof.
  intros d c share w. cbn. unfold Sim.createContext.
  destruct (Sim.usable d w); reflexivity.
Defined.

Lemma es30_phone_rejects_3_1 : rejects es30_phone (3, 1).
Proof.
  intros d c share w. cbn. unfold Sim.createContext.
  destruct (Sim.usable d w); reflexivity.
Defined.

Lemma C1_context_loss_recovery_raises_witness :
  (rejects_without_display phone \/ no_make_current_without_display phone) /\
  context_valid_ (self live) = true /\
  (major_version_ (self live), minor_version_ (self live)) = (3, 2) /\
  events (SwapBuffers phone 1) context_lost
  = [ Ev_eglSwapInterval 1 1 true; Ev_eglSwapBuffers 1 2 false;
      Ev_eglGetError EGL_CONTEXT_LOST;
      Ev_eglMakeCurrent 1 EGL_NO_SURFACE EGL_NO_SURFACE EGL_NO_CONTEXT true;
      Ev_eglDestroyContext 1 3 true; Ev_eglDestroySurface 1 2 true;
      Ev_eglTerminate 1 true;
      Ev_eglCreateContext EGL_NO_DISPLAY 11 NULL (context_attribs (3, 2)) EGL_NO_CONTEXT;
      Ev_eglCreateContext EGL_NO_DISPLAY 11 NULL (context_attribs (3, 1)) EGL_NO_CONTEXT;
      Ev_eglCreateContext EGL_NO_DISPLAY 11 NULL (context_attribs (3, 0)) EGL_NO_CONTEXT;
      Ev_Log Error [Str "Failed to create EGLContext"] ] /\
  result (SwapBuffers phone 1) context_lost = Throw "Failed to create EGLContext" /\
  (major_version_ (self (after (SwapBuffers phone 1) context_lost)),
   minor_version_ (self (after (SwapBuffers phone 1) context_lost))) = (3, 0) /\
  context_valid_ (self (after (SwapBuffers phone 1) context_lost)) = false /\
  display_ (self (after (SwapBuffers phone 1) context_lost)) = EGL_NO_DISPLAY /\
  surface_ (self (after (SwapBuffers phone 1) context_lost)) = EGL_NO_SURFACE.
Proof.
  assert (HP : rejects_without_display phone \/ no_make_current_without_display phone)
    by (left; exact (Sim_rejects_without_display Sim.phone)).
  assert (He : events (SwapBuffers phone 1) context_lost
               = [ Ev_eglSwapInterval 1 1 true; Ev_eglSwapBuffers 1 2 false;
                   Ev_eglGetError EGL_CONTEXT_LOST;
                   Ev_eglMakeCurrent 1 EGL_NO_SURFACE EGL_NO_SURFACE EGL_NO_CONTEXT true;
                   Ev_eglDestroyContext 1 3 true; Ev_eglDestroySurface 1 2 true;
                   Ev_eglTerminate 1 true;
                   Ev_eglCreateContext EGL_NO_DISPLAY 11 NULL (context_attribs (3, 2))
                     EGL_NO_CONTEXT;
                   Ev_eglCreateContext EGL_NO_DISPLAY 11 NULL (context_attribs (3, 1))
                     EGL_NO_CONTEXT;
                   Ev_eglCreateContext EGL_NO_DISPLAY 11 NULL (context_attribs (3, 0))
                     EGL_NO_CONTEXT;
                   Ev_Log Error [Str "Failed to create EGLContext"] ]) by reflexivity.
  destruct (C1_context_loss_recovery_raises phone 1 context_lost _ _ _ _ _ _
              HP He (or_introl eq_refl)) as (_ & V).
  split; [exact HP |]. split; [reflexivity |]. split; [reflexivity |].
  split; [exact He |]. split; [reflexivity |]. split; [reflexivity |]. exact V.
Defined.

Lemma C2_SwapBuffers_applies_clamped_interval_witness :
  surface_ (self live) <> EGL_NO_SURFACE /\
  min_swap_interval_ (self live) <= max_swap_interval_ (self live) /\
  exists ok rest,
    events (SwapBuffers phone 7) live = Ev_eglSwapInterval 1 (clamp 7 0 4) ok :: rest /\
    Forall (fun e => is_eglSwapInterval e = false) rest.
Proof.
  assert (H1 : surface_ (self live) <> EGL_NO_SURFACE) by (vm_compute; discriminate).
  assert (H2 : min_swap_interval_ (self live) <= max_swap_interval_ (self live))
    by (vm_compute; discriminate).
  split; [exact H1 |]. split; [exact H2 |].
  exact (C2_SwapBuffers_applies_clamped_interval phone 7 live H1 H2).
Defined.

Lemma C3_SwapBuffers_without_surface_is_noop_witness :
  surface_ (self suspended) = EGL_NO_SURFACE /\
  SwapBuffers phone 1 suspended = (Ok tt, logged no_surface_warning suspended).
Proof.
  assert (H : surface_ (self suspended) = EGL_NO_SURFACE) by reflexivity.
  split; [exact H |].
  exact (proj1 (C3_SwapBuffers_without_surface_is_noop phone 1 suspended) H).
Defined.

(** C3 as stated fails.  On the ES 2.0 device, after the host attached,
    invalidated and resumed the manager, the context handle is at its
    sentinel and the surface handle is not.  SwapBuffers does not take the
    no-surface exit: it calls eglSwapInterval and eglSwapBuffers, and since
    the swap fails with EGL_BAD_SURFACE it replaces the surface handle. *)
Lemma C3_counterexample :
  context_ (self es20_resumed) = EGL_NO_CONTEXT /\
  surface_ (self es20_resumed) = 2 /\
  SwapBuffers es20_device 1 es20_resumed
  <> (Ok tt, logged no_surface_warning es20_resumed) /\
  In (Ev_eglSwapBuffers 1 2 false) (events (SwapBuffers es20_device 1) es20_resumed) /\
  surface_ (self (after (SwapBuffers es20_device 1) es20_resumed)) = 3.
Proof.
  split; [reflexivity |]. split; [reflexivity |]. split.
  - intros H. apply (f_equal (fun x => surface_ (self (snd x)))) in H.
    vm_compute in H. discriminate H.
  - split; [| reflexivity]. vm_compute. right. left. reflexivity.
Qed.

Lemma C4_InitEGLContext_negotiates_descending_witness :
  context_ (self es30_before_context) = EGL_NO_CONTEXT /\
  attempts (events (InitEGLContext es30_phone) es30_before_context)
  = [((3, 2), EGL_NO_CONTEXT); ((3, 1), EGL_NO_CONTEXT); ((3, 0), 3)] /\
  (major_version_ (self (after (InitEGLContext es30_phone) es30_before_context)),
   minor_version_ (self (after (InitEGLContext es30_phone) es30_before_context))) = (3, 0).
Proof.
  assert (H : context_ (self es30_before_context) = EGL_NO_CONTEXT) by reflexivity.
  split; [exact H |]. split; [reflexivity |].
  exact (proj2 (proj2 (C4_InitEGLContext_negotiates_descending es30_phone
                         es30_before_context H))
           es30_phone_rejects_3_2 es30_phone_rejects_3_1).
Defined.

Lemma C6_configuration_reselected_by_InitEGLSurface_witness :
  egl_context_initialized_ (self suspended) = true /\
  first_make_current (events (Resume phone Sim.the_window) suspended) = Some (true, None) /\
  Forall (fun e => is_eglChooseConfig e = false) (events (Resume phone Sim.the_window) suspended) /\
  config_ (self (after (Resume phone Sim.the_window) suspended)) = config_ (self suspended) /\
  egl_context_initialized_ (self suspended_bad_window) = true /\
  first_make_current (events (Resume phone 5000) suspended_bad_window)
  = Some (false, Some EGL_BAD_NATIVE_WINDOW) /\
  EGL_BAD_NATIVE_WINDOW <> EGL_CONTEXT_LOST /\
  result (Resume phone 5000) suspended_bad_window = Ok EGL_BAD_NATIVE_WINDOW /\
  (exists others,
      In (Ev_eglChooseConfig
            (display_ (self (after (Resume phone 5000) suspended_bad_window)))
            (config_attribs 8
               (depth_size_ (self (after (Resume phone 5000) suspended_bad_window))))
            1
            (Some (config_ (self (after (Resume phone 5000) suspended_bad_window)) :: others)))
         (events (Resume phone 5000) suspended_bad_window)) /\
  events (SwapBuffers phone 1) surface_lost
  = Ev_eglSwapInterval 1 1 true :: Ev_eglSwapBuffers 1 2 false
    :: Ev_eglGetError EGL_BAD_SURFACE :: surface_lost_rest /\
  ((exists others,
       In (Ev_eglChooseConfig
             (display_ (self (after (SwapBuffers phone 1) surface_lost)))
             (config_attribs 8 (depth_size_ (self (after (SwapBuffers phone 1) surface_lost))))
             1
             (Some (config_ (self (after (SwapBuffers phone 1) surface_lost)) :: others)))
          surface_lost_rest)
   \/ exists pre, surface_lost_rest = pre ++ [recreate_failed]).
Proof.
  assert (Hi : egl_context_initialized_ (self suspended) = true) by reflexivity.
  assert (Hm : first_make_current (events (Resume phone Sim.the_window) suspended)
               = Some (true, None)) by reflexivity.
  assert (Hi' : egl_context_initialized_ (self suspended_bad_window) = true) by reflexivity.
  assert (Hm' : first_make_current (events (Resume phone 5000) suspended_bad_window)
                = Some (false, Some EGL_BAD_NATIVE_WINDOW)) by reflexivity.
  assert (Hne : EGL_BAD_NATIVE_WINDOW <> EGL_CONTEXT_LOST) by discriminate.
  assert (Hr : result (Resume phone 5000) suspended_bad_window = Ok EGL_BAD_NATIVE_WINDOW)
    by reflexivity.
  assert (He : events (SwapBuffers phone 1) surface_lost
               = Ev_eglSwapInterval 1 1 true :: Ev_eglSwapBuffers 1 2 false
                 :: Ev_eglGetError EGL_BAD_SURFACE :: surface_lost_rest) by reflexivity.
  destruct (C6_configuration_reselected_by_InitEGLSurface phone suspended) as [R _].
  destruct (C6_configuration_reselected_by_InitEGLSurface phone suspended_bad_window)
    as [R' _].
  destruct (C6_configuration_reselected_by_InitEGLSurface phone surface_lost) as [_ S].
  destruct (R Sim.the_window Hi) as (_ & R2 & _). destruct (R2 (or_introl Hm)) as [F K].
  destruct (R' 5000 Hi') as (_ & _ & R3).
  split; [exact Hi |]. split; [exact Hm |]. split; [exact F |]. split; [exact K |].
  split; [exact Hi' |]. split; [exact Hm' |]. split; [exact Hne |]. split; [exact Hr |].
  split; [exact (R3 _ _ Hm' Hne Hr) |].
  split; [exact He |]. exact (S 1 1 1 true 2 surface_lost_rest He).
Defined.

(** C6 as stated fails.  The phone holds configuration 11; the surface is
    lost while the driver now offers configuration 21.  The recovery in
    SwapBuffers calls eglChooseConfig with the constraints of
    InitEGLSurface and stores its answer: the object holds 21 afterwards. *)
Lemma C6_counterexample :
  config_ (self surface_lost_other_config) = 11 /\
  In (Ev_eglChooseConfig 1 (config_attribs 8 24) 1 (Some [21]))
     (events (SwapBuffers phone 1) surface_lost_other_config) /\
  config_ (self (after (SwapBuffers phone 1) surface_lost_other_config)) = 21.
Proof.
  split; [reflexivity |]. split; [| reflexivity].
  vm_compute. do 6 right. left. reflexivity.
Qed.

Lemma C7_surface_loss_keeps_context_witness :
  events (SwapBuffers phone 1) surface_lost
  = Ev_eglSwapInterval 1 1 true :: Ev_eglSwapBuffers 1 2 false
    :: Ev_eglGetError EGL_BAD_SURFACE :: surface_lost_rest /\
  result (SwapBuffers phone 1) surface_lost = Ok tt /\
  context_ (self (after (SwapBuffers phone 1) surface_lost)) = context_ (self surface_lost) /\
  context_valid_ (self (after (SwapBuffers phone 1) surface_lost))
  = context_valid_ (self surface_lost).
Proof.
  assert (He : events (SwapBuffers phone 1) surface_lost
               = Ev_eglSwapInterval 1 1 true :: Ev_eglSwapBuffers 1 2 false
                 :: Ev_eglGetError EGL_BAD_SURFACE :: surface_lost_rest) by reflexivity.
  destruct (C7_surface_loss_keeps_context phone 1 surface_lost 1 1 true 2
              surface_lost_rest He) as (A & B & C & _).
  split; [exact He |]. split; [exact A |]. split; [exact B | exact C].
Defined.

(** C7 as stated fails in one respect.  The phone holds configuration 11;
    the surface is lost while the driver now offers configuration 21.  The
    recovery succeeds, and the new surface 4 is created for the same window
    against configuration 21, not against the configuration held before. *)
Lemma C7_counterexample :
  config_ (self surface_lost_other_config) = 11 /\
  result (SwapBuffers phone 1) surface_lost_other_config = Ok tt /\
  In (Ev_eglCreateWindowSurface 1 21 Sim.the_window 4)
     (events (SwapBuffers phone 1) surface_lost_other_config) /\
  surface_ (self (after (SwapBuffers phone 1) surface_lost_other_config)) = 4.
Proof.
  split; [reflexivity |]. split; [reflexivity |]. split; [| reflexivity].
  vm_compute. do 8 right. left. reflexivity.
Qed.

Lemma C8_Resume_uninitialized_is_Init_witness :
  egl_context_initialized_ (self es30_invalidated) = false /\
  5000 <> nullptr /\
  context_ (self es30_invalidated) = EGL_NO_CONTEXT /\
  result (Resume es30_phone 5000) es30_invalidated = Ok EGL_SUCCESS /\
  attempts (events (Resume es30_phone 5000) es30_invalidated)
  = [((3, 2), EGL_NO_CONTEXT); ((3, 1), EGL_NO_CONTEXT); ((3, 0), 5)] /\
  (exists failed,
     attempts (events (Resume es30_phone 5000) es30_invalidated)
     = map (fun v => (v, EGL_NO_CONTEXT)) failed
       ++ [((major_version_ (self (after (Resume es30_phone 5000) es30_invalidated)),
             minor_version_ (self (after (Resume es30_phone 5000) es30_invalidated))),
            context_ (self (after (Resume es30_phone 5000) es30_invalidated)))]) /\
  result FillDeviceCaps (after (Resume es30_phone 5000) es30_invalidated)
  = Ok (RENDER_DEVICE_TYPE_GLES,
        major_version_ (self (after (Resume es30_phone 5000) es30_invalidated)),
        minor_version_ (self (after (Resume es30_phone 5000) es30_invalidated))) /\
  result FillDeviceCaps (after (Resume es30_phone 5000) es30_invalidated)
  = Ok (RENDER_DEVICE_TYPE_GLES, 3, 0).
Proof.
  assert (Hi : egl_context_initialized_ (self es30_invalidated) = false)
    by (vm_compute; reflexivity).
  assert (Hw : 5000 <> nullptr) by discriminate.
  assert (Hc : context_ (self es30_invalidated) = EGL_NO_CONTEXT)
    by (vm_compute; reflexivity).
  assert (Hr : result (Resume es30_phone 5000) es30_invalidated = Ok EGL_SUCCESS)
    by (vm_compute; reflexivity).
  destruct (C8_Resume_uninitialized_is_Init es30_phone 5000 es30_invalidated Hi)
    as (_ & _ & Caps & H).
  destruct (H EGL_SUCCESS Hr) as (_ & _ & N & _).
  destruct (N Hw Hc) as (A & _).
  split; [exact Hi |]. split; [exact Hw |]. split; [exact Hc |]. split; [exact Hr |].
  split; [vm_compute; reflexivity |]. split; [exact A |]. split; [exact Caps |].
  vm_compute. reflexivity.
Defined.

(** C8 as stated fails for a Resume without a window.  On the ES 2.0
    device the host keeps its own context current.  On the object as the
    member initialisers of the constructor leave it, and again on the
    attached manager after Invalidate, Resume(nullptr) goes through Init and
    returns EGL_SUCCESS with the manager initialized; no context creation
    was attempted, the driver answered neither version query, and the
    capability query reports version 0.0. *)
Lemma C8_counterexample :
  (egl_context_initialized_ (self es20_fresh) = false /\
   result (Resume es20_device nullptr) es20_fresh = Ok EGL_SUCCESS /\
   egl_context_initialized_ (self (after (Resume es20_device nullptr) es20_fresh)) = true /\
   attempts (events (Resume es20_device nullptr) es20_fresh) = [] /\
   result FillDeviceCaps (after (Resume es20_device nullptr) es20_fresh)
   = Ok (RENDER_DEVICE_TYPE_GLES, 0, 0)) /\
  (egl_context_initialized_ (self es20_invalidated) = false /\
   result (Resume es20_device nullptr) es20_invalidated = Ok EGL_SUCCESS /\
   egl_context_initialized_ (self (after (Resume es20_device nullptr) es20_invalidated))
   = true /\
   events (Resume es20_device nullptr) es20_invalidated
   = [resuming; Ev_eglGetCurrentContext 7; Ev_glGetIntegerv GL_MAJOR_VERSION None;
      Ev_glGetIntegerv GL_MINOR_VERSION None] /\
   result FillDeviceCaps (after (Resume es20_device nullptr) es20_invalidated)
   = Ok (RENDER_DEVICE_TYPE_GLES, 0, 0)).
Proof. repeat split; vm_compute; reflexivity. Qed.

Lemma C10_Resume_returns_make_current_error_witness :
  egl_context_initialized_ (self suspended_bad_window) = true /\
  result (Resume phone 5000) suspended_bad_window = Ok EGL_BAD_NATIVE_WINDOW /\
  context_valid_ (self (after (Resume phone 5000) suspended_bad_window)) = true /\
  ((first_make_current (events (Resume phone 5000) suspended_bad_window) = Some (true, None) /\
    result (Resume phone 5000) suspended_bad_window = Ok EGL_SUCCESS)
   \/
   (exists err,
       first_make_current (events (Resume phone 5000) suspended_bad_window)
       = Some (false, Some err) /\
       (result (Resume phone 5000) suspended_bad_window = Ok err \/
        exists what, result (Resume phone 5000) suspended_bad_window = Throw what))).
Proof.
  assert (Hi : egl_context_initialized_ (self suspended_bad_window) = true) by reflexivity.
  split; [exact Hi |]. split; [reflexivity |]. split; [reflexivity |].
  exact (C10_Resume_returns_make_current_error phone 5000 suspended_bad_window Hi).
Defined.

(** ** Further runs *)

Lemma X3_GLES_setup_happens_once_witness :
  gles_initialized_ (self invalidated) = true /\
  result (Resume phone 5000) invalidated = Ok EGL_SUCCESS /\
  GLES_left_alone (Resume phone 5000) invalidated /\
  GLES_left_alone (Init phone 5000) invalidated.
Proof.
  assert (H : gles_initialized_ (self invalidated) = true) by reflexivity.
  destruct (X3_GLES_setup_happens_once phone invalidated 5000 1 H) as (I & R & _).
  split; [exact H |]. split; [reflexivity |]. split; [exact R | exact I].
Defined.

Lemma X6_Init_with_window_makes_ready_witness :
  egl_context_initialized_ (self invalidated) = false /\
  5000 <> nullptr /\
  result (Init phone 5000) invalidated = Ok true /\
  ready (self (after (Init phone 5000) invalidated)) /\
  window_ (self (after (Init phone 5000) invalidated)) = 5000.
Proof.
  assert (Hi : egl_context_initialized_ (self invalidated) = false) by reflexivity.
  assert (Hw : 5000 <> nullptr) by discriminate.
  assert (E : Init phone 5000 invalidated = (Ok true, after (Init phone 5000) invalidated))
    by (vm_compute; reflexivity).
  destruct (X6_Init_with_window_makes_ready phone 5000 invalidated _ true Hi Hw E)
    as (_ & R & _ & _ & Ww).
  split; [exact Hi |]. split; [exact Hw |]. split; [reflexivity |]. split; [exact R | exact Ww].
Defined.

Lemma X7_Init_without_window_attaches_witness :
  egl_context_initialized_ (self (Sim.start (Sim.boot_with_host_context 7))) = false /\
  result (Init es20_device nullptr) (Sim.start (Sim.boot_with_host_context 7)) = Ok true /\
  exists c rest,
    events (Init es20_device nullptr) (Sim.start (Sim.boot_with_host_context 7))
    = Ev_eglGetCurrentContext c :: rest /\
    c = 7 /\ Forall (fun e => changes_EGL e = false) rest.
Proof.
  assert (Hi : egl_context_initialized_ (self (Sim.start (Sim.boot_with_host_context 7)))
               = false) by reflexivity.
  destruct (X7_Init_without_window_attaches es20_device
              (Sim.start (Sim.boot_with_host_context 7)) Hi) as (c & rest & E & _ & H).
  assert (Hc : c = 7) by (vm_compute in E; congruence).
  assert (Hn : c <> EGL_NO_CONTEXT) by (rewrite Hc; discriminate).
  destruct (H Hn) as (_ & F & _).
  split; [exact Hi |]. split; [reflexivity |]. exists c, rest. auto.
Defined.

Lemma X8_Init_runs_once_witness :
  Init phone 5000 invalidated = (Ok true, after (Init phone 5000) invalidated) /\
  window_ (self (after (Init phone 5000) invalidated)) = 5000 /\
  Init phone 6000 (after (Init phone 5000) invalidated)
  = (Ok true, after (Init phone 5000) invalidated).
Proof.
  assert (E : Init phone 5000 invalidated = (Ok true, after (Init phone 5000) invalidated))
    by (vm_compute; reflexivity).
  destruct (X8_Init_runs_once phone 5000 6000 invalidated _ true E) as (_ & _ & Again).
  split; [exact E |]. split; [reflexivity | exact Again].
Defined.

Lemma X11_constructor_with_window_witness :
  Sim.the_window <> nullptr /\
  result (GLContext_ctor phone Sim.the_window) (Sim.start Sim.boot)
  = Ok (RENDER_DEVICE_TYPE_GLES, 3, 2) /\
  ready (self (after (GLContext_ctor phone Sim.the_window) (Sim.start Sim.boot))) /\
  major_version_ (self (after (GLContext_ctor phone Sim.the_window) (Sim.start Sim.boot))) = 3.
Proof.
  assert (Hw : Sim.the_window <> nullptr) by discriminate.
  assert (E : GLContext_ctor phone Sim.the_window (Sim.start Sim.boot)
              = (Ok (RENDER_DEVICE_TYPE_GLES, 3, 2),
                 after (GLContext_ctor phone Sim.the_window) (Sim.start Sim.boot)))
    by (vm_compute; reflexivity).
  destruct (X11_constructor_with_window phone Sim.the_window (Sim.start Sim.boot) _ _ Hw E)
    as (R & _ & _ & _ & _ & V & _).
  split; [exact Hw |]. split; [reflexivity |]. split; [exact R | exact V].
Defined.

Lemma X12_constructor_without_window_witness :
  GLContext_ctor es20_device nullptr (Sim.start (Sim.boot_with_host_context 7))
  = (Ok (RENDER_DEVICE_TYPE_GLES, 0, 0), es20_attached) /\
  context_valid_ (self es20_attached) = true /\
  SwapBuffers es20_device 1 es20_attached
  = (Ok tt, logged no_surface_warning es20_attached) /\
  events (GLContext_dtor es20_device) es20_attached = [].
Proof.
  assert (E : GLContext_ctor es20_device nullptr (Sim.start (Sim.boot_with_host_context 7))
              = (Ok (RENDER_DEVICE_TYPE_GLES, 0, 0), es20_attached))
    by (vm_compute; reflexivity).
  destruct (X12_constructor_without_window es20_device
              (Sim.start (Sim.boot_with_host_context 7)) es20_attached _ 1 E)
    as (_ & _ & V & _ & S & D).
  split; [exact E |]. split; [exact V |]. split; [exact S | exact D].
Defined.

Lemma X13_SwapBuffers_drops_other_errors_witness :
  surface_ (self (meanwhile (Sim.next_swap_fails EGL_BAD_ALLOC) live)) <> EGL_NO_SURFACE /\
  events (SwapBuffers phone 1) (meanwhile (Sim.next_swap_fails EGL_BAD_ALLOC) live)
  = [Ev_eglSwapInterval 1 1 true; Ev_eglSwapBuffers 1 2 false; Ev_eglGetError EGL_BAD_ALLOC] /\
  result (SwapBuffers phone 1) (meanwhile (Sim.next_swap_fails EGL_BAD_ALLOC) live) = Ok tt /\
  self (after (SwapBuffers phone 1) (meanwhile (Sim.next_swap_fails EGL_BAD_ALLOC) live))
  = self live.
Proof.
  assert (Hs : surface_ (self (meanwhile (Sim.next_swap_fails EGL_BAD_ALLOC) live))
               <> EGL_NO_SURFACE) by (vm_compute; discriminate).
  destruct (X13_SwapBuffers_drops_other_errors phone 1
              (meanwhile (Sim.next_swap_fails EGL_BAD_ALLOC) live) Hs)
    as (ok & b & rest & E & _ & H).
  assert (Hb : b = false) by (vm_compute in E; injection E; intros; subst; reflexivity).
  destruct (H Hb) as (err & rest' & -> & H').
  assert (He : err = EGL_BAD_ALLOC) by (vm_compute in E; injection E; intros; subst; reflexivity).
  destruct H' as (_ & R & S); [ rewrite He; discriminate .. |].
  split; [exact Hs |]. split; [vm_compute; reflexivity |].
  split; [exact R | rewrite S; vm_compute; reflexivity].
Defined.

Lemma X14_surface_recovery_releases_nothing_witness :
  events (SwapBuffers phone 1) surface_lost
  = Ev_eglSwapInterval 1 1 true :: Ev_eglSwapBuffers 1 2 false
    :: Ev_eglGetError EGL_BAD_SURFACE :: surface_lost_rest /\
  release_order (events (SwapBuffers phone 1) surface_lost) = [] /\
  surface_ (self surface_lost) = 2 /\
  surface_ (self (after (SwapBuffers phone 1) surface_lost)) = 4.
Proof.
  assert (He : events (SwapBuffers phone 1) surface_lost
               = Ev_eglSwapInterval 1 1 true :: Ev_eglSwapBuffers 1 2 false
                 :: Ev_eglGetError EGL_BAD_SURFACE :: surface_lost_rest) by reflexivity.
  destruct (X14_surface_recovery_releases_nothing phone 1 surface_lost 1 1 true 2
              surface_lost_rest He) as (R & _).
  split; [exact He |]. split; [exact R |]. split; reflexivity.
Defined.


Lemma X18_Invalidate_then_Resume_reinitializes_witness :
  5000 <> nullptr /\
  result (Resume phone 5000) (after (Invalidate phone) live) = Ok EGL_SUCCESS /\
  ready (self (after (Resume phone 5000) (after (Invalidate phone) live))) /\
  context_ (self live) = 3 /\
  context_ (self (after (Resume phone 5000) (after (Invalidate phone) live))) = 5.
Proof.
  assert (Hw : 5000 <> nullptr) by discriminate.
  assert (E : Resume phone 5000 (after (Invalidate phone) live)
              = (Ok EGL_SUCCESS, after (Resume phone 5000) (after (Invalidate phone) live)))
    by (vm_compute; reflexivity).
  destruct (X18_Invalidate_then_Resume_reinitializes phone 5000 live _ _ Hw E)
    as (_ & R & _).
  split; [exact Hw |]. split; [reflexivity |]. split; [exact R |]. split; reflexivity.
Defined.

Lemma X19_InitEGLSurface_failure_state_witness :
  result (InitEGLSurface phone) (meanwhile (Sim.now_offers []) live)
  = Throw "Unable to retrieve EGL config" /\
  surface_ (self (meanwhile (Sim.now_offers []) live)) = 2 /\
  surface_ (self (after (InitEGLSurface phone) (meanwhile (Sim.now_offers []) live)))
  = surface_ (self (meanwhile (Sim.now_offers []) live)) /\
  display_ (self (after (InitEGLSurface phone) (meanwhile (Sim.now_offers []) live)))
  <> EGL_NO_DISPLAY.
Proof.
  assert (E : result (InitEGLSurface phone) (meanwhile (Sim.now_offers []) live)
              = Throw "Unable to retrieve EGL config") by (vm_compute; reflexivity).
  destruct (X19_InitEGLSurface_failure_state phone (meanwhile (Sim.now_offers []) live) _ E)
    as (D & _ & S & _).
  split; [exact E |]. split; [vm_compute; reflexivity |].
  split; [apply S; discriminate |].
  intros H. apply D in H. discriminate H.
Defined.

(* The line of the debug-message callback, for enumerants the switches
   know and for one they do not. *)
Example openglCallbackFunction_line :
  events (openglCallbackFunction GL_DEBUG_SOURCE_SHADER_COMPILER GL_DEBUG_TYPE_PERFORMANCE
            131218 GL_DEBUG_SEVERITY_MEDIUM 9 "recompiled" 0) live
  = [Ev_Log Info
       [Str "OpenGL debug message 131218 (Source: Shader Compiler. Type: PERFORMANCE. Severity: Medium): recompiled"]] /\
  events (openglCallbackFunction 5 GL_DEBUG_TYPE_ERROR 1280 GL_DEBUG_SEVERITY_HIGH 3 "bad" 0)
    live
  = [Ev_Log Info
       [Str "OpenGL debug message 1280 (Source: Unknown (5). Type: ERROR. Severity: HIGH): bad"]].
Proof. split; vm_compute; reflexivity. Qed.
